(** * dtslint: version-range planning and attw reconciliation

    A shallow embedding of [packages/dtslint/src/index.ts], from the point
    where [runTests] has obtained [packageJson] (line 149) to its end, with
    the helpers [maxVersion], [next] and [testTypesVersion].

    JavaScript values are modelled by [JsVal], numbers by [JsNum] (an exact
    rational, the two infinities, or NaN).  Exceptions and the order of the
    externally visible calls are modelled by a small trace-and-error monad
    [M]: a computation takes the trace of calls made so far and returns the
    extended trace with either a value or the thrown error. *)

From Stdlib Require Import List String Ascii Bool Arith ZArith QArith Lia Lqa.
Import ListNotations.

Local Open Scope string_scope.
Local Open Scope list_scope.

(** String concatenation, the [+] of the source and its template literals. *)
Infix "+++" := String.append (at level 60, right associativity).

(** ** JavaScript values *)

Inductive JsVal : Type :=
| JUndefined
| JNull
| JBool (b : bool)
| JStr (s : string).

Coercion JStr : string >-> JsVal.

Definition JsVal_eq_dec (a b : JsVal) : {a = b} + {a <> b}.
Proof. decide equality; [apply Bool.bool_dec | apply string_dec]. Defined.

(** [a === b] on the values above. *)
Definition strictEq (a b : JsVal) : bool :=
  if JsVal_eq_dec a b then true else false.

(** ToString, as used by template literals and by [parseFloat]. *)
Definition toStr (v : JsVal) : string :=
  match v with
  | JUndefined => "undefined"
  | JNull => "null"
  | JBool true => "true"
  | JBool false => "false"
  | JStr s => s
  end.

(** ToBoolean, as used by [if (x)], [!x] and [x ? a : b]. *)
Definition truthy (v : JsVal) : bool :=
  match v with
  | JUndefined | JNull => false
  | JBool b => b
  | JStr s => negb (String.eqb s EmptyString)
  end.

(** The characters the source's messages need and a literal cannot hold. *)
Definition nl : string := String "010"%char EmptyString.
Definition tab : string := String "009"%char EmptyString.
Definition dq : string := String "034"%char EmptyString.

(** ** Numbers and [parseFloat]

    A finite double is a rational, so [Fin q] covers every finite result.
    [parseFloat] below computes the exact value of the decimal literal it
    reads; the builtin rounds that value to the nearest double.  Rounding is
    monotone, and two literals of at most 15 significant digits round to the
    same double only when they are equal, so on version identifiers the
    comparisons below are those of the builtin.  On literals of more
    digits, or beyond the range of doubles (where the builtin gives
    Infinity), the exact value is not the builtin's; the proofs below use
    only the order facts of [jsGe] and [jsGt], which hold of doubles as
    well. *)

Inductive JsNum : Type :=
| NaN
| NegInf
| Fin (q : Q)
| PosInf.

(** [a >= b] on numbers: false as soon as one side is NaN. *)
Definition jsGe (a b : JsNum) : bool :=
  match a, b with
  | NaN, _ | _, NaN => false
  | PosInf, _ => true
  | _, NegInf => true
  | Fin x, Fin y => Qle_bool y x
  | _, _ => false
  end.

(** [a > b] on numbers. *)
Definition jsGt (a b : JsNum) : bool := jsGe a b && negb (jsGe b a).

Definition isWhiteSpace (c : ascii) : bool :=
  let n := nat_of_ascii c in
  ((9 <=? n) && (n <=? 13))%nat || (n =? 32)%nat.

Definition isDigit (c : ascii) : bool :=
  let n := nat_of_ascii c in ((48 <=? n) && (n <=? 57))%nat.

Definition digitVal (c : ascii) : Z := Z.of_nat (nat_of_ascii c - 48).

Fixpoint trimStart (s : string) : string :=
  match s with
  | String c r => if isWhiteSpace c then trimStart r else s
  | EmptyString => s
  end.

(** Reads a run of decimal digits: the accumulated value, how many digits
    were read, and the rest of the input. *)
Fixpoint readDigits (s : string) (acc : Z) (n : nat) : Z * nat * string :=
  match s with
  | String c r =>
      if isDigit c then readDigits r (acc * 10 + digitVal c)%Z (S n)
      else (acc, n, s)
  | EmptyString => (acc, n, s)
  end.

Definition readSign (s : string) : bool * string :=
  match s with
  | String "-"%char r => (true, r)
  | String "+"%char r => (false, r)
  | _ => (false, s)
  end.

(** The exponent part: [e] or [E], an optional sign and at least one digit;
    anything else is not part of the literal and counts as exponent 0. *)
Definition readExponent (s : string) : Z :=
  match s with
  | String c r =>
      if (Ascii.eqb c "e" || Ascii.eqb c "E")%bool then
        let (neg, r1) := readSign r in
        let '(e, n, _) := readDigits r1 0%Z 0%nat in
        if (n =? 0)%nat then 0%Z else if neg then (- e)%Z else e
      else 0%Z
  | EmptyString => 0%Z
  end.

Definition parseFloatStr (s : string) : JsNum :=
  let (neg, s1) := readSign (trimStart s) in
  if String.prefix "Infinity" s1 then (if neg then NegInf else PosInf)
  else
    let '(ip, ni, s2) := readDigits s1 0%Z 0%nat in
    let '(m, nf, s3) :=
      match s2 with
      | String "."%char r => readDigits r ip 0%nat
      | _ => (ip, 0%nat, s2)
      end in
    if (ni + nf =? 0)%nat then NaN
    else
      let q := (inject_Z m / inject_Z (10 ^ Z.of_nat nf))%Q in
      let q := (q * Qpower (inject_Z 10) (readExponent s3))%Q in
      Fin (if neg then Qopp q else q).

Definition parseFloat (v : JsVal) : JsNum := parseFloatStr (toStr v).

(** ** Errors and the monad *)

(** [AssertionError None] is an assertion that failed without a message of
    the caller's (Node generates one from the operands); [JsError] is
    [new Error(message)]; [Unreachable] is what [assertNever] throws. *)
Inductive Error : Type :=
| AssertionError (message : option string)
| JsError (message : string)
| Unreachable (value : JsVal).

Inductive Result (A : Type) : Type :=
| Ok (a : A)
| Throw (e : Error).
Arguments Ok {A} a.
Arguments Throw {A} e.

Definition rbind {A B} (r : Result A) (k : A -> Result B) : Result B :=
  match r with
  | Ok a => k a
  | Throw e => Throw e
  end.

(** The calls whose order is observable. *)
Record TestCall : Type := mkTestCall {
  tcDir : string;
  tcLow : JsVal;
  tcHi : JsVal;
  tcExpectOnly : bool;
  tcTsLocal : JsVal;
  tcIsLatest : bool
}.

Inductive Event : Type :=
| ConsoleLog (args : list JsVal)
| TestTypesVersion (call : TestCall)
| RunAttw (dirPath configPath : string).

Definition Trace : Type := list Event.

Definition M (A : Type) : Type := Trace -> Trace * Result A.

Definition ret {A} (a : A) : M A := fun tr => (tr, Ok a).
Definition throw {A} (e : Error) : M A := fun tr => (tr, Throw e).
Definition emit (ev : Event) : M unit := fun tr => (tr ++ [ev], Ok tt).
Definition lift {A} (r : Result A) : M A := fun tr => (tr, r).

Definition bind {A B} (m : M A) (k : A -> M B) : M B :=
  fun tr =>
    match m tr with
    | (tr', Ok a) => k a tr'
    | (tr', Throw e) => (tr', Throw e)
    end.

Declare Scope js_scope.
Delimit Scope js_scope with js.
Notation "x <- m ;; k" := (bind m (fun x => k))
  (at level 61, m at next level, right associativity) : js_scope.
Notation "m ;; k" := (bind m (fun _ => k))
  (at level 61, right associativity) : js_scope.

(** [assert(cond, message)] *)
Definition assertTrue (cond : bool) (message : option string) : Result unit :=
  if cond then Ok tt else Throw (AssertionError message).

(** ** The helpers of index.ts *)

(** function maxVersion(v1, v2) (lines 212-215) *)
Definition maxVersion (v1 v2 : JsVal) : JsVal :=
  if jsGe (parseFloat v1) (parseFloat v2) then v1 else v2.

(** [Array.prototype.indexOf]: the first position holding a value strictly
    equal to [v], or -1. *)
Fixpoint indexOfFrom (l : list JsVal) (v : JsVal) (i : Z) : Z :=
  match l with
  | [] => (-1)%Z
  | x :: r => if strictEq x v then i else indexOfFrom r v (i + 1)%Z
  end.

Definition indexOf (l : list JsVal) (v : JsVal) : Z := indexOfFrom l v 0%Z.

(** [a[i]]: undefined outside the array. *)
Definition arrayGet (l : list JsVal) (i : Z) : JsVal :=
  if (i <? 0)%Z then JUndefined else nth (Z.to_nat i) l JUndefined.

Definition arrayIncludes (l : list string) (s : string) : bool :=
  existsb (String.eqb s) l.

(** [l.join(sep)] *)
Fixpoint joinWith (sep : string) (l : list string) : string :=
  match l with
  | [] => EmptyString
  | [x] => x
  | x :: r => x +++ sep +++ joinWith sep r
  end.

(** [s.slice(n)] for [n >= 0] *)
Definition sliceFrom (n : nat) (s : string) : string :=
  substring n (String.length s - n) s.

(** [path.join(a, b)] for a directory [a] and a name [b] that need no
    normalisation (no empty, [.] or [..] segment, [a] not ending in a
    slash): the two joined by a slash.  Elsewhere the builtin gives another
    spelling of the same path ([path.join("/", "x")] is [/x], not [//x]);
    only the spelling of directory strings depends on it. *)
Definition joinPaths (a b : string) : string := a +++ "/" +++ b.

Fixpoint mapResult {A B} (f : A -> Result B) (l : list A) : Result (list B) :=
  match l with
  | [] => Ok []
  | x :: r => rbind (f x) (fun y => rbind (mapResult f r) (fun ys => Ok (y :: ys)))
  end.

(** [for (let i = start; i < start + fuel; i++) body(i)], each iteration
    awaited before the next. *)
Fixpoint forFrom (fuel i : nat) (body : nat -> M unit) : M unit :=
  match fuel with
  | O => ret tt
  | S fuel' => (body i ;; forFrom fuel' (S i) body)%js
  end.

(** Modelled from the spec: [assertNever] of the absent package
    @definitelytyped/utils, the unreachable-case assertion: it never
    returns. *)
Definition assertNever (x : JsVal) : Result unit := Throw (Unreachable x).

(** What [runTests] reads of the value [checkPackageJson] returned. *)
Record PackageJson : Type := mkPackageJson {
  minimumTypeScriptVersion : JsVal;
  nonNpm : JsVal
}.

(** The collaborators outside index.ts, as functions of their arguments:
    [checkTslintJson] returns or throws, [checkTsconfig] (applied to the
    compiler options of the directory) returns its list of errors, [lint]
    resolves to a string or undefined, [readFailingPackages] is
    [readJson(path).failingPackages] ([None] when it is undefined or null),
    [runAreTheTypesWrong] returns [(output, status)]. *)
Record Env : Type := mkEnv {
  checkTslintJson : string -> Result unit;
  checkTsconfig : string -> list string;
  lint : string -> JsVal -> JsVal -> bool -> bool -> JsVal -> JsVal;
  readFailingPackages : string -> option (list string);
  runAreTheTypesWrong : string -> string -> string * string
}.

(** The arguments of [runTests], with the values it computes before line
    149: [dtRoot] is [findDTRoot(dirPath)], [typesVersions] is
    [getTypesVersions(dirPath)]. *)
Record Args : Type := mkArgs {
  dirPath : string;
  dtRoot : string;
  onlyTestTsNext : bool;
  expectOnly : bool;
  tsLocal : JsVal;
  typesVersions : list JsVal;
  packageJson : PackageJson
}.

(** async function testTypesVersion (lines 224-241) *)
Definition testTypesVersion (env : Env) (dir : string)
    (lowVersion hiVersion : JsVal) (expOnly : bool) (local : JsVal)
    (isLatest : bool) : M unit :=
  (emit (TestTypesVersion
           (mkTestCall dir lowVersion hiVersion expOnly local isLatest)) ;;
   lift (checkTslintJson env dir) ;;
   let tsconfigErrors := checkTsconfig env dir in
   if (0 <? List.length tsconfigErrors)%nat then
     throw (JsError (nl +++ tab +++ "* "
                     +++ joinWith (nl +++ tab +++ "* ") tsconfigErrors))
   else
     let err := lint env dir lowVersion hiVersion isLatest expOnly local in
     if truthy err then throw (JsError (toStr err)) else ret tt)%js.

(** The message of the assertion of lines 164-167. *)
Definition skipMessage (minVersion hi : JsVal) : string :=
  "'" +++ dq +++ "minimumTypeScriptVersion" +++ dq +++ ": " +++ dq
  +++ toStr minVersion +++ dq +++ "' in package.json skips ts"
  +++ toStr hi +++ " folder.".

(** The two inner switches of lines 184-207 and the [return undefined] of
    line 209 that control reaches when no case matches.  [caseFalse] is the
    body of [case false:]; the [default:] of [case true:] has no [break], so
    it would fall through to it if [assertNever] returned. *)
Definition caseFalse (output status : string) : Result JsVal :=
  if (String.eqb status "error" || String.eqb status "fail")%bool then
    Throw (JsError ("!@arethetypeswrong/cli" +++ nl +++ output))
  else if String.eqb status "pass" then Ok JUndefined
  else Ok JUndefined.

Definition reconcile (expectError : JsVal) (dirName output status : string)
    : Result JsVal :=
  if strictEq expectError (JBool true) then
    if String.eqb status "error" then Ok JUndefined
    else if String.eqb status "fail" then
      Ok (JStr ("Ignoring attw failure because " +++ dq +++ dirName +++ dq
                +++ " is listed in 'failingPackages'." +++ nl +++ nl
                +++ "@arethetypeswrong/cli" +++ nl +++ output))
    else if String.eqb status "pass" then
      Throw (JsError ("attw passed: remove " +++ dq +++ dirName +++ dq
                      +++ " from 'failingPackages' in attw.json"
                      +++ nl +++ nl +++ output))
    else rbind (assertNever (JStr status)) (fun _ => caseFalse output status)
  else if strictEq expectError (JBool false) then caseFalse output status
  else Ok JUndefined.

Section Planner.

(** [TypeScriptVersion.supported] of @definitelytyped/typescript-versions,
    which is not part of the sources at hand: a parameter. *)
Variable supported : list JsVal.

(** Modelled from the spec: [TypeScriptVersion.lowest], declared in the
    absent package @definitelytyped/typescript-versions; the specification
    calls it the lowest supported version, the first entry of the ascending
    list. *)
Definition lowest : JsVal := arrayGet supported 0%Z.

(** Modelled from the spec: [TypeScriptVersion.latest], declared in the
    absent package @definitelytyped/typescript-versions; the specification
    calls it the latest supported version, the last entry of the ascending
    list. *)
Definition latest : JsVal :=
  arrayGet supported (Z.of_nat (List.length supported) - 1)%Z.

(** function next(v) (lines 217-222) *)
Definition next (v : JsVal) : Result JsVal :=
  let index := indexOf supported v in
  rbind (assertTrue (negb (index =? -1)%Z) None) (fun _ =>
  rbind (assertTrue (index <? Z.of_nat (List.length supported))%Z None) (fun _ =>
  Ok (arrayGet supported (index + 1)%Z))).

(** One iteration of the loop of lines 161-174. *)
Definition rangeBody (env : Env) (dir : string) (expOnly : bool)
    (minVersion : JsVal) (lows his : list JsVal) (i : nat) : M unit :=
  let low := maxVersion minVersion (nth i lows JUndefined) in
  let hi := nth i his JUndefined in
  (lift (assertTrue (jsGe (parseFloat hi) (parseFloat low))
                    (Some (skipMessage minVersion hi))) ;;
   let isLatest := strictEq hi latest in
   let versionPath :=
     if isLatest then dir else joinPaths dir ("ts" +++ toStr hi) in
   (if (1 <? List.length lows)%nat then
      emit (ConsoleLog [JStr "testing from"; low; JStr "to"; hi; JStr "in";
                        JStr versionPath])
    else ret tt) ;;
   testTypesVersion env versionPath low hi expOnly JUndefined isLatest)%js.

(** Lines 149-175 of [runTests]. *)
Definition testPhase (env : Env) (a : Args) : M unit :=
  let minVersion :=
    maxVersion (minimumTypeScriptVersion (packageJson a)) lowest in
  if (onlyTestTsNext a || truthy (tsLocal a))%bool then
    let tsVersion := if truthy (tsLocal a) then JStr "local" else latest in
    testTypesVersion env (dirPath a) tsVersion tsVersion (expectOnly a)
                     (tsLocal a) true
  else
    (lows' <- lift (mapResult next (typesVersions a)) ;;
     let lows := lowest :: lows' in
     let his := typesVersions a ++ [latest] in
     lift (assertTrue (List.length lows =? List.length his)%nat None) ;;
     forFrom (List.length lows) 0
             (rangeBody env (dirPath a) (expectOnly a) minVersion lows his))%js.

(** Lines 177-209 of [runTests]. *)
Definition attwPhase (env : Env) (a : Args) : M JsVal :=
  if negb (truthy (nonNpm (packageJson a))) then
    let attwJson := joinPaths (dtRoot a) "attw.json" in
    let failingPackages := readFailingPackages env attwJson in
    let dirName :=
      sliceFrom (String.length (dtRoot a) + String.length "/types/")
                (dirPath a) in
    let expectError :=
      match failingPackages with
      | Some l => JBool (arrayIncludes l dirName)
      | None => JUndefined
      end in
    (emit (RunAttw (dirPath a) attwJson) ;;
     let (output, status) := runAreTheTypesWrong env (dirPath a) attwJson in
     lift (reconcile expectError dirName output status))%js
  else ret JUndefined.

(** async function runTests (lines 130-210), from line 149 on. *)
Definition runTests (env : Env) (a : Args) : M JsVal :=
  (testPhase env a ;; attwPhase env a)%js.

End Planner.

(** ** The plan of a run

    [runTests] has no planning function of its own: the ranges are formed in
    the loop that checks them.  The plan of a package is what that loop
    dispatches when no check fails. *)

Definition quietEnv : Env :=
  mkEnv (fun _ => Ok tt) (fun _ => []) (fun _ _ _ _ _ _ => JUndefined)
        (fun _ => None) (fun _ _ => (EmptyString, "pass")).

Definition planArgs (dir : string) (minimum : JsVal) (cutoffs : list JsVal)
    : Args :=
  mkArgs dir EmptyString false false JUndefined cutoffs
         (mkPackageJson minimum JUndefined).

Fixpoint testCalls (tr : Trace) : list TestCall :=
  match tr with
  | [] => []
  | TestTypesVersion c :: r => c :: testCalls r
  | _ :: r => testCalls r
  end.

Definition planRanges (supported : list JsVal) (dir : string)
    (minimum : JsVal) (cutoffs : list JsVal) : list TestCall * Result unit :=
  let (tr, r) := testPhase supported quietEnv (planArgs dir minimum cutoffs) []
  in (testCalls tr, r).

Definition versions (l : list string) : list JsVal := map JStr l.

Definition sup30_50 : list JsVal :=
  versions ["3.0"; "3.1"; "3.2"; "3.3"; "3.4"; "3.5"; "3.6"; "3.7"; "3.8";
            "3.9"; "4.0"; "4.1"; "4.2"; "4.3"; "4.4"; "4.5"; "4.6"; "4.7";
            "4.8"; "4.9"; "5.0"].

(** ** The notions the properties are stated with *)

(** The entry immediately after the first occurrence of [v] in [l], or
    undefined when there is none. *)
Fixpoint successor (l : list JsVal) (v : JsVal) : JsVal :=
  match l with
  | [] => JUndefined
  | x :: r => if strictEq x v then hd JUndefined r else successor r v
  end.

(** Each entry is numerically greater than the one before it. *)
Fixpoint strictlyIncreasing (l : list JsVal) : bool :=
  match l with
  | a :: (b :: _) as r =>
      jsGt (parseFloat b) (parseFloat a) && strictlyIncreasing r
  | _ => true
  end.

(** [runTests] runs the range loop when neither [onlyTestTsNext] nor
    [tsLocal] is given. *)
Definition rangeMode (a : Args) : Prop :=
  onlyTestTsNext a = false /\ truthy (tsLocal a) = false.

(** The effective minimum as the code computes it: the value of
    [minVersion] on line 149. *)
Definition effectiveMinimum (supported : list JsVal) (minimum : JsVal)
    : JsVal :=
  maxVersion minimum (lowest supported).

(** *** The effective minimum of the specification

    Written from the words of the specification (sections 3 and 4.1 and the
    glossary), not from [maxVersion]: the declared minimum is either unset,
    which stands for the lowest supported version, or a version; the
    effective minimum is the numerically larger of the declared minimum and
    the lowest supported version. *)

(** The numerically larger of two versions (the first one when they denote
    the same number). *)
Definition largerVersion (a b : JsVal) : JsVal :=
  if jsGt (parseFloat b) (parseFloat a) then b else a.

Definition declaredMinimum (supported : list JsVal) (minimum : JsVal)
    : JsVal :=
  match minimum with
  | JUndefined => lowest supported
  | _ => minimum
  end.

Definition specEffectiveMinimum (supported : list JsVal) (minimum : JsVal)
    : JsVal :=
  largerVersion (declaredMinimum supported minimum) (lowest supported).

(** A declared minimum as the package metadata can hold it: unset, or one of
    the supported versions, or an older version, numerically below the
    lowest supported one.  This is the note of line 213: a minimum that is
    not below the lowest supported version is a current version. *)
Definition knownMinimum (supported : list JsVal) (minimum : JsVal) : Prop :=
  minimum = JUndefined \/
  In minimum supported \/
  jsGt (parseFloat (lowest supported)) (parseFloat minimum) = true.

(** One range from the effective minimum of the specification to the latest
    version, checked in the package root as the latest range. *)
Definition planIsSingleRange (supported : list JsVal) (dir : string)
    (minimum : JsVal) : Prop :=
  planRanges supported dir minimum []
  = ([mkTestCall dir (specEffectiveMinimum supported minimum)
                 (latest supported) false JUndefined true],
     Ok tt).

(** What a dispatched check answers: the result of [testTypesVersion] on
    the arguments recorded in the call. *)
Definition checkOutcome (env : Env) (c : TestCall) : Result unit :=
  match checkTslintJson env (tcDir c) with
  | Throw e => Throw e
  | Ok _ =>
      if (0 <? List.length (checkTsconfig env (tcDir c)))%nat then
        Throw (JsError (nl +++ tab +++ "* "
                        +++ joinWith (nl +++ tab +++ "* ")
                                     (checkTsconfig env (tcDir c))))
      else
        let err := lint env (tcDir c) (tcLow c) (tcHi c) (tcIsLatest c)
                        (tcExpectOnly c) (tcTsLocal c) in
        if truthy err then Throw (JsError (toStr err)) else Ok tt
  end.

Section Loop.

Variable supported : list JsVal.
Variables (dir : string) (expOnly : bool) (minVersion : JsVal).
Variables (lows his : list JsVal).

(** The pieces of one iteration of the loop, as functions of its index. *)
Definition rangeLow (i : nat) : JsVal :=
  maxVersion minVersion (nth i lows JUndefined).

Definition rangeHi (i : nat) : JsVal := nth i his JUndefined.

Definition rangeOk (i : nat) : bool :=
  jsGe (parseFloat (rangeHi i)) (parseFloat (rangeLow i)).

Definition rangePath (i : nat) : string :=
  if strictEq (rangeHi i) (latest supported) then dir
  else joinPaths dir ("ts" +++ toStr (rangeHi i)).

Definition rangeAt (i : nat) : TestCall :=
  mkTestCall (rangePath i) (rangeLow i) (rangeHi i) expOnly JUndefined
             (strictEq (rangeHi i) (latest supported)).

Definition rangeEvents (i : nat) : list Event :=
  (if (1 <? List.length lows)%nat then
     [ConsoleLog [JStr "testing from"; rangeLow i; JStr "to"; rangeHi i;
                  JStr "in"; JStr (rangePath i)]]
   else []) ++ [TestTypesVersion (rangeAt i)].

End Loop.

(** The two arrays of lines 158-159, every cutoff having been found in the
    supported list. *)
Definition planLows (supported cutoffs : list JsVal) : list JsVal :=
  lowest supported :: map (successor supported) cutoffs.

Definition planHis (supported cutoffs : list JsVal) : list JsVal :=
  cutoffs ++ [latest supported].

(** [sub] occurs in [s]. *)
Definition contains (sub s : string) : Prop :=
  exists pre post, s = pre +++ sub +++ post.

(** The three outcomes of the compatibility checker. *)
Inductive CheckOutcome : Type := pass | fail | error.

Definition statusOf (o : CheckOutcome) : string :=
  match o with
  | pass => "pass"
  | fail => "fail"
  | error => "error"
  end.

(** A status the checker is not known to return. *)
Definition unknownStatus (status : string) : Prop :=
  status <> "pass" /\ status <> "fail" /\ status <> "error".

(** The ranges the loop of lines 161-174 forms, in closed form, when no
    cutoff is the latest version: the low of each range is clamped with
    [maxVersion], as on line 162. *)
Fixpoint loopRanges (supported : list JsVal) (dir : string)
    (effMin low : JsVal) (cutoffs : list JsVal) : list TestCall :=
  match cutoffs with
  | [] => [mkTestCall dir low (latest supported) false JUndefined true]
  | c :: rest =>
      mkTestCall (joinPaths dir ("ts" +++ toStr c)) low c false JUndefined
                 false
      :: loopRanges supported dir effMin
                    (maxVersion effMin (successor supported c)) rest
  end.

(** The ranges of section 4.1 of the specification, written from its words:
    the range of a cutoff starts at [low], ends at the cutoff and lives in
    the directory named for it; the next range starts at the numerically
    larger of the effective minimum and the version following the cutoff;
    the final range ends at the latest version, in the package root, and is
    the latest. *)
Fixpoint specRanges (supported : list JsVal) (dir : string)
    (effMin low : JsVal) (cutoffs : list JsVal) : list TestCall :=
  match cutoffs with
  | [] => [mkTestCall dir low (latest supported) false JUndefined true]
  | c :: rest =>
      mkTestCall (joinPaths dir ("ts" +++ toStr c)) low c false JUndefined
                 false
      :: specRanges supported dir effMin
                    (largerVersion effMin (successor supported c)) rest
  end.

(** The lows of section 4.1 of the specification: the effective minimum,
    then for each cutoff the numerically larger of the effective minimum
    and the version following the cutoff. *)
Definition specLows (supported : list JsVal) (minimum : JsVal)
    (cutoffs : list JsVal) : list JsVal :=
  specEffectiveMinimum supported minimum
  :: map (fun c => largerVersion (specEffectiveMinimum supported minimum)
                                 (successor supported c)) cutoffs.

(** The plan is that of section 4.1 of the specification. *)
Definition planFollowsSpec (supported : list JsVal) (dir : string)
    (minimum : JsVal) (cutoffs : list JsVal) : Prop :=
  planRanges supported dir minimum cutoffs
  = (specRanges supported dir (specEffectiveMinimum supported minimum)
                (specEffectiveMinimum supported minimum) cutoffs,
     Ok tt).

(** The plan fails with an assertion error whose message names the
    directory [ts<cutoff>] of one of the cutoffs. *)
Definition planFailsNamingCutoff (supported : list JsVal) (dir : string)
    (minimum : JsVal) (cutoffs : list JsVal) : Prop :=
  exists hi msg,
    In hi cutoffs /\
    snd (planRanges supported dir minimum cutoffs)
    = Throw (AssertionError (Some msg)) /\
    contains ("ts" +++ toStr hi) msg.

(** An error that is not the answer of a dispatched check comes before any
    check: when the run ends on an error and every check dispatched has
    succeeded, no check has been dispatched. *)
Definition noCheckBeforeConfigurationError (supported : list JsVal)
    (env : Env) (a : Args) : Prop :=
  forall e,
    snd (testPhase supported env a []) = Throw e ->
    Forall (fun c => checkOutcome env c = Ok tt)
           (testCalls (fst (testPhase supported env a []))) ->
    testCalls (fst (testPhase supported env a [])) = [].

Fixpoint attwCalls (tr : Trace) : list (string * string) :=
  match tr with
  | [] => []
  | RunAttw d c :: r => (d, c) :: attwCalls r
  | _ :: r => attwCalls r
  end.

(** An environment whose checks succeed, with the given allow-list and the
    given answer of the compatibility checker. *)
Definition attwEnv (failingPackages : option (list string))
    (output status : string) : Env :=
  mkEnv (fun _ => Ok tt) (fun _ => []) (fun _ _ _ _ _ _ => JUndefined)
        (fun _ => failingPackages) (fun _ _ => (output, status)).

Definition fooArgs (flag : JsVal) : Args :=
  mkArgs "/dt/types/foo" "/dt" false false JUndefined []
         (mkPackageJson JUndefined flag).

Ltac munfold :=
  unfold bind, lift, emit, ret, throw, assertTrue in *.

(** * The rest of index.ts *)

(** ** Paths

    [path.basename] and [path.dirname] of Node's posix flavour, on the
    characters of the path.  Both scan the path from its end: trailing
    slashes are skipped, then the last run of characters other than [/] is
    the base name; the directory name ends before the slash in front of
    that run, a slash at index 0 not being looked at. *)

Definition isSlash (c : ascii) : bool := Ascii.eqb c "/".

Definition notSlash (c : ascii) : bool := negb (isSlash c).

Fixpoint dropWhile {A} (p : A -> bool) (l : list A) : list A :=
  match l with
  | [] => []
  | x :: r => if p x then dropWhile p r else l
  end.

Fixpoint takeWhile {A} (p : A -> bool) (l : list A) : list A :=
  match l with
  | [] => []
  | x :: r => if p x then x :: takeWhile p r else []
  end.

Definition basenameChars (l : list ascii) : list ascii :=
  rev (takeWhile notSlash (dropWhile isSlash (rev l))).

Definition dirnameChars (l : list ascii) : list ascii :=
  match l with
  | [] => ["."%char]
  | c0 :: tl =>
      match dropWhile notSlash (dropWhile isSlash (rev tl)) with
      | [] => if isSlash c0 then ["/"%char] else ["."%char]
      | _ :: before =>
          if (isSlash c0 && (List.length before =? 0)%nat)%bool
          then ["/"%char; "/"%char]
          else c0 :: rev before
      end
  end.

Definition basename (p : string) : string :=
  string_of_list_ascii (basenameChars (list_ascii_of_string p)).

Definition dirname (p : string) : string :=
  string_of_list_ascii (dirnameChars (list_ascii_of_string p)).

(** The condition of the loop of [findDTRoot] (line 245). *)
Definition findDTRootGoesUp (path : string) : bool :=
  (negb (String.eqb (basename path) "types")
   && negb (String.eqb (dirname path) ".")
   && negb (String.eqb (dirname path) "/"))%bool.

(** The loop of [findDTRoot], at most [fuel] times around; [None] when the
    fuel runs out before the loop exits. *)
Fixpoint findDTRootLoop (fuel : nat) (path : string) : option string :=
  if findDTRootGoesUp path then
    match fuel with
    | O => None
    | S fuel' => findDTRootLoop fuel' (dirname path)
    end
  else Some (dirname path).

(** function findDTRoot(dirPath) (lines 243-249); the loop exits within
    [String.length dirPath] rounds, as is proved below, so the last branch
    is never taken. *)
Definition findDTRoot (p : string) : string :=
  match findDTRootLoop (String.length p) p with
  | Some root => root
  | None => dirname p
  end.

(** A path segment: not empty, without a slash. *)
Definition isSegment (s : string) : Prop :=
  s <> EmptyString /\ forallb notSlash (list_ascii_of_string s) = true.

(** ** Banned names *)

(** A character that [\W] does not match. *)
Definition isWordChar (c : ascii) : bool :=
  let n := nat_of_ascii c in
  (((48 <=? n) && (n <=? 57)) || ((65 <=? n) && (n <=? 90))
   || ((97 <=? n) && (n <=? 122)) || (n =? 95))%nat.

(** [($|\W)] matches at the head of [s]. *)
Definition boundaryAfter (s : string) : bool :=
  match s with
  | EmptyString => true
  | String c _ => negb (isWordChar c)
  end.

(** [/(^|\W)download($|\W)/.test] on the rest [s] of a name; [boundary]
    tells whether [(^|\W)] can match just before [s]. *)
Fixpoint testDownloadFrom (boundary : bool) (s : string) : bool :=
  match s with
  | EmptyString => false
  | String c r =>
      (boundary && String.prefix "download" s
       && boundaryAfter (substring 8 (String.length s - 8) s))
      || testDownloadFrom (negb (isWordChar c)) r
  end.

Definition testDownload (s : string) : bool := testDownloadFrom true s.

(** function assertPathIsNotBanned(packageName) (lines 274-284) *)
Definition assertPathIsNotBanned (packageName : string) : Result unit :=
  if (testDownload packageName
      && negb (String.eqb packageName "download")
      && negb (String.eqb packageName "downloadjs")
      && negb (String.eqb packageName "s3-download-stream"))%bool
  then Throw (JsError (packageName
                       +++ ": Contains the word 'download', which is banned by npm."))
  else Ok tt.

(** The word "download" occurs in [s] with no word character right before
    it and none right after it. *)
Definition hasWordDownload (s : string) : Prop :=
  exists pre post,
    s = pre +++ "download" +++ post /\
    boundaryAfter (string_of_list_ascii (rev (list_ascii_of_string pre)))
    = true /\
    boundaryAfter post = true.

(** What [(^|\W)] asks of the text [pre] before the word: it is empty and
    the search may start here, or it ends in a character that is not a word
    character. *)
Definition boundaryBefore (start : bool) (pre : string) : Prop :=
  match rev (list_ascii_of_string pre) with
  | [] => start = true
  | c :: _ => isWordChar c = false
  end.

(** ** The command line *)

(** [s.indexOf(pat)], counted from [i] at the head of [s]. *)
Fixpoint indexOfStr (pat s : string) (i : Z) : Z :=
  if String.prefix pat s then i
  else match s with
       | EmptyString => (-1)%Z
       | String _ r => indexOfStr pat r (i + 1)%Z
       end.

(** [s.replace(pat, rep)] for a string pattern: the first occurrence. *)
Fixpoint replaceFirst (pat rep s : string) : string :=
  if String.prefix pat s then
    rep +++ substring (String.length pat)
                      (String.length s - String.length pat) s
  else match s with
       | EmptyString => EmptyString
       | String c r => String c (replaceFirst pat rep r)
       end.

(** The [path] of the default case of [main] (lines 65-70): a scoped
    module name is turned into its directory name. *)
Definition argPath (arg : string) : string :=
  if ((indexOfStr "@" arg 0 =? 0)%Z
      && negb (indexOfStr "/" arg 0 =? -1)%Z)%bool
  then replaceFirst "/" "__" (sliceFrom 1 arg)
  else arg.

(** The operations of @definitelytyped/utils that install compilers. *)
Inductive InstallOp : Type :=
| cleanTypeScriptInstalls
| installAllTypeScriptVersions
| installTypeScriptNext.

(** What [main] does that can be seen from outside, in order. *)
Inductive MainEvent : Type :=
| StdOut (line : string)
| StdErr (line : string)
| Install (op : InstallOp)
| OnMessage (dir : string) (local : JsVal)
| RunTests (dir : string) (onlyNext expOnly : bool) (local : JsVal).

(** How [main] ends: it returns, the process exits, or it rejects. *)
Inductive MainEnd : Type :=
| Returned
| Exited (code : Z)
| Rejected (e : Error).

(** The variables of [main] (lines 16-21). *)
Record Cli : Type := mkCli {
  cliDirPath : string;
  cliOnlyTestTsNext : bool;
  cliExpectOnly : bool;
  cliShouldListen : bool;
  cliLookingForTsLocal : bool;
  cliTsLocal : JsVal
}.

(** The loop over the arguments goes on with new variables, or [main] ends
    there. *)
Inductive Flow : Type :=
| Go (st : Cli)
| Halt (how : MainEnd).

(** function usage() (lines 98-108) *)
Definition usage : list MainEvent :=
  [StdErr "Usage: dtslint [--version] [--installAll] [--onlyTestTsNext] [--expectOnly] [--localTs path]";
   StdErr "Args:";
   StdErr "  --version        Print version and exit.";
   StdErr "  --installAll     Cleans and installs all TypeScript versions.";
   StdErr "  --expectOnly     Run only the ExpectType lint rule.";
   StdErr "  --onlyTestTsNext Only run with `typescript@next`, not with the minimum version.";
   StdErr "  --localTs path   Run with *path* as the latest version of TS.";
   StdErr EmptyString;
   StdErr "onlyTestTsNext and localTs are (1) mutually exclusive and (2) test a single version of TS"].

Section Cli.

(** The collaborators of [main]: [path.resolve] and [path.join], the two
    version strings read from the package.json files, the outcome of each
    installing operation, and [runTests] as a function of its arguments. *)
Variable resolve : string -> string.
Variable pathJoin : string -> string -> string.
Variables (dtslintVersion rootVersion : string).
Variable install : InstallOp -> Result unit.
Variable run : string -> bool -> bool -> JsVal -> Result JsVal.

(** async function installTypeScriptAsNeeded (lines 90-96) *)
Definition installTypeScriptAsNeeded (local : JsVal) (onlyNext : bool)
    : list MainEvent * Result unit :=
  if truthy local then ([], Ok tt)
  else if onlyNext then
    ([Install installTypeScriptNext], install installTypeScriptNext)
  else
    ([Install installAllTypeScriptVersions],
     install installAllTypeScriptVersions).

(** function listen (lines 110-128), up to the registration of the message
    handler: the installation is started and not awaited. *)
Definition listen (dir : string) (local : JsVal) (alwaysOnlyNext : bool)
    : list MainEvent :=
  fst (installTypeScriptAsNeeded local alwaysOnlyNext) ++ [OnMessage dir local].

(** One round of the loop of [main] (lines 25-74). *)
Definition mainArg (st : Cli) (arg : string) : list MainEvent * Flow :=
  if cliLookingForTsLocal st then
    if String.prefix "--" arg then
      ([], Halt (Rejected (JsError ("Looking for local path for TS, but got "
                                    +++ arg))))
    else
      ([], Go (mkCli (cliDirPath st) (cliOnlyTestTsNext st) (cliExpectOnly st)
                     (cliShouldListen st) false (JStr (resolve arg))))
  else if String.eqb arg "--installAll" then
    match install cleanTypeScriptInstalls with
    | Throw e =>
        ([StdOut "Cleaning old installs and installing for all TypeScript versions...";
          StdOut "Working..."; Install cleanTypeScriptInstalls],
         Halt (Rejected e))
    | Ok _ =>
        ([StdOut "Cleaning old installs and installing for all TypeScript versions...";
          StdOut "Working..."; Install cleanTypeScriptInstalls;
          Install installAllTypeScriptVersions],
         Halt match install installAllTypeScriptVersions with
              | Throw e => Rejected e
              | Ok _ => Returned
              end)
    end
  else if String.eqb arg "--localTs" then
    ([], Go (mkCli (cliDirPath st) (cliOnlyTestTsNext st) (cliExpectOnly st)
                   (cliShouldListen st) true (cliTsLocal st)))
  else if String.eqb arg "--version" then
    ([StdOut rootVersion], Halt Returned)
  else if String.eqb arg "--expectOnly" then
    ([], Go (mkCli (cliDirPath st) (cliOnlyTestTsNext st) true
                   (cliShouldListen st) (cliLookingForTsLocal st)
                   (cliTsLocal st)))
  else if String.eqb arg "--onlyTestTsNext" then
    ([], Go (mkCli (cliDirPath st) true (cliExpectOnly st)
                   (cliShouldListen st) (cliLookingForTsLocal st)
                   (cliTsLocal st)))
  else if String.eqb arg "--listen" then
    ([], Go (mkCli (cliDirPath st) (cliOnlyTestTsNext st) (cliExpectOnly st)
                   true (cliLookingForTsLocal st) (cliTsLocal st)))
  else if String.prefix "--" arg then
    (StdErr ("Unknown option '" +++ arg +++ "'") :: usage, Halt (Exited 1))
  else
    ([], Go (mkCli (pathJoin (cliDirPath st) (argPath arg))
                   (cliOnlyTestTsNext st) (cliExpectOnly st)
                   (cliShouldListen st) (cliLookingForTsLocal st)
                   (cliTsLocal st))).

Fixpoint mainLoop (st : Cli) (args : list string) : list MainEvent * Flow :=
  match args with
  | [] => ([], Go st)
  | arg :: rest =>
      match mainArg st arg with
      | (ev, Go st') =>
          let (ev', f) := mainLoop st' rest in (ev ++ ev', f)
      | (ev, Halt how) => (ev, Halt how)
      end
  end.

(** async function main (lines 14-88); [cwd] is [process.cwd()] and [args]
    is [process.argv.slice(2)]. *)
Definition main (cwd : string) (args : list string)
    : list MainEvent * MainEnd :=
  let banner := StdOut ("dtslint@" +++ dtslintVersion) in
  match mainLoop (mkCli cwd false false false false JUndefined) args with
  | (ev, Halt how) => (banner :: ev, how)
  | (ev, Go st) =>
      if cliLookingForTsLocal st then
        (banner :: ev,
         Rejected (JsError "Path for --localTs was not provided."))
      else if cliShouldListen st then
        (banner :: ev ++ listen (cliDirPath st) (cliTsLocal st)
                                (cliOnlyTestTsNext st),
         Returned)
      else
        match installTypeScriptAsNeeded (cliTsLocal st)
                                        (cliOnlyTestTsNext st) with
        | (iev, Throw e) => (banner :: ev ++ iev, Rejected e)
        | (iev, Ok _) =>
            let call := RunTests (cliDirPath st) (cliOnlyTestTsNext st)
                                 (cliExpectOnly st) (cliTsLocal st) in
            match run (cliDirPath st) (cliOnlyTestTsNext st)
                      (cliExpectOnly st) (cliTsLocal st) with
            | Throw e => (banner :: ev ++ iev ++ [call], Rejected e)
            | Ok output =>
                (banner :: ev ++ iev ++ [call]
                 ++ (if truthy output then [StdOut (toStr output)] else []),
                 Returned)
            end
        end
  end.

End Cli.

(** An installing operation appears among the events. *)
Definition isInstall (ev : MainEvent) : bool :=
  match ev with
  | Install _ => true
  | _ => false
  end.

(** A test run or a message handler appears among the events. *)
Definition isWork (ev : MainEvent) : bool :=
  match ev with
  | RunTests _ _ _ _ | OnMessage _ _ => true
  | _ => false
  end.

(** The options [main] knows. *)
Definition knownOptions : list string :=
  ["--installAll"; "--localTs"; "--version"; "--expectOnly";
   "--onlyTestTsNext"; "--listen"].

(** An argument that leaves the loop of [main] going and waits for
    nothing: a path, or one of the three flags. *)
Definition plainArg (a : string) : bool :=
  (negb (String.prefix "--" a) || String.eqb a "--expectOnly"
   || String.eqb a "--onlyTestTsNext" || String.eqb a "--listen")%bool.

(** Collaborators of [main] to run it on: [path.resolve] on a clean path,
    installations that succeed, test runs that return nothing. *)
Definition resolveIn (cwd s : string) : string :=
  if String.prefix "/" s then s else joinPaths cwd s.

Definition installsFine (op : InstallOp) : Result unit := Ok tt.

Definition runsFine (dir : string) (onlyNext expOnly : bool) (local : JsVal)
    : Result JsVal := Ok JUndefined.

(** The variables say that [--localTs] was seen: its path is awaited or
    has been stored. *)
Definition sawLocalTs (st : Cli) : Prop :=
  cliLookingForTsLocal st = true \/ truthy (cliTsLocal st) = true.

(** ** The start of [runTests] (lines 136-147) *)

(** The collaborators of the first lines of [runTests]:
    [packageNameFromPath]; whether [existsSync(joinPaths(dtRoot, "types"))]
    holds, as a function of [dtRoot]; the keys of
    [JSON.parse(notNeededPackages).packages] for the file read below
    [dtRoot], or the error of reading or parsing it; [getTypesVersions];
    and [checkPackageJson], which returns an array of errors or the
    package.json it read. *)
Record Repo : Type := mkRepo {
  packageNameFromPath : string -> string;
  typesDirExists : string -> bool;
  notNeededPackages : string -> Result (list string);
  getTypesVersions : string -> Result (list JsVal);
  checkPackageJson : string -> list JsVal -> list string + PackageJson
}.

(** function assertPathIsInDefinitelyTyped (lines 251-263) *)
Definition assertPathIsInDefinitelyTyped (repo : Repo) (dir root : string)
    : Result unit :=
  if negb (typesDirExists repo root) then
    Throw (JsError
      ("Since this type definition includes a header (a comment starting with `// Type definitions for`), "
       +++ "assumed this was a DefinitelyTyped package." +++ nl
       +++ "But it is not in a `DefinitelyTyped/types/xxx` directory: "
       +++ dir))
  else Ok tt.

(** function assertPackageIsNotDeprecated (lines 286-293); [unneeded] is
    [Object.keys(JSON.parse(notNeededPackages).packages)]. *)
Definition assertPackageIsNotDeprecated (packageName : string)
    (unneeded : list string) : Result unit :=
  if arrayIncludes unneeded packageName then
    Throw (JsError
      (packageName +++ ": notNeededPackages.json has an entry for "
       +++ packageName +++ "." +++ nl
       +++ "That means " +++ packageName
       +++ " ships its own types, and @types/" +++ packageName
       +++ " was deprecated and removed from Definitely Typed." +++ nl
       +++ "If you want to re-add @types/" +++ packageName
       +++ ", please remove its entry from notNeededPackages.json."))
  else Ok tt.

(** async function runTests (lines 130-210), whole: lines 136-147 and then
    [runTests] above on the values they computed. *)
Definition runTestsFromStart (supported : list JsVal) (repo : Repo)
    (env : Env) (dir : string) (onlyNext expOnly : bool) (local : JsVal)
    : M JsVal :=
  let root := findDTRoot dir in
  let packageName := packageNameFromPath repo dir in
  (lift (assertPathIsInDefinitelyTyped repo dir root) ;;
   lift (assertPathIsNotBanned packageName) ;;
   unneeded <- lift (notNeededPackages repo root) ;;
   lift (assertPackageIsNotDeprecated packageName unneeded) ;;
   versionDirs <- lift (getTypesVersions repo dir) ;;
   match checkPackageJson repo dir versionDirs with
   | inl errors =>
       throw (JsError (nl +++ tab +++ "* "
                       +++ joinWith (nl +++ tab +++ "* ") errors))
   | inr pkg =>
       runTests supported env
                (mkArgs dir root onlyNext expOnly local versionDirs pkg)
   end)%js.

(** ** More notions *)

(** Each range starts numerically above the end of the range before it. *)
Fixpoint noOverlap (l : list TestCall) : bool :=
  match l with
  | r1 :: (r2 :: _) as rest =>
      jsGt (parseFloat (tcLow r2)) (parseFloat (tcHi r1)) && noOverlap rest
  | _ => true
  end.

(** The one version [runTests] checks when [onlyTestTsNext] or [tsLocal]
    is given (line 151). *)
Definition singleVersion (supported : list JsVal) (a : Args) : JsVal :=
  if truthy (tsLocal a) then JStr "local" else latest supported.

(** A repository in which every package is accepted, to run [runTests]
    in. *)
Definition acceptingRepo : Repo :=
  mkRepo basename (fun _ => true) (fun _ => Ok []) (fun _ => Ok [])
         (fun _ _ => inr (mkPackageJson JUndefined JUndefined)).

(** * Properties *)

Example parseFloat_32 : parseFloat "3.2" = Fin (32 # 10).
Proof. vm_compute. reflexivity. Qed.

Example parseFloat_undefined : parseFloat JUndefined = NaN.
Proof. reflexivity. Qed.

(** Versions are compared as numbers, not as major-minor pairs. *)
Example two_digit_minor_is_smaller :
  jsGt (parseFloat "3.2") (parseFloat "3.10") = true.
Proof. reflexivity. Qed.

(** ** Order facts about [jsGe] and [jsGt] *)

Lemma jsGe_refl (a : JsNum) : a <> NaN -> jsGe a a = true.
Proof.
  destruct a; simpl; try congruence; intros _.
  apply Qle_bool_iff. apply Qle_refl.
Qed.

Lemma jsGe_trans (a b c : JsNum) :
  jsGe a b = true -> jsGe b c = true -> jsGe a c = true.
Proof.
  destruct a, b, c; simpl; try congruence.
  rewrite !Qle_bool_iff. intros H1 H2. eapply Qle_trans; eauto.
Qed.

Lemma jsGe_total (a b : JsNum) :
  a <> NaN -> b <> NaN -> jsGe a b = false -> jsGt b a = true.
Proof.
  unfold jsGt. destruct a, b; simpl; try congruence.
  intros _ _ H. rewrite H. simpl. rewrite andb_true_r.
  apply Qle_bool_iff. apply Qlt_le_weak. apply Qnot_le_lt.
  intros Hle. apply Qle_bool_iff in Hle. congruence.
Qed.

Lemma jsGe_not_NaN_l (a b : JsNum) : jsGe a b = true -> a <> NaN.
Proof. destruct a; simpl; congruence. Qed.

Lemma jsGe_not_NaN_r (a b : JsNum) : jsGe a b = true -> b <> NaN.
Proof. destruct a, b; simpl; congruence. Qed.

Lemma jsGt_jsGe (a b : JsNum) : jsGt a b = true -> jsGe a b = true.
Proof. unfold jsGt. intros H. apply andb_prop in H. tauto. Qed.

Lemma jsGt_not_jsGe (a b : JsNum) : jsGt a b = true -> jsGe b a = false.
Proof.
  unfold jsGt. intros H. apply andb_prop in H. destruct H as [_ H].
  now apply negb_true_iff in H.
Qed.

Lemma jsGt_irrefl (a : JsNum) : jsGt a a = false.
Proof. unfold jsGt. destruct (jsGe a a); reflexivity. Qed.

Lemma jsGt_trans (a b c : JsNum) :
  jsGt a b = true -> jsGt b c = true -> jsGt a c = true.
Proof.
  intros H1 H2.
  pose proof (jsGt_jsGe _ _ H1) as G1. pose proof (jsGt_jsGe _ _ H2) as G2.
  unfold jsGt. rewrite (jsGe_trans _ _ _ G1 G2). simpl.
  apply negb_true_iff. destruct (jsGe c a) eqn:E; [|reflexivity].
  pose proof (jsGe_trans _ _ _ E G1) as G3.
  rewrite (jsGt_not_jsGe _ _ H2) in G3. discriminate.
Qed.

Lemma jsGt_jsGe_trans (a b c : JsNum) :
  jsGt a b = true -> jsGe b c = true -> jsGt a c = true.
Proof.
  intros H1 H2. pose proof (jsGt_jsGe _ _ H1) as G1.
  unfold jsGt. rewrite (jsGe_trans _ _ _ G1 H2). simpl.
  apply negb_true_iff. destruct (jsGe c a) eqn:E; [|reflexivity].
  pose proof (jsGe_trans _ _ _ H2 E) as G3.
  rewrite (jsGt_not_jsGe _ _ H1) in G3. discriminate.
Qed.

Lemma strictEq_true (a b : JsVal) : strictEq a b = true <-> a = b.
Proof. unfold strictEq. destruct (JsVal_eq_dec a b); split; congruence. Qed.

Lemma strictEq_false (a b : JsVal) : strictEq a b = false <-> a <> b.
Proof. unfold strictEq. destruct (JsVal_eq_dec a b); split; congruence. Qed.

Lemma strictEq_refl (a : JsVal) : strictEq a a = true.
Proof. now apply strictEq_true. Qed.

(** ** [maxVersion] *)

Lemma maxVersion_cases (v1 v2 : JsVal) :
  (jsGe (parseFloat v1) (parseFloat v2) = true /\ maxVersion v1 v2 = v1) \/
  (jsGe (parseFloat v1) (parseFloat v2) = false /\ maxVersion v1 v2 = v2).
Proof.
  unfold maxVersion. destruct (jsGe (parseFloat v1) (parseFloat v2)); auto.
Qed.

(** The first range starts at the effective minimum: taking the maximum
    with the lowest version a second time changes nothing. *)
Lemma maxVersion_idem (m lo : JsVal) :
  maxVersion (maxVersion m lo) lo = maxVersion m lo.
Proof.
  destruct (maxVersion_cases m lo) as [[H E] | [H E]]; rewrite E.
  - exact E.
  - unfold maxVersion. destruct (jsGe (parseFloat lo) (parseFloat lo)); reflexivity.
Qed.

(** C6. The effective minimum [maxVersion(minimum, lowest)] is numerically
    greater than or equal to the lowest supported version, whatever the
    declared minimum is (a version below the lowest one, an unset value, or
    any other value), the lowest supported version being a number. *)
Theorem effective_minimum_ge_lowest (supported : list JsVal) (minimum : JsVal) :
  parseFloat (lowest supported) <> NaN ->
  jsGe (parseFloat (maxVersion minimum (lowest supported)))
       (parseFloat (lowest supported)) = true.
Proof.
  intros Hnum.
  destruct (maxVersion_cases minimum (lowest supported)) as [[H E] | [H E]];
    rewrite E.
  - exact H.
  - now apply jsGe_refl.
Qed.

Lemma effective_minimum_ge_lowest_witness :
  parseFloat (lowest sup30_50) <> NaN /\
  maxVersion (JStr "2.0") (lowest sup30_50) = JStr "3.0" /\
  maxVersion JUndefined (lowest sup30_50) = JStr "3.0" /\
  jsGe (parseFloat (maxVersion (JStr "2.0") (lowest sup30_50)))
       (parseFloat (lowest sup30_50)) = true.
Proof.
  split; [vm_compute; discriminate|].
  split; [reflexivity|]. split; [reflexivity|].
  apply (effective_minimum_ge_lowest sup30_50 (JStr "2.0")).
  vm_compute; discriminate.
Defined.

(** ** [next] *)

Lemma indexOfFrom_absent (l : list JsVal) (v : JsVal) (i : Z) :
  ~ In v l -> indexOfFrom l v i = (-1)%Z.
Proof.
  revert i. induction l as [|x r IH]; intros i Hn; simpl; [reflexivity|].
  destruct (strictEq x v) eqn:E.
  - apply strictEq_true in E. subst. exfalso. apply Hn. now left.
  - apply IH. intros H. apply Hn. now right.
Qed.

Lemma indexOfFrom_member (l : list JsVal) (v : JsVal) (i : Z) :
  In v l ->
  exists k : nat,
    indexOfFrom l v i = (i + Z.of_nat k)%Z /\ (k < List.length l)%nat /\
    nth (S k) l JUndefined = successor l v.
Proof.
  revert i. induction l as [|x r IH]; intros i Hin; [contradiction|].
  simpl. destruct (strictEq x v) eqn:E.
  - exists 0%nat. repeat split; [lia | simpl; lia |].
    destruct r; reflexivity.
  - apply strictEq_false in E. destruct Hin as [->|Hin]; [congruence|].
    destruct (IH (i + 1)%Z Hin) as (k & Hk & Hlt & Hs).
    exists (S k). repeat split; [lia | simpl; lia | exact Hs].
Qed.

Lemma next_absent (supported : list JsVal) (v : JsVal) :
  ~ In v supported -> next supported v = Throw (AssertionError None).
Proof.
  intros Hn. unfold next, indexOf. rewrite (indexOfFrom_absent _ _ _ Hn).
  reflexivity.
Qed.

Lemma next_member (supported : list JsVal) (v : JsVal) :
  In v supported -> next supported v = Ok (successor supported v).
Proof.
  intros Hin. unfold next, indexOf.
  destruct (indexOfFrom_member supported v 0%Z Hin) as (k & Hk & Hlt & Hs).
  rewrite Hk. simpl (0 + _)%Z.
  replace (Z.of_nat k =? -1)%Z with false by (symmetry; apply Z.eqb_neq; lia).
  replace (Z.of_nat k <? Z.of_nat (List.length supported))%Z with true
    by (symmetry; apply Z.ltb_lt; lia).
  simpl. unfold arrayGet.
  replace (Z.of_nat k + 1 <? 0)%Z with false by (symmetry; apply Z.ltb_ge; lia).
  replace (Z.to_nat (Z.of_nat k + 1)) with (S k) by lia.
  now rewrite Hs.
Qed.

Lemma successor_following (pre post : list JsVal) (v w : JsVal) :
  ~ In v pre -> successor (pre ++ v :: w :: post) v = w.
Proof.
  induction pre as [|x r IH]; intros Hn; simpl.
  - now rewrite strictEq_refl.
  - destruct (strictEq x v) eqn:E.
    + apply strictEq_true in E. subst. exfalso. apply Hn. now left.
    + apply IH. intros H. apply Hn. now right.
Qed.

Lemma successor_last (pre : list JsVal) (v : JsVal) :
  ~ In v pre -> successor (pre ++ [v]) v = JUndefined.
Proof.
  induction pre as [|x r IH]; intros Hn; simpl.
  - now rewrite strictEq_refl.
  - destruct (strictEq x v) eqn:E.
    + apply strictEq_true in E. subst. exfalso. apply Hn. now left.
    + apply IH. intros H. apply Hn. now right.
Qed.

(** An absent version fails the first assertion of [next] ([next_absent]
    above), and a version with a successor yields that successor. *)
Lemma next_following (pre post : list JsVal) (v w : JsVal) :
  ~ In v pre -> next (pre ++ v :: w :: post) v = Ok w.
Proof.
  intros Hn. rewrite next_member by (apply in_or_app; right; now left).
  now rewrite successor_following.
Qed.

(** C4. [next] fails on a version absent from the supported list and
    returns the following entry otherwise; the claim also wants a failure
    on the last entry of the list.  There the second assertion,
    [index < supported.length], holds like for every index [indexOf] can
    return, and [next] returns [supported[index + 1]], which is undefined:
    no error is raised. *)
Theorem next_of_last_entry_is_undefined (pre : list JsVal) (v : JsVal) :
  ~ In v pre -> next (pre ++ [v]) v = Ok JUndefined.
Proof.
  intros Hn. rewrite next_member by (apply in_or_app; right; now left).
  now rewrite successor_last.
Qed.

Lemma next_of_last_entry_is_undefined_witness :
  ~ In (JStr "5.0") (removelast sup30_50) /\
  next sup30_50 (JStr "5.0") = Ok JUndefined.
Proof.
  assert (H : ~ In (JStr "5.0") (removelast sup30_50)).
  { simpl. intros H.
    repeat (destruct H as [H|H]; [discriminate H|]). exact H. }
  split; [exact H|].
  exact (next_of_last_entry_is_undefined (removelast sup30_50) (JStr "5.0") H).
Defined.

(** ** Reconciliation *)

Lemma append_assoc (a b c : string) : (a +++ b) +++ c = a +++ (b +++ c).
Proof. induction a as [|x a IH]; simpl; [reflexivity | now rewrite IH]. Qed.

Lemma append_empty_r (a : string) : a +++ EmptyString = a.
Proof. induction a as [|x a IH]; simpl; [reflexivity | now rewrite IH]. Qed.

Lemma contains_suffix (pre sub : string) : contains sub (pre +++ sub).
Proof. exists pre, EmptyString. now rewrite append_empty_r. Qed.

Lemma contains_prefix (sub post : string) : contains sub (sub +++ post).
Proof. exists EmptyString, post. reflexivity. Qed.

Lemma contains_append_r (sub a b : string) :
  contains sub b -> contains sub (a +++ b).
Proof.
  intros (pre & post & ->). exists (a +++ pre), post.
  now rewrite append_assoc.
Qed.

(** C2. The six combinations of the expectation flag and the outcome:
    (true, error) returns undefined; (true, fail) returns a message that
    holds the ignoring-reason text, the package label and the raw output;
    (true, pass) throws an error telling to remove the entry from
    'failingPackages', with the raw output; (false, error) and (false, fail)
    throw an error that holds the raw output; (false, pass) returns
    undefined. *)
Theorem reconcile_truth_table (dirName output : string) :
  reconcile (JBool true) dirName output (statusOf error) = Ok JUndefined /\
  (exists msg,
     reconcile (JBool true) dirName output (statusOf fail) = Ok (JStr msg) /\
     contains "Ignoring attw failure because" msg /\
     contains dirName msg /\
     contains "is listed in 'failingPackages'" msg /\
     contains output msg) /\
  (exists msg,
     reconcile (JBool true) dirName output (statusOf pass)
       = Throw (JsError msg) /\
     contains "attw passed: remove" msg /\
     contains dirName msg /\
     contains "from 'failingPackages' in attw.json" msg /\
     contains output msg) /\
  (exists msg,
     reconcile (JBool false) dirName output (statusOf error)
       = Throw (JsError msg) /\
     reconcile (JBool false) dirName output (statusOf fail)
       = Throw (JsError msg) /\
     contains output msg) /\
  reconcile (JBool false) dirName output (statusOf pass) = Ok JUndefined.
Proof.
  split; [reflexivity|]. split; [|split; [|split; [|reflexivity]]].
  - eexists. split; [reflexivity|]. repeat split.
    + eexists EmptyString, _. simpl. reflexivity.
    + do 2 apply contains_append_r. apply contains_prefix.
    + do 4 apply contains_append_r. eexists " ", _. simpl. reflexivity.
    + do 9 apply contains_append_r. exists EmptyString, EmptyString.
      now rewrite append_empty_r.
  - eexists. split; [reflexivity|]. repeat split.
    + eexists EmptyString, _. simpl. reflexivity.
    + do 2 apply contains_append_r. apply contains_prefix.
    + do 4 apply contains_append_r. eexists " ", _. simpl. reflexivity.
    + do 7 apply contains_append_r. exists EmptyString, EmptyString.
      now rewrite append_empty_r.
  - eexists. split; [reflexivity|]. split; [reflexivity|].
    do 2 apply contains_append_r. exists EmptyString, EmptyString.
    now rewrite append_empty_r.
Qed.

(** C7. With the package on the allow-list an unknown status reaches
    [default: assertNever(status)] and the run fails; with the package off
    the list the inner switch has no default, no case matches, and
    [runTests] returns undefined: the unknown status is accepted
    silently. *)
Theorem unknown_status_off_list_is_accepted (dirName output status : string) :
  unknownStatus status ->
  reconcile (JBool true) dirName output status
    = Throw (Unreachable (JStr status)) /\
  reconcile (JBool false) dirName output status = Ok JUndefined.
Proof.
  intros (Hp & Hf & He).
  apply String.eqb_neq in Hp, Hf, He.
  unfold reconcile, caseFalse. simpl strictEq.
  rewrite Hp, Hf, He. simpl. split; reflexivity.
Qed.

Lemma unknown_status_off_list_is_accepted_witness :
  unknownStatus "warn" /\
  reconcile (JBool true) "foo" "raw output" "warn"
    = Throw (Unreachable (JStr "warn")) /\
  reconcile (JBool false) "foo" "raw output" "warn" = Ok JUndefined.
Proof.
  assert (H : unknownStatus "warn") by (repeat split; discriminate).
  split; [exact H|].
  exact (unknown_status_off_list_is_accepted "foo" "raw output" "warn" H).
Defined.

(** ** The trace of a run *)

Lemma testTypesVersion_eq (env : Env) (dir : string) (lo hi : JsVal)
    (e : bool) (l : JsVal) (b : bool) (tr : Trace) :
  testTypesVersion env dir lo hi e l b tr
  = (tr ++ [TestTypesVersion (mkTestCall dir lo hi e l b)],
     checkOutcome env (mkTestCall dir lo hi e l b)).
Proof.
  unfold testTypesVersion, checkOutcome. munfold. simpl.
  destruct (checkTslintJson env dir) as [[]|err]; [|reflexivity].
  destruct (0 <? List.length (checkTsconfig env dir))%nat; [reflexivity|].
  destruct (truthy (lint env dir lo hi b e l)); reflexivity.
Qed.

Lemma checkOutcome_quiet (c : TestCall) : checkOutcome quietEnv c = Ok tt.
Proof. reflexivity. Qed.

Lemma testCalls_app (t1 t2 : Trace) :
  testCalls (t1 ++ t2) = testCalls t1 ++ testCalls t2.
Proof.
  induction t1 as [|ev t1 IH]; simpl; [reflexivity|].
  destruct ev; simpl; now rewrite IH.
Qed.

Section LoopFacts.

Variable supported : list JsVal.
Variables (dir : string) (expOnly : bool) (minVersion : JsVal).
Variables (lows his : list JsVal).

Lemma rangeBody_eq (env : Env) (i : nat) (tr : Trace) :
  rangeBody supported env dir expOnly minVersion lows his i tr
  = if rangeOk minVersion lows his i then
      (tr ++ rangeEvents supported dir expOnly minVersion lows his i,
       checkOutcome env (rangeAt supported dir expOnly minVersion lows his i))
    else (tr, Throw (AssertionError
                       (Some (skipMessage minVersion (rangeHi his i))))).
Proof.
  unfold rangeBody, rangeOk, rangeEvents, rangeAt, rangePath, rangeLow, rangeHi.
  munfold.
  destruct (jsGe _ _); [|reflexivity].
  destruct (1 <? List.length lows)%nat; rewrite testTypesVersion_eq;
    simpl; [rewrite <- app_assoc|]; reflexivity.
Qed.

Lemma testCalls_rangeEvents (i : nat) :
  testCalls (rangeEvents supported dir expOnly minVersion lows his i)
  = [rangeAt supported dir expOnly minVersion lows his i].
Proof.
  unfold rangeEvents. destruct (1 <? List.length lows)%nat; reflexivity.
Qed.

Lemma testCalls_flat_rangeEvents (l : list nat) :
  testCalls (flat_map (rangeEvents supported dir expOnly minVersion lows his) l)
  = map (rangeAt supported dir expOnly minVersion lows his) l.
Proof.
  induction l as [|i l IH]; [reflexivity|].
  simpl flat_map. rewrite testCalls_app, testCalls_rangeEvents, IH.
  reflexivity.
Qed.

End LoopFacts.

(** The loop runs through the iterations that return and stops at the
    first one that throws. *)
Lemma forFrom_all_return (body : nat -> M unit) (ev : nat -> list Event) :
  forall fuel i tr,
    (forall j t, (i <= j < i + fuel)%nat -> body j t = (t ++ ev j, Ok tt)) ->
    forFrom fuel i body tr = (tr ++ flat_map ev (seq i fuel), Ok tt).
Proof.
  induction fuel as [|fuel IH]; intros i tr H; simpl.
  - unfold ret. now rewrite app_nil_r.
  - unfold bind. rewrite H by lia. rewrite IH.
    + now rewrite <- app_assoc.
    + intros j t Hj. apply H. lia.
Qed.

Lemma forFrom_first_throw (body : nat -> M unit) (ev : nat -> list Event)
    (evk : list Event) (e : Error) (k : nat) :
  forall fuel i tr,
    (i <= k < i + fuel)%nat ->
    (forall j t, (i <= j < k)%nat -> body j t = (t ++ ev j, Ok tt)) ->
    (forall t, body k t = (t ++ evk, Throw e)) ->
    forFrom fuel i body tr
    = (tr ++ flat_map ev (seq i (k - i)) ++ evk, Throw e).
Proof.
  induction fuel as [|fuel IH]; intros i tr Hk Hok Hthrow; [lia|].
  simpl. unfold bind. destruct (Nat.eq_dec i k) as [->|Hne].
  - rewrite Hthrow. now rewrite Nat.sub_diag.
  - rewrite Hok by lia. rewrite IH; try assumption; try lia.
    + replace (k - i)%nat with (S (k - S i)) by lia. simpl.
      now rewrite <- !app_assoc.
    + intros j t Hj. apply Hok. lia.
Qed.

Lemma forFrom_invariant (P : Trace -> Prop) (body : nat -> M unit) :
  (forall i tr, P tr -> P (fst (body i tr))) ->
  forall fuel i tr, P tr -> P (fst (forFrom fuel i body tr)).
Proof.
  intros Hb. induction fuel as [|fuel IH]; intros i tr Htr; simpl.
  - exact Htr.
  - unfold bind. specialize (Hb i tr Htr).
    destruct (body i tr) as [tr' [[]|e]]; simpl in *; [|exact Hb].
    now apply IH.
Qed.

(** ** The range mode of [runTests] *)

Lemma mapResult_length {A B} (f : A -> Result B) (l : list A) (r : list B) :
  mapResult f l = Ok r -> List.length r = List.length l.
Proof.
  revert r. induction l as [|x l IH]; intros r; simpl.
  - intros H. inversion H. reflexivity.
  - destruct (f x) as [y|e]; simpl; [|discriminate].
    destruct (mapResult f l) as [ys|e]; simpl; [|discriminate].
    intros H. inversion H. simpl. now rewrite (IH ys).
Qed.

Lemma mapResult_next_members (supported cutoffs : list JsVal) :
  Forall (fun c => In c supported) cutoffs ->
  mapResult (next supported) cutoffs = Ok (map (successor supported) cutoffs).
Proof.
  induction 1 as [|c cs Hc _ IH]; simpl; [reflexivity|].
  rewrite (next_member _ _ Hc). simpl. rewrite IH. reflexivity.
Qed.

Lemma mapResult_next_absent (supported cutoffs : list JsVal) (c : JsVal) :
  In c cutoffs -> ~ In c supported ->
  mapResult (next supported) cutoffs = Throw (AssertionError None).
Proof.
  induction cutoffs as [|x cs IH]; intros Hin Hn; [contradiction|].
  simpl. destruct (in_dec JsVal_eq_dec x supported) as [Hx|Hx].
  - rewrite (next_member _ _ Hx). simpl.
    destruct Hin as [->|Hin]; [contradiction|].
    now rewrite (IH Hin Hn).
  - now rewrite (next_absent _ _ Hx).
Qed.

Lemma testPhase_lookup_throws (supported : list JsVal) (env : Env) (a : Args)
    (e : Error) (tr : Trace) :
  rangeMode a ->
  mapResult (next supported) (typesVersions a) = Throw e ->
  testPhase supported env a tr = (tr, Throw e).
Proof.
  intros [H1 H2] Hm. unfold testPhase. rewrite H1, H2. simpl.
  munfold. now rewrite Hm.
Qed.

Lemma testPhase_loop (supported : list JsVal) (env : Env) (a : Args)
    (lows' : list JsVal) (tr : Trace) :
  rangeMode a ->
  mapResult (next supported) (typesVersions a) = Ok lows' ->
  testPhase supported env a tr
  = forFrom (S (List.length (typesVersions a))) 0
      (rangeBody supported env (dirPath a) (expectOnly a)
         (maxVersion (minimumTypeScriptVersion (packageJson a))
                     (lowest supported))
         (lowest supported :: lows')
         (typesVersions a ++ [latest supported])) tr.
Proof.
  intros [H1 H2] Hm. unfold testPhase. rewrite H1, H2. simpl orb. cbv iota.
  pose proof (mapResult_length _ _ _ Hm) as Hlen.
  munfold. rewrite Hm.
  assert (E : (List.length (lowest supported :: lows')
               =? List.length (typesVersions a ++ [latest supported]))%nat
              = true).
  { apply Nat.eqb_eq. rewrite length_app. simpl. lia. }
  rewrite E. cbn [orb List.length]. rewrite Hlen. reflexivity.
Qed.

Lemma rangeMode_planArgs (dir : string) (minimum : JsVal)
    (cutoffs : list JsVal) : rangeMode (planArgs dir minimum cutoffs).
Proof. split; reflexivity. Qed.

(** ** The empty cutoff list *)

(** With no cutoff the loop has one round: when the latest version is
    numerically at least the value of [minVersion], one check is dispatched,
    in the package root. *)
Lemma single_range_plan (supported : list JsVal) (dir : string)
    (minimum : JsVal) :
  jsGe (parseFloat (latest supported))
       (parseFloat (effectiveMinimum supported minimum)) = true ->
  planRanges supported dir minimum []
  = ([mkTestCall dir (effectiveMinimum supported minimum) (latest supported)
                 false JUndefined true],
     Ok tt).
Proof.
  intros H. unfold planRanges, effectiveMinimum in *.
  rewrite (testPhase_loop supported quietEnv _ [] []);
    [|apply rangeMode_planArgs|reflexivity].
  simpl forFrom. unfold bind. rewrite rangeBody_eq.
  unfold rangeOk, rangeLow, rangeHi, rangeEvents, rangeAt, rangePath,
    rangeLow, rangeHi.
  simpl nth. simpl minimumTypeScriptVersion.
  rewrite maxVersion_idem, H, strictEq_refl. reflexivity.
Qed.

(** ** Where the loop stops *)

Section Stops.

Variables (supported : list JsVal) (env : Env) (a : Args).

Let minV := effectiveMinimum supported (minimumTypeScriptVersion (packageJson a)).
Let lows := planLows supported (typesVersions a).
Let his := planHis supported (typesVersions a).

Hypothesis Hmode : rangeMode a.
Hypothesis Hmem : Forall (fun c => In c supported) (typesVersions a).

Lemma testPhase_members (tr : Trace) :
  testPhase supported env a tr
  = forFrom (S (List.length (typesVersions a))) 0
      (rangeBody supported env (dirPath a) (expectOnly a) minV lows his) tr.
Proof.
  apply testPhase_loop; [exact Hmode|].
  now apply mapResult_next_members.
Qed.

(** Every range passes its assertion and its check: the loop dispatches
    them all, in order. *)
Lemma testPhase_completes :
  (forall i, (i <= List.length (typesVersions a))%nat ->
     rangeOk minV lows his i = true /\
     checkOutcome env (rangeAt supported (dirPath a) (expectOnly a)
                               minV lows his i) = Ok tt) ->
  testPhase supported env a []
  = (flat_map (rangeEvents supported (dirPath a) (expectOnly a) minV lows his)
              (seq 0 (S (List.length (typesVersions a)))),
     Ok tt).
Proof.
  intros H. rewrite testPhase_members.
  rewrite (forFrom_all_return _
             (rangeEvents supported (dirPath a) (expectOnly a) minV lows his)).
  - reflexivity.
  - intros j t Hj. rewrite rangeBody_eq.
    destruct (H j) as [-> ->]; [lia|reflexivity].
Qed.

(** Range [k] is the first one to fail its assertion, and the checks of the
    ranges before it succeed: the loop dispatches exactly those and throws
    the assertion error of range [k]. *)
Lemma testPhase_stops_at (k : nat) :
  (k <= List.length (typesVersions a))%nat ->
  (forall i, (i < k)%nat ->
     rangeOk minV lows his i = true /\
     checkOutcome env (rangeAt supported (dirPath a) (expectOnly a)
                               minV lows his i) = Ok tt) ->
  rangeOk minV lows his k = false ->
  testPhase supported env a []
  = (flat_map (rangeEvents supported (dirPath a) (expectOnly a) minV lows his)
              (seq 0 k),
     Throw (AssertionError (Some (skipMessage minV (rangeHi his k))))).
Proof.
  intros Hk Hbefore Hbad. rewrite testPhase_members.
  rewrite (forFrom_first_throw _
             (rangeEvents supported (dirPath a) (expectOnly a) minV lows his)
             [] (AssertionError (Some (skipMessage minV (rangeHi his k)))) k).
  - rewrite Nat.sub_0_r, app_nil_r. reflexivity.
  - lia.
  - intros j t Hj. rewrite rangeBody_eq.
    destruct (Hbefore j) as [-> ->]; [lia|reflexivity].
  - intros t. rewrite rangeBody_eq, Hbad, app_nil_r. reflexivity.
Qed.

End Stops.

Lemma first_false (f : nat -> bool) (j : nat) :
  f j = false ->
  exists k, (k <= j)%nat /\ f k = false /\
            forall i, (i < k)%nat -> f i = true.
Proof.
  induction j as [j IH] using lt_wf_ind. intros Hj.
  destruct (forallb f (seq 0 j)) eqn:E.
  - exists j. repeat split; [lia | exact Hj |].
    intros i Hi. rewrite forallb_forall in E. apply E.
    apply in_seq. lia.
  - assert (Hex : exists i, (i < j)%nat /\ f i = false).
    { destruct (existsb (fun i => negb (f i)) (seq 0 j)) eqn:E2.
      - apply existsb_exists in E2. destruct E2 as (i & Hi & Hf).
        apply in_seq in Hi. exists i. split; [lia|].
        now apply negb_true_iff in Hf.
      - exfalso. assert (forallb f (seq 0 j) = true); [|congruence].
        apply forallb_forall. intros i Hi.
        destruct (f i) eqn:Ef; [reflexivity|].
        assert (existsb (fun i => negb (f i)) (seq 0 j) = true); [|congruence].
        apply existsb_exists. exists i. split; [exact Hi|].
        now rewrite Ef. }
    destruct Hex as (i & Hi & Hf).
    destruct (IH i Hi Hf) as (k & Hk & Hfk & Hall).
    exists k. repeat split; [lia | exact Hfk | exact Hall].
Qed.

(** The plan, when every cutoff is a supported version. *)
Lemma planRanges_completes (supported : list JsVal) (dir : string)
    (minimum : JsVal) (cutoffs : list JsVal) :
  Forall (fun c => In c supported) cutoffs ->
  (forall i, (i <= List.length cutoffs)%nat ->
     rangeOk (effectiveMinimum supported minimum)
             (planLows supported cutoffs) (planHis supported cutoffs) i
     = true) ->
  planRanges supported dir minimum cutoffs
  = (map (rangeAt supported dir false (effectiveMinimum supported minimum)
                  (planLows supported cutoffs) (planHis supported cutoffs))
         (seq 0 (S (List.length cutoffs))),
     Ok tt).
Proof.
  intros Hmem Hok. unfold planRanges.
  rewrite (testPhase_completes supported quietEnv
             (planArgs dir minimum cutoffs) (rangeMode_planArgs _ _ _) Hmem).
  - now rewrite testCalls_flat_rangeEvents.
  - intros i Hi. split; [now apply Hok | apply checkOutcome_quiet].
Qed.

Lemma planRanges_stops_at (supported : list JsVal) (dir : string)
    (minimum : JsVal) (cutoffs : list JsVal) (k : nat) :
  Forall (fun c => In c supported) cutoffs ->
  (k <= List.length cutoffs)%nat ->
  (forall i, (i < k)%nat ->
     rangeOk (effectiveMinimum supported minimum)
             (planLows supported cutoffs) (planHis supported cutoffs) i
     = true) ->
  rangeOk (effectiveMinimum supported minimum)
          (planLows supported cutoffs) (planHis supported cutoffs) k = false ->
  planRanges supported dir minimum cutoffs
  = (map (rangeAt supported dir false (effectiveMinimum supported minimum)
                  (planLows supported cutoffs) (planHis supported cutoffs))
         (seq 0 k),
     Throw (AssertionError
              (Some (skipMessage (effectiveMinimum supported minimum)
                                 (rangeHi (planHis supported cutoffs) k))))).
Proof.
  intros Hmem Hk Hok Hbad. unfold planRanges.
  rewrite (testPhase_stops_at supported quietEnv
             (planArgs dir minimum cutoffs) (rangeMode_planArgs _ _ _) Hmem k
             Hk).
  - now rewrite testCalls_flat_rangeEvents.
  - intros i Hi. split; [now apply Hok | apply checkOutcome_quiet].
  - exact Hbad.
Qed.

(** ** A declared minimum above a cutoff *)

Lemma low_above_cutoff (e l c : JsVal) :
  jsGt (parseFloat e) (parseFloat c) = true ->
  jsGe (parseFloat c) (parseFloat (maxVersion e l)) = false.
Proof.
  intros H. destruct (maxVersion_cases e l) as [[G E] | [G E]]; rewrite E.
  - now apply jsGt_not_jsGe.
  - destruct (jsGe (parseFloat c) (parseFloat l)) eqn:Hc; [|reflexivity].
    exfalso.
    pose proof (jsGe_not_NaN_r _ _ Hc) as Hl.
    pose proof (jsGe_not_NaN_l _ _ (jsGt_jsGe _ _ H)) as He.
    pose proof (jsGe_total _ _ He Hl G) as Hle.
    pose proof (jsGt_trans _ _ _ Hle H) as Hlc.
    rewrite (jsGt_not_jsGe _ _ Hlc) in Hc. discriminate.
Qed.

Lemma effectiveMinimum_above_cutoff (supported : list JsVal) (m c : JsVal) :
  jsGt (parseFloat m) (parseFloat c) = true ->
  parseFloat (lowest supported) <> NaN ->
  jsGt (parseFloat (effectiveMinimum supported m)) (parseFloat c) = true.
Proof.
  intros H Hlo. unfold effectiveMinimum.
  destruct (maxVersion_cases m (lowest supported)) as [[G E] | [G E]];
    rewrite E; [exact H|].
  pose proof (jsGe_not_NaN_l _ _ (jsGt_jsGe _ _ H)) as Hm.
  exact (jsGt_trans _ _ _ (jsGe_total _ _ Hm Hlo G) H).
Qed.

Lemma rangeHi_cutoff (supported cutoffs : list JsVal) (k : nat) :
  (k < List.length cutoffs)%nat ->
  rangeHi (planHis supported cutoffs) k = nth k cutoffs JUndefined.
Proof. intros Hk. unfold rangeHi, planHis. now rewrite app_nth1. Qed.

(** Every check the loop dispatches is for a range whose high is
    numerically at least its low, whatever the checks answer. *)
Lemma dispatched_ranges_are_ordered (supported : list JsVal) (env : Env)
    (a : Args) :
  rangeMode a ->
  Forall (fun c => jsGe (parseFloat (tcHi c)) (parseFloat (tcLow c)) = true)
         (testCalls (fst (testPhase supported env a []))).
Proof.
  intros Hmode.
  destruct (mapResult (next supported) (typesVersions a)) as [lows'|e] eqn:Hm.
  - rewrite (testPhase_loop _ _ _ _ _ Hmode Hm).
    apply (forFrom_invariant
             (fun tr => Forall (fun c => jsGe (parseFloat (tcHi c))
                                              (parseFloat (tcLow c)) = true)
                               (testCalls tr))); [|constructor].
    intros i tr Htr. rewrite rangeBody_eq.
    destruct (rangeOk _ _ _ i) eqn:Hok; simpl; [|exact Htr].
    rewrite testCalls_app, testCalls_rangeEvents.
    apply Forall_app. split; [exact Htr|].
    constructor; [exact Hok | constructor].
  - rewrite (testPhase_lookup_throws _ _ _ _ _ Hmode Hm). constructor.
Qed.

(** The message of the assertion names the directory of the range: it holds
    [ts] followed by the high of the range. *)
Lemma skipMessage_names_directory (minVersion hi : JsVal) :
  contains ("ts" +++ toStr hi) (skipMessage minVersion hi).
Proof.
  unfold skipMessage. do 8 apply contains_append_r.
  exists "' in package.json skips ", " folder.". reflexivity.
Qed.

(** The compatibility check dispatches no check of a range. *)
Lemma runTests_testCalls (supported : list JsVal) (env : Env) (a : Args) :
  testCalls (fst (runTests supported env a []))
  = testCalls (fst (testPhase supported env a [])).
Proof.
  unfold runTests, bind.
  destruct (testPhase supported env a []) as [tr [[]|e]]; [|reflexivity].
  unfold attwPhase. destruct (negb (truthy (nonNpm (packageJson a))));
    [|reflexivity].
  munfold.
  destruct (runAreTheTypesWrong env (dirPath a)
              (joinPaths (dtRoot a) "attw.json")) as [output status].
  simpl fst. rewrite testCalls_app. simpl. now rewrite app_nil_r.
Qed.

(** In every run, in the range loop as in the single-version mode, no
    check is dispatched for a range whose low is numerically above its
    high. *)
Lemma dispatched_ranges_are_never_inverted (supported : list JsVal)
    (env : Env) (a : Args) :
  Forall (fun c => jsGt (parseFloat (tcLow c)) (parseFloat (tcHi c)) = false)
         (testCalls (fst (runTests supported env a []))).
Proof.
  rewrite runTests_testCalls.
  destruct (onlyTestTsNext a || truthy (tsLocal a))%bool eqn:E.
  - unfold testPhase. rewrite E, testTypesVersion_eq. simpl.
    constructor; [apply jsGt_irrefl | constructor].
  - apply orb_false_elim in E.
    eapply Forall_impl; [|apply dispatched_ranges_are_ordered; exact E].
    intros c Hc. simpl in Hc.
    destruct (jsGt (parseFloat (tcLow c)) (parseFloat (tcHi c))) eqn:G;
      [|reflexivity].
    rewrite (jsGt_not_jsGe _ _ G) in Hc. discriminate.
Qed.

(** C3 (amended). Every cutoff being a supported version, if the declared
    minimum is numerically greater than cutoff [j], the plan stops at some
    range [k <= j] whose high is not at least its low, with the assertion
    error of lines 164-167, whose message names the directory [ts<cutoff k>]
    of that range; and in every run of [runTests], whatever the mode and
    whatever the checks answer, no range whose high is numerically below
    its low is dispatched for checking (in the range loop each dispatched
    range has its high numerically at least its low). *)
Theorem minimum_above_cutoff_fails (supported : list JsVal) (dir : string)
    (minimum : JsVal) (cutoffs : list JsVal) (j : nat) (c : JsVal) :
  Forall (fun v => In v supported) cutoffs ->
  nth_error cutoffs j = Some c ->
  jsGt (parseFloat minimum) (parseFloat c) = true ->
  (exists k,
     (k <= j)%nat /\
     rangeOk (effectiveMinimum supported minimum)
             (planLows supported cutoffs) (planHis supported cutoffs) k
     = false /\
     planRanges supported dir minimum cutoffs
     = (map (rangeAt supported dir false (effectiveMinimum supported minimum)
                     (planLows supported cutoffs) (planHis supported cutoffs))
            (seq 0 k),
        Throw (AssertionError
                 (Some (skipMessage (effectiveMinimum supported minimum)
                                    (nth k cutoffs JUndefined))))) /\
     contains ("ts" +++ toStr (nth k cutoffs JUndefined))
              (skipMessage (effectiveMinimum supported minimum)
                           (nth k cutoffs JUndefined))) /\
  planFailsNamingCutoff supported dir minimum cutoffs /\
  (forall env a,
     Forall (fun t => jsGt (parseFloat (tcLow t)) (parseFloat (tcHi t)) = false)
            (testCalls (fst (runTests supported env a [])))) /\
  (forall env a,
     rangeMode a ->
     Forall (fun t => jsGe (parseFloat (tcHi t)) (parseFloat (tcLow t)) = true)
            (testCalls (fst (runTests supported env a [])))).
Proof.
  intros Hmem Hj Hgt.
  assert (Hjlen : (j < List.length cutoffs)%nat)
    by (apply nth_error_Some; congruence).
  assert (Hcj : nth j cutoffs JUndefined = c)
    by (now apply nth_error_nth).
  set (minV := effectiveMinimum supported minimum).
  set (lows := planLows supported cutoffs).
  set (his := planHis supported cutoffs).
  assert (Hbad : exists i, (i <= j)%nat /\ rangeOk minV lows his i = false).
  { destruct (parseFloat (lowest supported)) eqn:Hlo.
    - (* the lowest version is not a number: range 0 already fails *)
      exists 0%nat. split; [lia|].
      unfold rangeOk, rangeLow, lows, planLows, minV, effectiveMinimum.
      simpl nth. rewrite maxVersion_idem.
      assert (E : maxVersion minimum (lowest supported) = lowest supported).
      { unfold maxVersion. rewrite Hlo.
        destruct (parseFloat minimum); reflexivity. }
      rewrite E, Hlo.
      destruct (parseFloat (rangeHi his 0)); reflexivity.
    - exists j. split; [lia|]. unfold rangeOk, rangeLow.
      unfold his. rewrite rangeHi_cutoff, Hcj by exact Hjlen.
      apply low_above_cutoff. apply effectiveMinimum_above_cutoff;
        [exact Hgt | congruence].
    - exists j. split; [lia|]. unfold rangeOk, rangeLow.
      unfold his. rewrite rangeHi_cutoff, Hcj by exact Hjlen.
      apply low_above_cutoff. apply effectiveMinimum_above_cutoff;
        [exact Hgt | congruence].
    - exists j. split; [lia|]. unfold rangeOk, rangeLow.
      unfold his. rewrite rangeHi_cutoff, Hcj by exact Hjlen.
      apply low_above_cutoff. apply effectiveMinimum_above_cutoff;
        [exact Hgt | congruence]. }
  destruct Hbad as (i & Hij & Hi).
  destruct (first_false (rangeOk minV lows his) i Hi) as (k & Hki & Hk & Hall).
  assert (Hplan :
    planRanges supported dir minimum cutoffs
    = (map (rangeAt supported dir false minV lows his) (seq 0 k),
       Throw (AssertionError
                (Some (skipMessage minV (nth k cutoffs JUndefined)))))).
  { rewrite <- (rangeHi_cutoff supported cutoffs k) by lia.
    apply planRanges_stops_at; try assumption. lia. }
  split; [|split; [|split]].
  - exists k. split; [lia|]. split; [exact Hk|]. split; [exact Hplan|].
    apply skipMessage_names_directory.
  - exists (nth k cutoffs JUndefined),
      (skipMessage minV (nth k cutoffs JUndefined)).
    split; [apply nth_In; lia|]. split; [now rewrite Hplan|].
    apply skipMessage_names_directory.
  - intros env a. apply dispatched_ranges_are_never_inverted.
  - intros env a Hmode. rewrite runTests_testCalls.
    now apply dispatched_ranges_are_ordered.
Qed.

Lemma minimum_above_cutoff_fails_witness :
  Forall (fun v => In v sup30_50) (versions ["3.2"; "3.6"]) /\
  nth_error (versions ["3.2"; "3.6"]) 0 = Some (JStr "3.2") /\
  jsGt (parseFloat (JStr "3.4")) (parseFloat (JStr "3.2")) = true /\
  planFailsNamingCutoff sup30_50 "/dt/types/foo" (JStr "3.4")
                        (versions ["3.2"; "3.6"]).
Proof.
  assert (H : Forall (fun v => In v sup30_50) (versions ["3.2"; "3.6"])).
  { repeat constructor; simpl; tauto. }
  split; [exact H|]. split; [reflexivity|]. split; [reflexivity|].
  exact (proj1 (proj2 (minimum_above_cutoff_fails sup30_50 "/dt/types/foo"
                         (JStr "3.4") (versions ["3.2"; "3.6"]) 0
                         (JStr "3.2") H eq_refl eq_refl))).
Defined.

(** The spec's own example: minimum 3.4 against cutoffs 3.2 and 3.6 fails
    at the first range, and the message reads [ts3.2]. *)
Example minimum_above_cutoff_message :
  planRanges sup30_50 "/dt/types/foo" (JStr "3.4") (versions ["3.2"; "3.6"])
  = ([], Throw (AssertionError
                  (Some ("'" +++ dq +++ "minimumTypeScriptVersion" +++ dq
                         +++ ": " +++ dq +++ "3.4" +++ dq
                         +++ "' in package.json skips ts3.2 folder.")))).
Proof. reflexivity. Qed.

(** C3 as stated fails: a cutoff that is not a supported version stops the
    run in [next], whose assertion carries no message of the source's and
    names no directory. *)
Lemma minimum_above_unsupported_cutoff :
  jsGt (parseFloat (JStr "4.1")) (parseFloat (JStr "3.5")) = true /\
  planRanges (versions ["4.0"; "4.1"]) "/dt/types/foo" (JStr "4.1")
             (versions ["3.5"])
  = ([], Throw (AssertionError None)) /\
  ~ planFailsNamingCutoff (versions ["4.0"; "4.1"]) "/dt/types/foo"
                          (JStr "4.1") (versions ["3.5"]).
Proof.
  split; [reflexivity|]. split; [reflexivity|].
  intros (hi & msg & _ & H & _).
  assert (E : planRanges (versions ["4.0"; "4.1"]) "/dt/types/foo"
                         (JStr "4.1") (versions ["3.5"])
              = ([], Throw (AssertionError None))) by reflexivity.
  rewrite E in H. discriminate H.
Qed.

(** ** Ascending lists of versions *)

Lemma strictlyIncreasing_tail (a : JsVal) (l : list JsVal) :
  strictlyIncreasing (a :: l) = true -> strictlyIncreasing l = true.
Proof.
  destruct l as [|b r]; [reflexivity|].
  simpl. intros H. apply andb_prop in H. tauto.
Qed.

Lemma strictlyIncreasing_head (a : JsVal) (l : list JsVal) :
  strictlyIncreasing (a :: l) = true ->
  Forall (fun x => jsGt (parseFloat x) (parseFloat a) = true) l.
Proof.
  revert a. induction l as [|b r IH]; intros a H; [constructor|].
  simpl in H. apply andb_prop in H. destruct H as [Hba Hr].
  constructor; [exact Hba|].
  specialize (IH b Hr). rewrite Forall_forall in *.
  intros x Hx. exact (jsGt_trans _ _ _ (IH x Hx) Hba).
Qed.

Lemma strictlyIncreasing_snoc (l : list JsVal) (z : JsVal) :
  strictlyIncreasing l = true ->
  (forall x, In x l -> jsGt (parseFloat z) (parseFloat x) = true) ->
  strictlyIncreasing (l ++ [z]) = true.
Proof.
  induction l as [|a r IH]; intros Hs Hz; [reflexivity|].
  destruct r as [|b r'].
  - simpl. rewrite Hz by (now left). reflexivity.
  - simpl in Hs. apply andb_prop in Hs. destruct Hs as [Hba Hr].
    change (jsGt (parseFloat b) (parseFloat a)
            && strictlyIncreasing ((b :: r') ++ [z]) = true).
    rewrite Hba. simpl andb. apply IH; [exact Hr|].
    intros x Hx. apply Hz. now right.
Qed.

Lemma lowest_hd (l : list JsVal) : lowest l = hd JUndefined l.
Proof. destruct l; reflexivity. Qed.

Lemma latest_last (l : list JsVal) : latest l = last l JUndefined.
Proof.
  induction l as [|x l' _] using rev_ind; [reflexivity|].
  unfold latest, arrayGet. rewrite last_last, length_app. simpl List.length.
  replace (Z.of_nat (List.length l' + 1) - 1)%Z
    with (Z.of_nat (List.length l')) by lia.
  replace (Z.of_nat (List.length l') <? 0)%Z with false
    by (symmetry; apply Z.ltb_ge; lia).
  rewrite Nat2Z.id, app_nth2, Nat.sub_diag by lia. reflexivity.
Qed.

Lemma latest_member (l : list JsVal) : l <> [] -> In (latest l) l.
Proof.
  intros Hne. rewrite latest_last.
  destruct (exists_last Hne) as (l' & x & ->).
  rewrite last_last. apply in_or_app. right. now left.
Qed.

(** In an ascending list every entry other than the last is numerically
    below the last. *)
Lemma below_latest (l : list JsVal) (x : JsVal) :
  strictlyIncreasing l = true -> In x l -> x <> latest l ->
  jsGt (parseFloat (latest l)) (parseFloat x) = true.
Proof.
  rewrite latest_last.
  induction l as [|a r IH]; intros Hs Hin Hne; [contradiction|].
  destruct r as [|b r'].
  - simpl in *. destruct Hin as [->|[]]. congruence.
  - change (last (a :: b :: r') JUndefined) with (last (b :: r') JUndefined)
      in *.
    destruct Hin as [->|Hin].
    + pose proof (strictlyIncreasing_head _ _ Hs) as Hall.
      rewrite Forall_forall in Hall. apply Hall.
      rewrite <- latest_last. apply latest_member. discriminate.
    + apply IH; [now apply strictlyIncreasing_tail in Hs | exact Hin
                 | exact Hne].
Qed.

(** In an ascending list, a version numerically above [c] is at least the
    entry that follows [c]. *)
Lemma successor_le (l : list JsVal) (c c' : JsVal) :
  strictlyIncreasing l = true -> In c l -> In c' l ->
  jsGt (parseFloat c') (parseFloat c) = true ->
  jsGe (parseFloat c') (parseFloat (successor l c)) = true.
Proof.
  induction l as [|a r IH]; intros Hs Hc Hc' Hgt; [contradiction|].
  pose proof (strictlyIncreasing_head _ _ Hs) as Hall.
  rewrite Forall_forall in Hall.
  simpl successor. destruct (strictEq a c) eqn:E.
  - apply strictEq_true in E. subst a.
    destruct Hc' as [->|Hc'].
    { rewrite jsGt_irrefl in Hgt. discriminate. }
    destruct r as [|b r']; [contradiction|]. simpl hd.
    destruct Hc' as [->|Hc'].
    + apply jsGe_refl. exact (jsGe_not_NaN_l _ _ (jsGt_jsGe _ _ Hgt)).
    + apply strictlyIncreasing_tail in Hs.
      pose proof (strictlyIncreasing_head _ _ Hs) as Hb.
      rewrite Forall_forall in Hb. apply jsGt_jsGe. now apply Hb.
  - apply strictEq_false in E. destruct Hc as [->|Hc]; [congruence|].
    destruct Hc' as [->|Hc'].
    + pose proof (jsGt_not_jsGe _ _ (Hall c Hc)) as G1.
      pose proof (jsGt_jsGe _ _ Hgt) as G2. congruence.
    + apply IH; try assumption. now apply strictlyIncreasing_tail in Hs.
Qed.

(** ** The effective minimum of the specification and the code's *)

Lemma jsGe_NaN_r (a : JsNum) : jsGe a NaN = false.
Proof. destruct a; reflexivity. Qed.

(** [largerVersion] is the larger of the two: it is one of them and is
    numerically at least both. *)
Lemma largerVersion_is_larger (a b : JsVal) :
  parseFloat a <> NaN -> parseFloat b <> NaN ->
  (largerVersion a b = a \/ largerVersion a b = b) /\
  jsGe (parseFloat (largerVersion a b)) (parseFloat a) = true /\
  jsGe (parseFloat (largerVersion a b)) (parseFloat b) = true.
Proof.
  intros Ha Hb. unfold largerVersion.
  destruct (jsGt (parseFloat b) (parseFloat a)) eqn:G.
  - split; [now right|]. split; [now apply jsGt_jsGe | now apply jsGe_refl].
  - split; [now left|]. split; [now apply jsGe_refl|].
    destruct (jsGe (parseFloat a) (parseFloat b)) eqn:G2; [reflexivity|].
    rewrite (jsGe_total _ _ Ha Hb G2) in G. discriminate.
Qed.

Lemma largerVersion_maxVersion (a b : JsVal) :
  parseFloat a <> NaN -> parseFloat b <> NaN ->
  largerVersion a b = maxVersion a b.
Proof.
  intros Ha Hb. unfold largerVersion, maxVersion.
  destruct (jsGe (parseFloat a) (parseFloat b)) eqn:G.
  - unfold jsGt. rewrite G. now rewrite andb_false_r.
  - now rewrite (jsGe_total _ _ Ha Hb G).
Qed.

Lemma declaredMinimum_set (supported : list JsVal) (minimum : JsVal) :
  minimum <> JUndefined -> declaredMinimum supported minimum = minimum.
Proof. destruct minimum; simpl; congruence. Qed.

Lemma effectiveMinimum_unset (supported : list JsVal) :
  effectiveMinimum supported JUndefined = lowest supported.
Proof.
  unfold effectiveMinimum, maxVersion.
  change (parseFloat JUndefined) with NaN. reflexivity.
Qed.

Lemma specEffectiveMinimum_unset (supported : list JsVal) :
  specEffectiveMinimum supported JUndefined = lowest supported.
Proof.
  unfold specEffectiveMinimum, largerVersion. simpl declaredMinimum.
  now rewrite jsGt_irrefl.
Qed.

(** Where the effective minimum of the specification is a number, it is
    the value the code computes on line 149. *)
Lemma specEffectiveMinimum_code (supported : list JsVal) (minimum : JsVal) :
  parseFloat (lowest supported) <> NaN ->
  parseFloat (specEffectiveMinimum supported minimum) <> NaN ->
  specEffectiveMinimum supported minimum = effectiveMinimum supported minimum.
Proof.
  intros Hlo Hnum.
  destruct (JsVal_eq_dec minimum JUndefined) as [->|Hset].
  - now rewrite specEffectiveMinimum_unset, effectiveMinimum_unset.
  - unfold specEffectiveMinimum, effectiveMinimum in *.
    rewrite (declaredMinimum_set _ _ Hset) in *.
    unfold largerVersion, maxVersion in *.
    destruct (jsGt (parseFloat (lowest supported)) (parseFloat minimum)) eqn:G.
    + now rewrite (jsGt_not_jsGe _ _ G).
    + destruct (jsGe (parseFloat minimum) (parseFloat (lowest supported)))
        eqn:G2; [reflexivity|].
      rewrite (jsGe_total _ _ Hnum Hlo G2) in G. discriminate.
Qed.

(** In an ascending list whose first entry is a number, every entry is a
    number, numerically between the first and the last. *)
Lemma ascending_above_lowest (l : list JsVal) (x : JsVal) :
  strictlyIncreasing l = true -> parseFloat (lowest l) <> NaN -> In x l ->
  jsGe (parseFloat x) (parseFloat (lowest l)) = true.
Proof.
  intros Hs Hlo Hin. rewrite lowest_hd in *.
  destruct l as [|a r]; [contradiction|]. simpl hd in *.
  destruct Hin as [->|Hin]; [now apply jsGe_refl|].
  pose proof (strictlyIncreasing_head _ _ Hs) as Hall.
  rewrite Forall_forall in Hall. apply jsGt_jsGe. now apply Hall.
Qed.

Lemma ascending_below_latest (l : list JsVal) (x : JsVal) :
  strictlyIncreasing l = true -> parseFloat (lowest l) <> NaN -> In x l ->
  jsGe (parseFloat (latest l)) (parseFloat x) = true.
Proof.
  intros Hs Hlo Hin.
  destruct (JsVal_eq_dec x (latest l)) as [E|Hne].
  - rewrite <- E. apply jsGe_refl.
    exact (jsGe_not_NaN_l _ _ (ascending_above_lowest l x Hs Hlo Hin)).
  - apply jsGt_jsGe. now apply below_latest.
Qed.

Lemma lowest_member (l : list JsVal) :
  parseFloat (lowest l) <> NaN -> In (lowest l) l.
Proof.
  rewrite lowest_hd. destruct l as [|a r]; simpl.
  - intros H. now contradiction H.
  - intros _. now left.
Qed.

(** The effective minimum of a declared minimum the package metadata can
    hold: the specification and the code agree on it, and it is not above
    the latest supported version. *)
Lemma knownMinimum_effective (supported : list JsVal) (minimum : JsVal) :
  strictlyIncreasing supported = true ->
  parseFloat (lowest supported) <> NaN ->
  knownMinimum supported minimum ->
  specEffectiveMinimum supported minimum = effectiveMinimum supported minimum
  /\ jsGe (parseFloat (latest supported))
          (parseFloat (effectiveMinimum supported minimum)) = true.
Proof.
  intros Hsup Hlo Hknown.
  pose proof (ascending_below_latest supported _ Hsup Hlo
                (lowest_member supported Hlo)) as Htop.
  destruct (JsVal_eq_dec minimum JUndefined) as [->|Hset].
  { rewrite specEffectiveMinimum_unset, effectiveMinimum_unset. now split. }
  destruct Hknown as [E | [Hin | Hold]]; [contradiction | |].
  - (* a supported version *)
    pose proof (ascending_above_lowest supported _ Hsup Hlo Hin) as Hge.
    assert (Ecode : effectiveMinimum supported minimum = minimum).
    { unfold effectiveMinimum, maxVersion. now rewrite Hge. }
    split.
    + rewrite specEffectiveMinimum_code; [reflexivity | exact Hlo |].
      unfold specEffectiveMinimum, largerVersion.
      rewrite (declaredMinimum_set _ _ Hset).
      unfold jsGt. rewrite Hge, andb_false_r.
      exact (jsGe_not_NaN_l _ _ Hge).
    + rewrite Ecode. now apply ascending_below_latest.
  - (* an older version, below the lowest supported one *)
    assert (Ecode : effectiveMinimum supported minimum = lowest supported).
    { unfold effectiveMinimum, maxVersion.
      now rewrite (jsGt_not_jsGe _ _ Hold). }
    split.
    + rewrite Ecode. unfold specEffectiveMinimum, largerVersion.
      rewrite (declaredMinimum_set _ _ Hset). now rewrite Hold.
    + now rewrite Ecode.
Qed.

(** C5. With an empty cutoff list, for an ascending list of supported
    versions and a declared minimum the package metadata can hold (unset, a
    supported version, or an older version below the lowest supported one),
    the plan is exactly one range: its low is the effective minimum of the
    specification (the numerically larger of the declared minimum and the
    lowest supported version), its high the latest supported version, it is
    the latest range and is checked in the package root. *)
Theorem plan_of_no_cutoffs (supported : list JsVal) (dir : string)
    (minimum : JsVal) :
  strictlyIncreasing supported = true ->
  parseFloat (lowest supported) <> NaN ->
  knownMinimum supported minimum ->
  planIsSingleRange supported dir minimum.
Proof.
  intros Hsup Hlo Hknown. unfold planIsSingleRange.
  destruct (knownMinimum_effective supported minimum Hsup Hlo Hknown)
    as [E Htop].
  rewrite E. now apply single_range_plan.
Qed.

Lemma plan_of_no_cutoffs_witness :
  strictlyIncreasing sup30_50 = true /\
  parseFloat (lowest sup30_50) <> NaN /\
  knownMinimum sup30_50 (JStr "3.4") /\
  planRanges sup30_50 "/dt/types/foo" (JStr "3.4") []
  = ([mkTestCall "/dt/types/foo" (JStr "3.4") (JStr "5.0") false JUndefined
                 true], Ok tt).
Proof.
  assert (Hlo : parseFloat (lowest sup30_50) <> NaN) by discriminate.
  assert (Hknown : knownMinimum sup30_50 (JStr "3.4")).
  { right. left. simpl. tauto. }
  split; [reflexivity|]. split; [exact Hlo|]. split; [exact Hknown|].
  exact (plan_of_no_cutoffs sup30_50 "/dt/types/foo" (JStr "3.4")
                            eq_refl Hlo Hknown).
Defined.

(** Outside those declared minimums: a minimum above the latest supported
    version, which is no version the catalogue knows, makes the only range
    fail the assertion of lines 164-167. *)
Example plan_of_no_cutoffs_unknown_minimum :
  planRanges (versions ["3.0"; "3.1"]) "/dt/types/foo" (JStr "3.2") []
  = ([], Throw (AssertionError
                  (Some (skipMessage (JStr "3.2") (JStr "3.1"))))) /\
  ~ knownMinimum (versions ["3.0"; "3.1"]) (JStr "3.2").
Proof.
  split; [reflexivity|].
  intros [H | [H | H]]; [discriminate H | | discriminate H].
  simpl in H. destruct H as [H | [H | []]]; discriminate H.
Qed.

(** ** The plan of a well-formed package *)

Lemma specRanges_length (supported : list JsVal) (dir : string)
    (effMin low : JsVal) (cutoffs : list JsVal) :
  List.length (specRanges supported dir effMin low cutoffs)
  = S (List.length cutoffs).
Proof.
  revert low. induction cutoffs as [|c r IH]; intros low; simpl;
    [reflexivity | now rewrite IH].
Qed.

Lemma specRanges_his (supported : list JsVal) (dir : string)
    (effMin low : JsVal) (cutoffs : list JsVal) :
  map tcHi (specRanges supported dir effMin low cutoffs)
  = cutoffs ++ [latest supported].
Proof.
  revert low. induction cutoffs as [|c r IH]; intros low; simpl;
    [reflexivity | now rewrite IH].
Qed.

Lemma specRanges_isLatest (supported : list JsVal) (dir : string)
    (effMin low : JsVal) (cutoffs : list JsVal) :
  map tcIsLatest (specRanges supported dir effMin low cutoffs)
  = repeat false (List.length cutoffs) ++ [true].
Proof.
  revert low. induction cutoffs as [|c r IH]; intros low; simpl;
    [reflexivity | now rewrite IH].
Qed.

Lemma specRanges_lows (supported : list JsVal) (dir : string)
    (effMin low : JsVal) (cutoffs : list JsVal) :
  map tcLow (specRanges supported dir effMin low cutoffs)
  = low :: map (fun c => largerVersion effMin (successor supported c)) cutoffs.
Proof.
  revert low. induction cutoffs as [|c r IH]; intros low; simpl;
    [reflexivity | now rewrite IH].
Qed.

Section Walk.

Variables (supported : list JsVal) (dir : string) (minV : JsVal).
Hypothesis Hsup : strictlyIncreasing supported = true.
Hypothesis Hne : supported <> [].

Lemma first_range_ok (hi l : JsVal) :
  jsGe (parseFloat hi) (parseFloat minV) = true ->
  jsGe (parseFloat hi) (parseFloat l) = true ->
  jsGe (parseFloat hi) (parseFloat (maxVersion minV l)) = true.
Proof.
  intros H1 H2. destruct (maxVersion_cases minV l) as [[_ E] | [_ E]];
    now rewrite E.
Qed.

Lemma hd_of_app (cs : list JsVal) (z : JsVal) :
  hd JUndefined (cs ++ [z]) = hd z cs.
Proof. destruct cs; reflexivity. Qed.

(** The loop over the cutoffs [cs] that remain, [l] being the raw low of
    the range at hand. *)
Lemma walk_ranges (cs : list JsVal) :
  forall l,
    strictlyIncreasing (cs ++ [latest supported]) = true ->
    Forall (fun c => In c supported) cs ->
    jsGe (parseFloat (hd (latest supported) cs)) (parseFloat minV) = true ->
    jsGe (parseFloat (hd (latest supported) cs)) (parseFloat l) = true ->
    (forall i, (i <= List.length cs)%nat ->
       rangeOk minV (l :: map (successor supported) cs)
               (cs ++ [latest supported]) i = true) /\
    map (rangeAt supported dir false minV
                 (l :: map (successor supported) cs)
                 (cs ++ [latest supported]))
        (seq 0 (S (List.length cs)))
    = loopRanges supported dir minV (maxVersion minV l) cs.
Proof.
  induction cs as [|c cs' IH]; intros l Hinc Hmem Hmin Hl.
  - simpl in Hmin, Hl. split.
    + intros i Hi. replace i with 0%nat by (simpl in Hi; lia).
      unfold rangeOk, rangeHi, rangeLow. simpl nth.
      now apply first_range_ok.
    + simpl. unfold rangeAt, rangePath, rangeHi, rangeLow. simpl nth.
      rewrite strictEq_refl. reflexivity.
  - simpl in Hmin, Hl.
    change ((c :: cs') ++ [latest supported])
      with (c :: (cs' ++ [latest supported])) in *.
    pose proof (strictlyIncreasing_head _ _ Hinc) as Habove.
    rewrite Forall_forall in Habove.
    pose proof (strictlyIncreasing_tail _ _ Hinc) as Htail.
    inversion Hmem as [|? ? Hc Hmem']; subst.
    assert (Hh_in : In (hd (latest supported) cs') (cs' ++ [latest supported])).
    { destruct cs'; simpl; auto. }
    assert (Hh_sup : In (hd (latest supported) cs') supported).
    { destruct cs' as [|d r]; simpl.
      - now apply latest_member.
      - inversion Hmem'; assumption. }
    pose proof (Habove _ Hh_in) as Hh_gt.
    assert (Hc_latest : strictEq c (latest supported) = false).
    { apply strictEq_false. intros ->.
      assert (G : jsGt (parseFloat (latest supported))
                       (parseFloat (latest supported)) = true).
      { apply Habove. apply in_or_app. right. now left. }
      rewrite jsGt_irrefl in G. discriminate. }
    destruct (IH (successor supported c) Htail Hmem') as [IHok IHmap].
    { exact (jsGe_trans _ _ _ (jsGt_jsGe _ _ Hh_gt) Hmin). }
    { now apply successor_le. }
    split.
    + intros [|i] Hi.
      * unfold rangeOk, rangeHi, rangeLow. simpl nth.
        now apply first_range_ok.
      * apply (IHok i). simpl in Hi. lia.
    + simpl List.length.
      change (seq 0 (S (S (List.length cs'))))
        with (0%nat :: seq 1 (S (List.length cs'))).
      rewrite <- seq_shift, map_cons, map_map.
      simpl loopRanges. f_equal.
      * unfold rangeAt, rangePath, rangeHi, rangeLow. simpl nth.
        rewrite Hc_latest. reflexivity.
      * rewrite <- IHmap. apply map_ext. intros i. reflexivity.
Qed.

End Walk.

Lemma mapResult_next_ok_members (supported cutoffs lows' : list JsVal) :
  mapResult (next supported) cutoffs = Ok lows' ->
  Forall (fun c => In c supported) cutoffs.
Proof.
  intros H. apply Forall_forall. intros c Hc.
  destruct (in_dec JsVal_eq_dec c supported) as [Hin|Hn]; [exact Hin|].
  rewrite (mapResult_next_absent _ _ _ Hc Hn) in H. discriminate.
Qed.

(** Cutoffs that increase strictly, are supported versions and do not end
    at the latest one, in an ascending supported list: once the first range
    passes its assertion, every range does, and the ranges dispatched are
    those of [loopRanges]. *)
Lemma increasing_cutoffs_ranges (supported : list JsVal) (dir : string)
    (minimum : JsVal) (cutoffs : list JsVal) :
  strictlyIncreasing supported = true ->
  cutoffs <> [] ->
  strictlyIncreasing cutoffs = true ->
  Forall (fun c => In c supported) cutoffs ->
  last cutoffs JUndefined <> latest supported ->
  jsGe (parseFloat (hd JUndefined cutoffs))
       (parseFloat (effectiveMinimum supported minimum)) = true ->
  (forall i, (i <= List.length cutoffs)%nat ->
     rangeOk (effectiveMinimum supported minimum)
             (planLows supported cutoffs) (planHis supported cutoffs) i
     = true) /\
  map (rangeAt supported dir false (effectiveMinimum supported minimum)
               (planLows supported cutoffs) (planHis supported cutoffs))
      (seq 0 (S (List.length cutoffs)))
  = loopRanges supported dir (effectiveMinimum supported minimum)
               (effectiveMinimum supported minimum) cutoffs.
Proof.
  intros Hsup Hne Hinc Hmem Hlast Hmin.
  destruct cutoffs as [|c1 cs]; [congruence|]. clear Hne.
  assert (Hc1 : In c1 supported) by (inversion Hmem; assumption).
  assert (Hsne : supported <> []) by (intros ->; contradiction).
  assert (Hlast_in : In (last (c1 :: cs) JUndefined) supported).
  { rewrite Forall_forall in Hmem. apply Hmem.
    rewrite <- latest_last. apply latest_member. discriminate. }
  pose proof (below_latest _ _ Hsup Hlast_in Hlast) as Htop.
  assert (Hbelow : forall x, In x (c1 :: cs) ->
            jsGt (parseFloat (latest supported)) (parseFloat x) = true).
  { intros x Hx.
    destruct (JsVal_eq_dec x (last (c1 :: cs) JUndefined)) as [->|Hd];
      [exact Htop|].
    rewrite <- latest_last in Hd.
    exact (jsGt_trans _ _ _
             ltac:(rewrite <- latest_last in Htop; exact Htop)
             (below_latest _ _ Hinc Hx Hd)). }
  pose proof (strictlyIncreasing_snoc _ _ Hinc Hbelow) as Hinc'.
  assert (Hlow : jsGe (parseFloat c1) (parseFloat (lowest supported)) = true).
  { rewrite lowest_hd. destruct supported as [|s0 sr]; [contradiction|].
    simpl hd. destruct Hc1 as [->|Hc1].
    - apply jsGe_refl. exact (jsGe_not_NaN_l _ _ Hmin).
    - pose proof (strictlyIncreasing_head _ _ Hsup) as Hall.
      rewrite Forall_forall in Hall. apply jsGt_jsGe. now apply Hall. }
  destruct (walk_ranges supported dir (effectiveMinimum supported minimum)
              Hsup Hsne (c1 :: cs) (lowest supported) Hinc' Hmem Hmin Hlow)
    as [Hok Hmap].
  split; [exact Hok|].
  unfold planLows, planHis. rewrite Hmap.
  unfold effectiveMinimum. now rewrite maxVersion_idem.
Qed.

(** Cutoffs that increase strictly, are supported versions and do not end
    at the latest one still increase strictly when the latest version is
    put after them. *)
Lemma cutoffs_then_latest_increasing (supported cutoffs : list JsVal) :
  strictlyIncreasing supported = true ->
  cutoffs <> [] ->
  strictlyIncreasing cutoffs = true ->
  Forall (fun c => In c supported) cutoffs ->
  last cutoffs JUndefined <> latest supported ->
  strictlyIncreasing (cutoffs ++ [latest supported]) = true.
Proof.
  intros Hsup Hne Hinc Hmem Hlast.
  assert (Hlast_in : In (last cutoffs JUndefined) supported).
  { rewrite Forall_forall in Hmem. apply Hmem.
    rewrite <- latest_last. now apply latest_member. }
  pose proof (below_latest _ _ Hsup Hlast_in Hlast) as Htop.
  apply strictlyIncreasing_snoc; [exact Hinc|].
  intros x Hx.
  destruct (JsVal_eq_dec x (last cutoffs JUndefined)) as [->|Hd];
    [exact Htop|].
  rewrite <- latest_last in Hd, Htop.
  exact (jsGt_trans _ _ _ Htop (below_latest _ _ Hinc Hx Hd)).
Qed.

(** On such cutoffs the ranges of the specification are the ranges of the
    loop: the version that follows a cutoff is a number, and on numbers the
    larger version of the specification is the one [maxVersion] returns. *)
Lemma specRanges_loopRanges (supported : list JsVal) (dir : string)
    (e : JsVal) (cs : list JsVal) :
  strictlyIncreasing supported = true ->
  supported <> [] ->
  parseFloat e <> NaN ->
  strictlyIncreasing (cs ++ [latest supported]) = true ->
  Forall (fun c => In c supported) cs ->
  forall low,
    specRanges supported dir e low cs = loopRanges supported dir e low cs.
Proof.
  intros Hsup Hne He. induction cs as [|c cs' IH]; intros Hinc Hmem low;
    [reflexivity|].
  change ((c :: cs') ++ [latest supported])
    with (c :: (cs' ++ [latest supported])) in Hinc.
  pose proof (strictlyIncreasing_head _ _ Hinc) as Habove.
  rewrite Forall_forall in Habove.
  pose proof (strictlyIncreasing_tail _ _ Hinc) as Htail.
  inversion Hmem as [|? ? Hc Hmem']; subst.
  assert (Hh_in : In (hd (latest supported) cs') (cs' ++ [latest supported])).
  { destruct cs'; simpl; auto. }
  assert (Hh_sup : In (hd (latest supported) cs') supported).
  { destruct cs' as [|d r]; simpl.
    - now apply latest_member.
    - inversion Hmem'; assumption. }
  pose proof (successor_le supported c _ Hsup Hc Hh_sup (Habove _ Hh_in))
    as Hsucc.
  simpl. rewrite (largerVersion_maxVersion e (successor supported c) He
                    (jsGe_not_NaN_r _ _ Hsucc)).
  f_equal. now apply IH.
Qed.

(** C1 (amended). For an ascending supported list and a non-empty, strictly
    increasing cutoff list [c1..cn] of supported versions whose last entry
    is not the latest supported version, the effective minimum of the
    specification (the numerically larger of the declared minimum and the
    lowest supported version) not being numerically above [c1], the plan is
    exactly the [n+1] ranges of the specification, in order: the highs are
    [c1..cn] and then the latest version; the first low is that effective
    minimum, and each later low is the numerically larger of the effective
    minimum and the version following the previous cutoff; only the final
    range is the latest one. *)
Theorem plan_of_increasing_cutoffs (supported : list JsVal) (dir : string)
    (minimum : JsVal) (cutoffs : list JsVal) :
  strictlyIncreasing supported = true ->
  cutoffs <> [] ->
  strictlyIncreasing cutoffs = true ->
  Forall (fun c => In c supported) cutoffs ->
  last cutoffs JUndefined <> latest supported ->
  jsGe (parseFloat (hd JUndefined cutoffs))
       (parseFloat (specEffectiveMinimum supported minimum)) = true ->
  planFollowsSpec supported dir minimum cutoffs /\
  List.length (fst (planRanges supported dir minimum cutoffs))
  = S (List.length cutoffs) /\
  map tcHi (fst (planRanges supported dir minimum cutoffs))
  = cutoffs ++ [latest supported] /\
  map tcLow (fst (planRanges supported dir minimum cutoffs))
  = specLows supported minimum cutoffs /\
  map tcIsLatest (fst (planRanges supported dir minimum cutoffs))
  = repeat false (List.length cutoffs) ++ [true].
Proof.
  intros Hsup Hne Hinc Hmem Hlast Hmin.
  assert (Hsne : supported <> []).
  { destruct cutoffs as [|c1 cs]; [congruence|].
    inversion Hmem; subst. intros ->. contradiction. }
  assert (Hc1 : In (hd JUndefined cutoffs) supported).
  { destruct cutoffs as [|c1 cs]; [congruence|]. now inversion Hmem. }
  assert (Hlo : parseFloat (lowest supported) <> NaN).
  { pose proof (jsGe_not_NaN_l _ _ Hmin) as Hnum.
    rewrite lowest_hd. destruct supported as [|s0 sr]; [congruence|].
    simpl hd. destruct Hc1 as [->|Hc1]; [exact Hnum|].
    pose proof (strictlyIncreasing_head _ _ Hsup) as Hall.
    rewrite Forall_forall in Hall.
    exact (jsGe_not_NaN_r _ _ (jsGt_jsGe _ _ (Hall _ Hc1))). }
  pose proof (jsGe_not_NaN_r _ _ Hmin) as Heff.
  pose proof (specEffectiveMinimum_code supported minimum Hlo Heff) as Ecode.
  assert (Hmin' : jsGe (parseFloat (hd JUndefined cutoffs))
                       (parseFloat (effectiveMinimum supported minimum))
                  = true) by (now rewrite <- Ecode).
  destruct (increasing_cutoffs_ranges supported dir minimum cutoffs
              Hsup Hne Hinc Hmem Hlast Hmin') as [Hok Hmap].
  assert (E : planFollowsSpec supported dir minimum cutoffs).
  { unfold planFollowsSpec.
    rewrite (planRanges_completes _ _ _ _ Hmem Hok), Hmap, Ecode.
    f_equal. symmetry. apply specRanges_loopRanges; try assumption.
    - now rewrite <- Ecode.
    - now apply cutoffs_then_latest_increasing. }
  split; [exact E|]. unfold planFollowsSpec in E. rewrite E. simpl fst.
  split; [apply specRanges_length|].
  split; [apply specRanges_his|].
  split; [apply specRanges_lows | apply specRanges_isLatest].
Qed.

Lemma plan_of_increasing_cutoffs_witness :
  strictlyIncreasing sup30_50 = true /\
  versions ["3.5"; "3.6"] <> [] /\
  strictlyIncreasing (versions ["3.5"; "3.6"]) = true /\
  Forall (fun c => In c sup30_50) (versions ["3.5"; "3.6"]) /\
  last (versions ["3.5"; "3.6"]) JUndefined <> latest sup30_50 /\
  jsGe (parseFloat (hd JUndefined (versions ["3.5"; "3.6"])))
       (parseFloat (specEffectiveMinimum sup30_50 (JStr "3.4"))) = true /\
  planRanges sup30_50 "/dt/types/foo" (JStr "3.4") (versions ["3.5"; "3.6"])
  = ([mkTestCall "/dt/types/foo/ts3.5" (JStr "3.4") (JStr "3.5") false
                 JUndefined false;
      mkTestCall "/dt/types/foo/ts3.6" (JStr "3.6") (JStr "3.6") false
                 JUndefined false;
      mkTestCall "/dt/types/foo" (JStr "3.7") (JStr "5.0") false
                 JUndefined true],
     Ok tt).
Proof.
  assert (Hmem : Forall (fun c => In c sup30_50) (versions ["3.5"; "3.6"])).
  { repeat constructor; simpl; tauto. }
  assert (Hne : versions ["3.5"; "3.6"] <> []) by discriminate.
  assert (Hlast : last (versions ["3.5"; "3.6"]) JUndefined <> latest sup30_50)
    by discriminate.
  split; [reflexivity|]. split; [exact Hne|]. split; [reflexivity|].
  split; [exact Hmem|]. split; [exact Hlast|]. split; [reflexivity|].
  exact (proj1 (plan_of_increasing_cutoffs sup30_50 "/dt/types/foo"
                  (JStr "3.4") (versions ["3.5"; "3.6"]) eq_refl Hne eq_refl
                  Hmem Hlast eq_refl)).
Defined.

(** The example of the specification: no declared minimum, cutoffs 3.2 and
    3.6. *)
Example plan_of_the_specification_example :
  planRanges sup30_50 "/dt/types/foo" JUndefined (versions ["3.2"; "3.6"])
  = ([mkTestCall "/dt/types/foo/ts3.2" (JStr "3.0") (JStr "3.2") false
                 JUndefined false;
      mkTestCall "/dt/types/foo/ts3.6" (JStr "3.3") (JStr "3.6") false
                 JUndefined false;
      mkTestCall "/dt/types/foo" (JStr "3.7") (JStr "5.0") false
                 JUndefined true],
     Ok tt).
Proof. reflexivity. Qed.

(** C1 as stated fails: the cutoffs below increase strictly and are
    supported versions, yet the declared minimum 3.4 lies above the first
    of them, the first range fails its assertion and no range is planned. *)
Lemma plan_with_minimum_above_first_cutoff :
  versions ["3.2"; "3.6"] <> [] /\
  strictlyIncreasing (versions ["3.2"; "3.6"]) = true /\
  Forall (fun c => In c sup30_50) (versions ["3.2"; "3.6"]) /\
  planRanges sup30_50 "/dt/types/foo" (JStr "3.4") (versions ["3.2"; "3.6"])
  = ([], Throw (AssertionError
                  (Some (skipMessage (JStr "3.4") (JStr "3.2"))))) /\
  ~ planFollowsSpec sup30_50 "/dt/types/foo" (JStr "3.4")
                    (versions ["3.2"; "3.6"]).
Proof.
  split; [discriminate|]. split; [reflexivity|].
  split; [repeat constructor; simpl; tauto|].
  split; [reflexivity|].
  unfold planFollowsSpec. intros H.
  assert (E : planRanges sup30_50 "/dt/types/foo" (JStr "3.4")
                         (versions ["3.2"; "3.6"])
              = ([], Throw (AssertionError
                              (Some (skipMessage (JStr "3.4") (JStr "3.2"))))))
    by reflexivity.
  rewrite E in H. discriminate H.
Qed.

(** A cutoff at the latest supported version: [next] returns undefined for
    it, the range of the cutoff is taken for the latest range and checked in
    the package root, and the range after it fails its assertion on the
    undefined low. *)
Example plan_with_cutoff_at_latest :
  planRanges sup30_50 "/dt/types/foo" JUndefined (versions ["5.0"])
  = ([mkTestCall "/dt/types/foo" (JStr "3.0") (JStr "5.0") false JUndefined
                 true],
     Throw (AssertionError (Some (skipMessage (JStr "3.0") (JStr "5.0"))))).
Proof. reflexivity. Qed.

(** ** When the assertions are made *)

Section LoopStops.

Variables (supported : list JsVal) (env : Env).
Variables (dir : string) (expOnly : bool) (minVersion : JsVal).
Variables (lows his : list JsVal).

(** When the loop throws, it does so at the first range [k] that fails its
    assertion or its check: in the first case the ranges before [k] have
    been dispatched, in the second the ranges up to [k]. *)
Lemma forFrom_throws (fuel : nat) :
  forall i tr e,
    snd (forFrom fuel i
           (rangeBody supported env dir expOnly minVersion lows his) tr)
    = Throw e ->
    exists k,
      (i <= k < i + fuel)%nat /\
      (forall j, (i <= j < k)%nat -> rangeOk minVersion lows his j = true) /\
      ((rangeOk minVersion lows his k = false /\
        testCalls (fst (forFrom fuel i
                          (rangeBody supported env dir expOnly minVersion
                                     lows his) tr))
        = testCalls tr
          ++ map (rangeAt supported dir expOnly minVersion lows his)
                 (seq i (k - i)))
       \/
       (checkOutcome env (rangeAt supported dir expOnly minVersion lows his k)
        = Throw e /\
        testCalls (fst (forFrom fuel i
                          (rangeBody supported env dir expOnly minVersion
                                     lows his) tr))
        = testCalls tr
          ++ map (rangeAt supported dir expOnly minVersion lows his)
                 (seq i (S k - i)))).
Proof.
  induction fuel as [|fuel IH]; intros i tr e H; [discriminate H|].
  cbn [forFrom] in *. unfold bind in *. rewrite rangeBody_eq in *.
  destruct (rangeOk minVersion lows his i) eqn:Hok.
  - destruct (checkOutcome env
                (rangeAt supported dir expOnly minVersion lows his i))
      as [[]|e'] eqn:Hc.
    + destruct (IH (S i) _ e H) as (k & Hk & Hbefore & Hcase).
      exists k. split; [lia|]. split.
      { intros j Hj. destruct (Nat.eq_dec j i) as [->|Hne];
          [exact Hok | apply Hbefore; lia]. }
      destruct Hcase as [[Hbad Htr]|[Hthrow Htr]];
        rewrite testCalls_app, testCalls_rangeEvents, <- app_assoc in Htr;
        [left|right]; (split; [assumption|]); rewrite Htr; f_equal.
      * replace (k - i)%nat with (S (k - S i)) by lia. reflexivity.
      * replace (S k - i)%nat with (S (S k - S i)) by lia. reflexivity.
    + cbn [snd fst] in *. injection H as <-.
      exists i. split; [lia|]. split; [intros j Hj; lia|].
      right. split; [exact Hc|].
      rewrite testCalls_app, testCalls_rangeEvents.
      replace (S i - i)%nat with 1%nat by lia. reflexivity.
  - exists i. split; [lia|]. split; [intros j Hj; lia|].
    left. split; [exact Hok|]. cbn [fst].
    rewrite Nat.sub_diag. simpl. now rewrite app_nil_r.
Qed.

End LoopStops.

Lemma strictlyIncreasing_app_l (l r : list JsVal) :
  strictlyIncreasing (l ++ r) = true -> strictlyIncreasing l = true.
Proof.
  induction l as [|x l IH]; intros H; [reflexivity|].
  destruct l as [|y l']; [reflexivity|].
  change (jsGt (parseFloat y) (parseFloat x)
          && strictlyIncreasing ((y :: l') ++ r) = true) in H.
  apply andb_prop in H. destruct H as [H1 H2].
  change (jsGt (parseFloat y) (parseFloat x)
          && strictlyIncreasing (y :: l') = true).
  rewrite H1. simpl andb. now apply IH.
Qed.

Lemma strictlyIncreasing_below_last (l : list JsVal) (z x : JsVal) :
  strictlyIncreasing (l ++ [z]) = true -> In x l ->
  jsGt (parseFloat z) (parseFloat x) = true.
Proof.
  induction l as [|y l IH]; intros H Hin; [contradiction|].
  change ((y :: l) ++ [z]) with (y :: (l ++ [z])) in H.
  destruct Hin as [->|Hin].
  - pose proof (strictlyIncreasing_head _ _ H) as Hall.
    rewrite Forall_forall in Hall. apply Hall.
    apply in_or_app. right. now left.
  - apply IH; [|exact Hin]. exact (strictlyIncreasing_tail _ _ H).
Qed.

(** In an ascending list nothing follows the latest version: [next] finds
    it at the last index and reads one entry past the end. *)
Lemma successor_latest (l : list JsVal) :
  strictlyIncreasing l = true -> successor l (latest l) = JUndefined.
Proof.
  intros Hs. destruct l as [|x0 l0] eqn:El; [reflexivity|].
  rewrite <- El in *.
  assert (Hne : l <> []) by (rewrite El; discriminate).
  destruct (exists_last Hne) as (pre & z & Ez).
  rewrite Ez in *. rewrite latest_last, last_last.
  apply successor_last. intros Hin.
  pose proof (strictlyIncreasing_below_last _ _ _ Hs Hin) as G.
  rewrite jsGt_irrefl in G. discriminate.
Qed.

(** For an ascending supported list and strictly increasing cutoffs that
    are supported versions and do not end at the latest one, only the
    first range can fail the assertion of lines 164-167. *)
Lemma only_first_range_can_fail (supported : list JsVal) (minimum : JsVal)
    (cutoffs : list JsVal) :
  strictlyIncreasing supported = true ->
  strictlyIncreasing cutoffs = true ->
  Forall (fun c => In c supported) cutoffs ->
  last cutoffs JUndefined <> latest supported ->
  rangeOk (effectiveMinimum supported minimum) (planLows supported cutoffs)
          (planHis supported cutoffs) 0 = true ->
  forall i, (i <= List.length cutoffs)%nat ->
    rangeOk (effectiveMinimum supported minimum) (planLows supported cutoffs)
            (planHis supported cutoffs) i = true.
Proof.
  intros Hsup Hinc Hmem Hlast H0 i Hi.
  destruct cutoffs as [|c1 cs].
  - replace i with 0%nat by (simpl in Hi; lia). exact H0.
  - assert (Hmin : jsGe (parseFloat (hd JUndefined (c1 :: cs)))
                        (parseFloat (effectiveMinimum supported minimum))
                   = true).
    { unfold rangeOk, rangeHi, rangeLow, planLows, planHis in H0.
      simpl nth in H0. simpl hd. unfold effectiveMinimum in *.
      now rewrite maxVersion_idem in H0. }
    apply (increasing_cutoffs_ranges supported EmptyString minimum (c1 :: cs));
      try assumption. discriminate.
Qed.

(** With a cutoff at the latest version put after the cutoffs [cs], the
    ranges up to that of the new cutoff are those of [cs]. *)
Lemma rangeOk_before_latest_cutoff (supported : list JsVal) (minV : JsVal)
    (cs : list JsVal) (i : nat) :
  (i <= List.length cs)%nat ->
  rangeOk minV (planLows supported (cs ++ [latest supported]))
          (planHis supported (cs ++ [latest supported])) i
  = rangeOk minV (planLows supported cs) (planHis supported cs) i.
Proof.
  intros Hi. unfold rangeOk, rangeLow, rangeHi, planLows, planHis.
  rewrite map_app, app_comm_cons.
  rewrite (app_nth1 (lowest supported :: map (successor supported) cs))
    by (simpl; rewrite length_map; lia).
  rewrite (app_nth1 (cs ++ [latest supported]))
    by (rewrite length_app; simpl; lia).
  reflexivity.
Qed.

(** A strictly increasing list of supported cutoffs that ends at the
    latest version, the first cutoff not being below the value of
    [minVersion]: every range up to that of the last cutoff passes its
    assertion, and the range after it fails on the undefined low. *)
Lemma ranges_with_cutoff_at_latest (supported : list JsVal) (minimum : JsVal)
    (cs : list JsVal) :
  strictlyIncreasing supported = true ->
  strictlyIncreasing (cs ++ [latest supported]) = true ->
  Forall (fun c => In c supported) (cs ++ [latest supported]) ->
  jsGe (parseFloat (hd JUndefined (cs ++ [latest supported])))
       (parseFloat (effectiveMinimum supported minimum)) = true ->
  (forall i, (i <= List.length cs)%nat ->
     rangeOk (effectiveMinimum supported minimum)
             (planLows supported (cs ++ [latest supported]))
             (planHis supported (cs ++ [latest supported])) i = true) /\
  rangeOk (effectiveMinimum supported minimum)
          (planLows supported (cs ++ [latest supported]))
          (planHis supported (cs ++ [latest supported]))
          (S (List.length cs)) = false /\
  rangeHi (planHis supported (cs ++ [latest supported])) (List.length cs)
  = latest supported /\
  rangeHi (planHis supported (cs ++ [latest supported])) (S (List.length cs))
  = latest supported.
Proof.
  intros Hsup Hinc Hmem Hmin.
  assert (Hhi : forall k, (List.length cs <= k <= S (List.length cs))%nat ->
            rangeHi (planHis supported (cs ++ [latest supported])) k
            = latest supported).
  { intros k Hk. unfold rangeHi, planHis. rewrite <- app_assoc.
    rewrite app_nth2 by lia.
    destruct (k - List.length cs)%nat as [|[|m]] eqn:E; [reflexivity ..|lia]. }
  split; [|split; [|split; apply Hhi; lia]].
  - intros i Hi. rewrite rangeOk_before_latest_cutoff by exact Hi.
    apply Forall_app in Hmem. destruct Hmem as [Hmem _].
    destruct cs as [|c1 cs'].
    + replace i with 0%nat by (simpl in Hi; lia).
      unfold rangeOk, rangeLow, rangeHi, planLows, planHis. simpl nth.
      unfold effectiveMinimum in *. rewrite maxVersion_idem. exact Hmin.
    + apply only_first_range_can_fail; try assumption.
      * now apply strictlyIncreasing_app_l in Hinc.
      * intros E.
        assert (Hin : In (last (c1 :: cs') JUndefined) (c1 :: cs')).
        { rewrite <- latest_last. apply latest_member. discriminate. }
        pose proof (strictlyIncreasing_below_last _ _ _ Hinc Hin) as G.
        rewrite E, jsGt_irrefl in G. discriminate.
      * unfold rangeOk, rangeLow, rangeHi, planLows, planHis. simpl nth.
        unfold effectiveMinimum in *. rewrite maxVersion_idem. exact Hmin.
  - unfold rangeOk, rangeLow.
    assert (Elow : nth (S (List.length cs))
                       (planLows supported (cs ++ [latest supported]))
                       JUndefined = JUndefined).
    { unfold planLows. rewrite map_app. simpl nth.
      rewrite app_nth2 by (rewrite length_map; lia).
      rewrite length_map, Nat.sub_diag. simpl.
      now apply successor_latest. }
    rewrite Elow. unfold maxVersion.
    change (parseFloat JUndefined) with NaN.
    rewrite jsGe_NaN_r. apply jsGe_NaN_r.
Qed.

(** C8 (a defect of the code). For an ascending supported list and a
    strictly increasing cutoff list, when the last cutoff is not the latest
    supported version the claim holds: an error that is not the answer of a
    dispatched check comes before any check.  When the last cutoff is the
    latest supported version (every cutoff being supported and the first
    one not below the effective minimum), [next] raises no error for it
    (C4), the checks of all the cutoff ranges are dispatched, the last of
    them in the package root as the latest range, and only then does the
    assertion of lines 164-167 fail, on the undefined low of the range that
    follows: a configuration error after a partial validation. *)
Theorem cutoff_at_latest_fails_after_checks (supported : list JsVal)
    (env : Env) (a : Args) :
  strictlyIncreasing supported = true ->
  strictlyIncreasing (typesVersions a) = true ->
  (last (typesVersions a) JUndefined <> latest supported ->
   noCheckBeforeConfigurationError supported env a) /\
  (rangeMode a ->
   typesVersions a <> [] ->
   last (typesVersions a) JUndefined = latest supported ->
   Forall (fun c => In c supported) (typesVersions a) ->
   jsGe (parseFloat (hd JUndefined (typesVersions a)))
        (parseFloat (effectiveMinimum supported
                       (minimumTypeScriptVersion (packageJson a)))) = true ->
   (forall c, checkOutcome env c = Ok tt) ->
   snd (testPhase supported env a [])
   = Throw (AssertionError
              (Some (skipMessage
                       (effectiveMinimum supported
                          (minimumTypeScriptVersion (packageJson a)))
                       (latest supported)))) /\
   List.length (testCalls (fst (testPhase supported env a [])))
   = List.length (typesVersions a) /\
   (exists earlier low,
      testCalls (fst (testPhase supported env a []))
      = earlier ++ [mkTestCall (dirPath a) low (latest supported)
                               (expectOnly a) JUndefined true]) /\
   ~ noCheckBeforeConfigurationError supported env a).
Proof.
  intros Hsup Hinc. split.
  - (* no cutoff at the latest version *)
    intros Hlast e He Hall.
    destruct (onlyTestTsNext a || truthy (tsLocal a))%bool eqn:Emode.
    { exfalso. unfold testPhase in He, Hall.
      rewrite Emode, testTypesVersion_eq in He, Hall.
      cbn [fst snd testCalls app] in He, Hall.
      inversion Hall as [|? ? Hc _]; subst. congruence. }
    apply orb_false_elim in Emode.
    destruct (mapResult (next supported) (typesVersions a)) as [lows'|err]
      eqn:Hm.
    2:{ now rewrite (testPhase_lookup_throws _ _ _ _ _ Emode Hm). }
    pose proof (mapResult_next_ok_members _ _ _ Hm) as Hmem.
    rewrite (testPhase_members supported env a Emode Hmem) in *.
    destruct (forFrom_throws _ _ _ _ _ _ _ _ _ _ _ He)
      as (k & Hk & Hbefore & [[Hbad Htr]|[Hthrow Htr]]); rewrite Htr in *.
    + destruct k as [|k]; [reflexivity|]. exfalso.
      assert (H0 : rangeOk
                     (effectiveMinimum supported
                        (minimumTypeScriptVersion (packageJson a)))
                     (planLows supported (typesVersions a))
                     (planHis supported (typesVersions a)) 0 = true)
        by (apply Hbefore; lia).
      rewrite (only_first_range_can_fail supported _ _ Hsup Hinc Hmem Hlast H0)
        in Hbad by lia.
      discriminate.
    + exfalso. cbn [testCalls app] in Hall.
      rewrite Forall_forall in Hall.
      rewrite Hall in Hthrow; [discriminate|].
      apply in_map. apply in_seq. lia.
  - (* a cutoff at the latest version *)
    intros Hmode Hne Hlast Hmem Hmin Hchecks.
    pose proof (app_removelast_last JUndefined Hne) as Etv.
    rewrite Hlast in Etv.
    set (cs := removelast (typesVersions a)) in *.
    assert (Hlen : List.length (typesVersions a) = S (List.length cs)).
    { rewrite Etv, length_app. simpl. lia. }
    destruct (ranges_with_cutoff_at_latest supported
                (minimumTypeScriptVersion (packageJson a)) cs Hsup)
      as (Hok & Hbad & Hhi_last & Hhi_after);
      try (rewrite <- Etv; assumption).
    rewrite <- Etv in Hok, Hbad, Hhi_last, Hhi_after.
    assert (E : testPhase supported env a []
                = (flat_map
                     (rangeEvents supported (dirPath a) (expectOnly a)
                        (effectiveMinimum supported
                           (minimumTypeScriptVersion (packageJson a)))
                        (planLows supported (typesVersions a))
                        (planHis supported (typesVersions a)))
                     (seq 0 (S (List.length cs))),
                   Throw (AssertionError
                            (Some (skipMessage
                                     (effectiveMinimum supported
                                        (minimumTypeScriptVersion
                                           (packageJson a)))
                                     (latest supported)))))).
    { rewrite <- Hhi_after.
      apply (testPhase_stops_at supported env a Hmode Hmem
               (S (List.length cs))); [lia | | exact Hbad].
      intros i Hi. split; [apply Hok; lia | apply Hchecks]. }
    assert (Ecalls : testCalls (fst (testPhase supported env a []))
                     = map (rangeAt supported (dirPath a) (expectOnly a)
                              (effectiveMinimum supported
                                 (minimumTypeScriptVersion (packageJson a)))
                              (planLows supported (typesVersions a))
                              (planHis supported (typesVersions a)))
                           (seq 0 (S (List.length cs)))).
    { rewrite E. cbn [fst]. apply testCalls_flat_rangeEvents. }
    assert (Hcount : List.length (testCalls (fst (testPhase supported env a [])))
                     = List.length (typesVersions a)).
    { now rewrite Ecalls, length_map, length_seq, Hlen. }
    split; [now rewrite E|]. split; [exact Hcount|]. split.
    + rewrite Ecalls, seq_S, map_app. simpl map at 2.
      eexists _, _. f_equal. f_equal.
      unfold rangeAt, rangePath. simpl plus.
      rewrite Hhi_last, strictEq_refl. reflexivity.
    + intros Hclaim.
      specialize (Hclaim _ ltac:(rewrite E; reflexivity)).
      rewrite Hclaim in Hcount; [simpl in Hcount; lia|].
      apply Forall_forall. intros c _. apply Hchecks.
Qed.

Lemma cutoff_at_latest_fails_after_checks_witness :
  let a := planArgs "/dt/types/foo" JUndefined (versions ["3.6"; "5.0"]) in
  strictlyIncreasing sup30_50 = true /\
  strictlyIncreasing (typesVersions a) = true /\
  rangeMode a /\
  typesVersions a <> [] /\
  last (typesVersions a) JUndefined = latest sup30_50 /\
  Forall (fun c => In c sup30_50) (typesVersions a) /\
  testPhase sup30_50 quietEnv a []
  = ([ConsoleLog [JStr "testing from"; JStr "3.0"; JStr "to"; JStr "3.6";
                  JStr "in"; JStr "/dt/types/foo/ts3.6"];
      TestTypesVersion (mkTestCall "/dt/types/foo/ts3.6" (JStr "3.0")
                                   (JStr "3.6") false JUndefined false);
      ConsoleLog [JStr "testing from"; JStr "3.7"; JStr "to"; JStr "5.0";
                  JStr "in"; JStr "/dt/types/foo"];
      TestTypesVersion (mkTestCall "/dt/types/foo" (JStr "3.7")
                                   (JStr "5.0") false JUndefined true)],
     Throw (AssertionError (Some (skipMessage (JStr "3.0") (JStr "5.0"))))) /\
  ~ noCheckBeforeConfigurationError sup30_50 quietEnv a.
Proof.
  intros a.
  assert (Hmode : rangeMode a) by (split; reflexivity).
  assert (Hne : typesVersions a <> []) by discriminate.
  assert (Hmem : Forall (fun c => In c sup30_50) (typesVersions a)).
  { repeat constructor; simpl; tauto. }
  split; [reflexivity|]. split; [reflexivity|]. split; [exact Hmode|].
  split; [exact Hne|]. split; [reflexivity|]. split; [exact Hmem|].
  split; [reflexivity|].
  exact (proj2 (proj2 (proj2
           (proj2 (cutoff_at_latest_fails_after_checks sup30_50 quietEnv a
                     eq_refl eq_refl)
                  Hmode Hne eq_refl Hmem eq_refl (fun c => eq_refl))))).
Defined.

(** ** The compatibility check *)

Lemma attwCalls_app (t1 t2 : Trace) :
  attwCalls (t1 ++ t2) = attwCalls t1 ++ attwCalls t2.
Proof.
  induction t1 as [|ev t1 IH]; simpl; [reflexivity|].
  destruct ev; simpl; now rewrite IH.
Qed.

(** The checks of lines 149-175 never call the compatibility checker. *)
Lemma testPhase_no_attw (supported : list JsVal) (env : Env) (a : Args) :
  attwCalls (fst (testPhase supported env a [])) = [].
Proof.
  unfold testPhase.
  destruct (onlyTestTsNext a || truthy (tsLocal a))%bool.
  - rewrite testTypesVersion_eq. reflexivity.
  - munfold.
    destruct (mapResult (next supported) (typesVersions a)) as [lows'|e];
      [|reflexivity].
    destruct (List.length (lowest supported :: lows')
              =? List.length (typesVersions a ++ [latest supported]))%nat;
      [|reflexivity].
    apply (forFrom_invariant (fun tr => attwCalls tr = [])); [|reflexivity].
    intros i tr Htr. rewrite rangeBody_eq.
    destruct (rangeOk _ _ _ i); simpl; [|exact Htr].
    rewrite attwCalls_app, Htr. unfold rangeEvents.
    destruct (1 <? List.length (lowest supported :: lows'))%nat; reflexivity.
Qed.

(** C10. When package.json sets [nonNpm], [runTests] makes the checks of
    lines 149-175 and nothing else: it ends as they end, returning undefined
    when they succeed; the compatibility checker is not called; and the
    outcome does not depend on the allow-list or on what the checker would
    answer. *)
Theorem nonNpm_skips_attw (supported : list JsVal) (env : Env) (a : Args) :
  truthy (nonNpm (packageJson a)) = true ->
  runTests supported env a []
  = (fst (testPhase supported env a []),
     rbind (snd (testPhase supported env a [])) (fun _ => Ok JUndefined)) /\
  attwCalls (fst (runTests supported env a [])) = [] /\
  (forall failingPackages attw,
     runTests supported
              (mkEnv (checkTslintJson env) (checkTsconfig env) (lint env)
                     failingPackages attw) a []
     = runTests supported env a []).
Proof.
  intros Hnpm.
  assert (E : forall env', runTests supported env' a []
              = (fst (testPhase supported env' a []),
                 rbind (snd (testPhase supported env' a []))
                       (fun _ => Ok JUndefined))).
  { intros env'. unfold runTests, bind, attwPhase. rewrite Hnpm. simpl negb.
    destruct (testPhase supported env' a []) as [tr [[]|e]]; reflexivity. }
  split; [apply E|]. split.
  - rewrite E. simpl fst. apply testPhase_no_attw.
  - intros fp attw. rewrite !E. reflexivity.
Qed.

Lemma nonNpm_skips_attw_witness :
  truthy (nonNpm (packageJson (fooArgs (JBool true)))) = true /\
  runTests sup30_50 (attwEnv (Some []) "raw output" "fail")
           (fooArgs (JBool true)) []
  = ([TestTypesVersion (mkTestCall "/dt/types/foo" (JStr "3.0") (JStr "5.0")
                                   false JUndefined true)],
     Ok JUndefined).
Proof.
  split; [reflexivity|].
  exact (proj1 (nonNpm_skips_attw sup30_50
                  (attwEnv (Some []) "raw output" "fail")
                  (fooArgs (JBool true)) eq_refl)).
Defined.

(** C9. When attw.json has no [failingPackages] (undefined or null), the
    expectation is undefined, no case of the switch matches, and for every
    status and output of the checker [runTests] returns undefined once the
    checks of lines 149-175 have succeeded. *)
Theorem absent_allow_list_accepts (supported : list JsVal) (env : Env)
    (a : Args) :
  truthy (nonNpm (packageJson a)) = false ->
  readFailingPackages env (joinPaths (dtRoot a) "attw.json") = None ->
  (forall dirName output status,
     reconcile JUndefined dirName output status = Ok JUndefined) /\
  (forall tr,
     attwPhase env a tr
     = (tr ++ [RunAttw (dirPath a) (joinPaths (dtRoot a) "attw.json")],
        Ok JUndefined)) /\
  (forall tr,
     testPhase supported env a [] = (tr, Ok tt) ->
     runTests supported env a []
     = (tr ++ [RunAttw (dirPath a) (joinPaths (dtRoot a) "attw.json")],
        Ok JUndefined)).
Proof.
  intros Hnpm Hfp.
  assert (Hrec : forall dirName output status,
             reconcile JUndefined dirName output status = Ok JUndefined)
    by reflexivity.
  assert (Hattw : forall tr,
     attwPhase env a tr
     = (tr ++ [RunAttw (dirPath a) (joinPaths (dtRoot a) "attw.json")],
        Ok JUndefined)).
  { intros tr. unfold attwPhase. rewrite Hnpm, Hfp. simpl negb. munfold.
    destruct (runAreTheTypesWrong env (dirPath a)
                (joinPaths (dtRoot a) "attw.json")) as [output status].
    now rewrite Hrec. }
  split; [exact Hrec|]. split; [exact Hattw|].
  intros tr Htest. unfold runTests, bind. rewrite Htest. apply Hattw.
Qed.

Lemma absent_allow_list_accepts_witness :
  truthy (nonNpm (packageJson (fooArgs JUndefined))) = false /\
  readFailingPackages (attwEnv None "raw output" "fail")
                      (joinPaths (dtRoot (fooArgs JUndefined)) "attw.json")
  = None /\
  runTests sup30_50 (attwEnv None "raw output" "fail") (fooArgs JUndefined) []
  = ([TestTypesVersion (mkTestCall "/dt/types/foo" (JStr "3.0") (JStr "5.0")
                                   false JUndefined true);
      RunAttw "/dt/types/foo" "/dt/attw.json"],
     Ok JUndefined).
Proof.
  split; [reflexivity|]. split; [reflexivity|].
  exact (proj2 (proj2 (absent_allow_list_accepts sup30_50
                         (attwEnv None "raw output" "fail")
                         (fooArgs JUndefined) eq_refl eq_refl))
               _ eq_refl).
Defined.

(** * The rest of index.ts: properties *)

Example dirname_examples :
  dirname "/dt/types/foo" = "/dt/types" /\ dirname "/dt/types/foo/" = "/dt/types"
  /\ dirname "foo" = "." /\ dirname "/foo" = "/" /\ dirname "//foo" = "//"
  /\ dirname "a//b" = "a/" /\ dirname EmptyString = "." /\ dirname "/" = "/".
Proof. repeat split; reflexivity. Qed.

Example basename_examples :
  basename "/dt/types/foo" = "foo" /\ basename "/dt/types/foo/" = "foo"
  /\ basename "foo" = "foo" /\ basename "//" = EmptyString
  /\ basename EmptyString = EmptyString.
Proof. repeat split; reflexivity. Qed.

Example findDTRoot_examples :
  findDTRoot "/dt/types/foo" = "/dt" /\ findDTRoot "/dt/types/foo/v2" = "/dt"
  /\ findDTRoot "/a/b/c" = "/" /\ findDTRoot "a/b" = "."
  /\ findDTRoot "/a/types/b/types/c" = "/a/types/b"
  /\ findDTRoot "/types/foo" = "/".
Proof. repeat split; reflexivity. Qed.

Example testDownload_examples :
  testDownload "download" = true /\ testDownload "downloadjs" = false
  /\ testDownload "s3-download-stream" = true
  /\ testDownload "react-download" = true /\ testDownload "downloader" = false
  /\ testDownload "my_download" = false /\ testDownload "a.download.b" = true.
Proof. repeat split; reflexivity. Qed.

(** ** Strings as lists of characters *)

Lemma chars_append (a b : string) :
  list_ascii_of_string (a +++ b)
  = list_ascii_of_string a ++ list_ascii_of_string b.
Proof. induction a as [|c a IH]; simpl; [reflexivity | now rewrite IH]. Qed.

Lemma chars_length (s : string) :
  List.length (list_ascii_of_string s) = String.length s.
Proof. induction s as [|c s IH]; simpl; [reflexivity | now rewrite IH]. Qed.

Lemma string_of_chars_length (l : list ascii) :
  String.length (string_of_list_ascii l) = List.length l.
Proof. induction l as [|c l IH]; simpl; [reflexivity | now rewrite IH]. Qed.

Lemma string_of_chars_app (l1 l2 : list ascii) :
  string_of_list_ascii (l1 ++ l2)
  = string_of_list_ascii l1 +++ string_of_list_ascii l2.
Proof. induction l1 as [|c l IH]; simpl; [reflexivity | now rewrite IH]. Qed.

Lemma length_append (a b : string) :
  String.length (a +++ b) = (String.length a + String.length b)%nat.
Proof. induction a as [|c a IH]; simpl; [reflexivity | now rewrite IH]. Qed.

Lemma sliceFrom_append (a b : string) :
  sliceFrom (String.length a) (a +++ b) = b.
Proof.
  unfold sliceFrom. rewrite length_append.
  replace (String.length a + String.length b - String.length a)%nat
    with (String.length b) by lia.
  induction a as [|c a IH]; simpl.
  - induction b as [|d b IHb]; simpl; [reflexivity | now rewrite IHb].
  - exact IH.
Qed.

(** ** [dropWhile] and [takeWhile] *)

Lemma dropWhile_length {A} (p : A -> bool) (l : list A) :
  (List.length (dropWhile p l) <= List.length l)%nat.
Proof.
  induction l as [|x l IH]; simpl; [lia|].
  destruct (p x); simpl; lia.
Qed.

Lemma dropWhile_all {A} (p : A -> bool) (l r : list A) :
  forallb p l = true -> dropWhile p (l ++ r) = dropWhile p r.
Proof.
  induction l as [|x l IH]; simpl; [reflexivity|].
  intros H. apply andb_prop in H. destruct H as [Hx Hl].
  rewrite Hx. now apply IH.
Qed.

Lemma takeWhile_all {A} (p : A -> bool) (l r : list A) :
  forallb p l = true -> takeWhile p (l ++ r) = l ++ takeWhile p r.
Proof.
  induction l as [|x l IH]; simpl; [reflexivity|].
  intros H. apply andb_prop in H. destruct H as [Hx Hl].
  rewrite Hx. now rewrite IH.
Qed.

Lemma forallb_rev {A} (p : A -> bool) (l : list A) :
  forallb p (rev l) = forallb p l.
Proof.
  induction l as [|x l IH]; simpl; [reflexivity|].
  rewrite forallb_app, IH. simpl. rewrite andb_true_r. apply andb_comm.
Qed.

(** A run of characters other than [/], not empty, is not touched when
    slashes are dropped from its front. *)
Lemma dropWhile_isSlash_run (s r : list ascii) :
  s <> [] -> forallb notSlash s = true ->
  dropWhile isSlash (s ++ r) = s ++ r.
Proof.
  destruct s as [|c s]; [congruence|]. intros _ H. simpl in *.
  apply andb_prop in H. destruct H as [Hc _].
  unfold notSlash in Hc. apply negb_true_iff in Hc. now rewrite Hc.
Qed.

(** ** [basename] and [dirname] of a path that ends in a segment *)

Lemma basenameChars_segment (p seg : list ascii) :
  seg <> [] -> forallb notSlash seg = true ->
  basenameChars (p ++ "/"%char :: seg) = seg.
Proof.
  intros Hne Hseg. unfold basenameChars.
  rewrite rev_app_distr. simpl rev. rewrite <- app_assoc. simpl app.
  assert (Hr : forallb notSlash (rev seg) = true) by now rewrite forallb_rev.
  assert (Hrne : rev seg <> []).
  { intros E. apply Hne. apply (f_equal (@rev ascii)) in E.
    now rewrite rev_involutive in E. }
  rewrite (dropWhile_isSlash_run _ _ Hrne Hr).
  rewrite (takeWhile_all _ _ _ Hr). simpl takeWhile.
  now rewrite app_nil_r, rev_involutive.
Qed.

Lemma basenameChars_single (seg : list ascii) :
  forallb notSlash seg = true -> basenameChars seg = seg.
Proof.
  intros Hseg. unfold basenameChars.
  assert (Hr : forallb notSlash (rev seg) = true) by now rewrite forallb_rev.
  destruct (rev seg) as [|c r] eqn:E.
  - simpl. apply (f_equal (@rev ascii)) in E.
    rewrite rev_involutive in E. now rewrite E.
  - assert (Hd : dropWhile isSlash (c :: r) = c :: r).
    { rewrite <- (app_nil_r (c :: r)).
      apply dropWhile_isSlash_run; [discriminate | exact Hr]. }
    rewrite Hd. rewrite <- (app_nil_r (c :: r)).
    rewrite (takeWhile_all _ _ _ Hr). simpl takeWhile.
    rewrite !app_nil_r, <- E. apply rev_involutive.
Qed.

Lemma dirnameChars_segment (p seg : list ascii) :
  p <> [] -> p <> ["/"%char] ->
  seg <> [] -> forallb notSlash seg = true ->
  dirnameChars (p ++ "/"%char :: seg) = p.
Proof.
  intros Hp Hroot Hne Hseg.
  destruct p as [|c0 p']; [congruence|]. clear Hp.
  change ((c0 :: p') ++ "/"%char :: seg)
    with (c0 :: (p' ++ "/"%char :: seg)).
  unfold dirnameChars.
  rewrite rev_app_distr. simpl rev. rewrite <- app_assoc. simpl app.
  assert (Hr : forallb notSlash (rev seg) = true) by now rewrite forallb_rev.
  assert (Hrne : rev seg <> []).
  { intros E. apply Hne. apply (f_equal (@rev ascii)) in E.
    now rewrite rev_involutive in E. }
  rewrite (dropWhile_isSlash_run _ _ Hrne Hr).
  rewrite (dropWhile_all _ _ _ Hr).
  change (dropWhile notSlash ("/"%char :: rev p')) with ("/"%char :: rev p').
  cbv iota. rewrite length_rev, rev_involutive.
  destruct (isSlash c0) eqn:Ec; [|reflexivity].
  destruct p' as [|d p'']; [|reflexivity].
  exfalso. apply Hroot. unfold isSlash in Ec.
  apply Ascii.eqb_eq in Ec. now subst.
Qed.

Lemma dirnameChars_single (seg : list ascii) :
  forallb notSlash seg = true -> dirnameChars seg = ["."%char].
Proof.
  intros Hseg. destruct seg as [|c0 tl]; [reflexivity|].
  simpl in Hseg. apply andb_prop in Hseg. destruct Hseg as [Hc Htl].
  unfold dirnameChars.
  assert (Hr : forallb notSlash (rev tl) = true) by now rewrite forallb_rev.
  assert (E : dropWhile notSlash (dropWhile isSlash (rev tl)) = []).
  { destruct (rev tl) as [|c r] eqn:Er; [reflexivity|].
    rewrite <- (app_nil_r (c :: r)).
    rewrite dropWhile_isSlash_run by (discriminate || exact Hr).
    now rewrite (dropWhile_all _ _ _ Hr). }
  rewrite E. unfold notSlash in Hc. apply negb_true_iff in Hc.
  now rewrite Hc.
Qed.

Lemma dirnameChars_root_single (seg : list ascii) :
  forallb notSlash seg = true -> dirnameChars ("/"%char :: seg) = ["/"%char].
Proof.
  intros Hseg. unfold dirnameChars.
  assert (Hr : forallb notSlash (rev seg) = true) by now rewrite forallb_rev.
  assert (E : dropWhile notSlash (dropWhile isSlash (rev seg)) = []).
  { destruct (rev seg) as [|c r] eqn:Er; [reflexivity|].
    rewrite <- (app_nil_r (c :: r)).
    rewrite dropWhile_isSlash_run by (discriminate || exact Hr).
    now rewrite (dropWhile_all _ _ _ Hr). }
  rewrite E. reflexivity.
Qed.

(** [dirname] gives [.], [/], or a path shorter than its argument. *)
Lemma dirnameChars_shorter (l : list ascii) :
  dirnameChars l = ["."%char] \/ dirnameChars l = ["/"%char] \/
  (List.length (dirnameChars l) < List.length l)%nat.
Proof.
  destruct l as [|c0 tl]; [now left|]. unfold dirnameChars.
  pose proof (dropWhile_length isSlash (rev tl)) as H1.
  rewrite length_rev in H1.
  assert (H2 : dropWhile notSlash (dropWhile isSlash (rev tl)) = [] \/
               (S (List.length (dropWhile notSlash (dropWhile isSlash (rev tl))))
                <= List.length tl)%nat).
  { destruct (dropWhile isSlash (rev tl)) as [|y r] eqn:E1; [now left|].
    right.
    assert (Hy : isSlash y = false).
    { destruct (rev tl) as [|z zs]; [discriminate|].
      revert E1. clear. revert z.
      induction zs as [|w ws IH]; intros z; simpl.
      - destruct (isSlash z) eqn:Ez; [discriminate|].
        intros E. inversion E. now subst.
      - destruct (isSlash z) eqn:Ez.
        + apply IH.
        + intros E. inversion E. now subst. }
    simpl dropWhile. unfold notSlash at 1. rewrite Hy. simpl negb. cbv iota.
    pose proof (dropWhile_length notSlash r). simpl in H1. lia. }
  destruct (dropWhile notSlash (dropWhile isSlash (rev tl)))
    as [|s before] eqn:E2.
  - destruct (isSlash c0); auto.
  - right. right. destruct H2 as [H2|H2]; [discriminate|]. simpl in H2.
    destruct (isSlash c0 && (List.length before =? 0)%nat)%bool eqn:Eb;
      simpl; rewrite ?length_rev; lia.
Qed.

Lemma isSegment_chars (s : string) :
  isSegment s ->
  list_ascii_of_string s <> [] /\
  forallb notSlash (list_ascii_of_string s) = true.
Proof.
  intros [Hne Hall]. split; [|exact Hall].
  destruct s; [congruence | discriminate].
Qed.

Lemma basename_segment (p s : string) :
  isSegment s -> basename (p +++ "/" +++ s) = s.
Proof.
  intros Hs. destruct (isSegment_chars s Hs) as [Hne Hall].
  unfold basename. rewrite !chars_append. simpl app.
  rewrite basenameChars_segment by assumption.
  apply string_of_list_ascii_of_string.
Qed.

Lemma chars_nonempty (p : string) :
  p <> EmptyString -> list_ascii_of_string p <> [].
Proof. destruct p; [congruence | discriminate]. Qed.

Lemma dirname_segment (p s : string) :
  p <> EmptyString -> p <> "/" -> isSegment s ->
  dirname (p +++ "/" +++ s) = p.
Proof.
  intros Hp Hroot Hs. destruct (isSegment_chars s Hs) as [Hne Hall].
  unfold dirname. rewrite !chars_append. simpl app.
  rewrite dirnameChars_segment; try assumption.
  - apply string_of_list_ascii_of_string.
  - now apply chars_nonempty.
  - intros E. apply Hroot.
    rewrite <- (string_of_list_ascii_of_string p), E. reflexivity.
Qed.

Lemma basename_single (s : string) :
  forallb notSlash (list_ascii_of_string s) = true -> basename s = s.
Proof.
  intros H. unfold basename. rewrite basenameChars_single by exact H.
  apply string_of_list_ascii_of_string.
Qed.

Lemma dirname_single (s : string) :
  forallb notSlash (list_ascii_of_string s) = true -> dirname s = ".".
Proof.
  intros H. unfold dirname. now rewrite dirnameChars_single.
Qed.

Lemma dirname_root_single (s : string) :
  forallb notSlash (list_ascii_of_string s) = true ->
  dirname ("/" +++ s) = "/".
Proof.
  intros H. unfold dirname. simpl list_ascii_of_string.
  now rewrite dirnameChars_root_single.
Qed.

Lemma dirname_shorter (p : string) :
  dirname p = "." \/ dirname p = "/" \/
  (String.length (dirname p) < String.length p)%nat.
Proof.
  unfold dirname.
  destruct (dirnameChars_shorter (list_ascii_of_string p)) as [E|[E|H]].
  - left. now rewrite E.
  - right. left. now rewrite E.
  - right. right. now rewrite string_of_chars_length, <- chars_length.
Qed.

(** ** [findDTRoot] *)

Lemma findDTRootGoesUp_shorter (p : string) :
  findDTRootGoesUp p = true ->
  (String.length (dirname p) < String.length p)%nat.
Proof.
  unfold findDTRootGoesUp. intros H.
  apply andb_prop in H. destruct H as [H H3].
  apply andb_prop in H. destruct H as [_ H2].
  apply negb_true_iff, String.eqb_neq in H2, H3.
  destruct (dirname_shorter p) as [E|[E|Hlt]]; congruence || exact Hlt.
Qed.

Lemma findDTRootLoop_exits (fuel : nat) :
  forall p, (String.length p <= fuel)%nat ->
            exists root, findDTRootLoop fuel p = Some root.
Proof.
  induction fuel as [|fuel IH]; intros p Hlen.
  - simpl. destruct (findDTRootGoesUp p) eqn:E; [|eauto].
    apply findDTRootGoesUp_shorter in E. lia.
  - simpl. destruct (findDTRootGoesUp p) eqn:E; [|eauto].
    apply IH. apply findDTRootGoesUp_shorter in E. lia.
Qed.

Lemma findDTRootLoop_more_fuel (fuel : nat) :
  forall p root fuel',
    findDTRootLoop fuel p = Some root -> (fuel <= fuel')%nat ->
    findDTRootLoop fuel' p = Some root.
Proof.
  induction fuel as [|fuel IH]; intros p root fuel' H Hle.
  - simpl in H. destruct (findDTRootGoesUp p) eqn:E; [discriminate|].
    destruct fuel'; simpl; now rewrite E.
  - simpl in H. destruct fuel' as [|fuel']; [lia|]. simpl.
    destruct (findDTRootGoesUp p) eqn:E; [|exact H].
    apply (IH _ _ _ H). lia.
Qed.

Lemma findDTRootLoop_enough (p : string) (fuel : nat) :
  (String.length p <= fuel)%nat ->
  findDTRootLoop fuel p = Some (findDTRoot p).
Proof.
  intros Hle. unfold findDTRoot.
  destruct (findDTRootLoop_exits (String.length p) p (le_n _)) as [r Hr].
  rewrite Hr. exact (findDTRootLoop_more_fuel _ _ _ _ Hr Hle).
Qed.

(** X1. The loop of [findDTRoot] exits for every path, within as many
    rounds as the path has characters: with that much fuel or more the
    loop returns, and what it returns is [findDTRoot]. *)
Theorem findDTRoot_terminates (p : string) (fuel : nat) :
  (String.length p <= fuel)%nat ->
  exists root,
    findDTRootLoop fuel p = Some root /\ findDTRoot p = root /\
    forall more, findDTRootLoop (fuel + more) p = Some root.
Proof.
  intros Hle. exists (findDTRoot p).
  split; [now apply findDTRootLoop_enough|]. split; [reflexivity|].
  intros more. apply findDTRootLoop_enough. lia.
Qed.

Lemma findDTRoot_terminates_witness :
  (String.length "/dt/types/foo/v2" <= 16)%nat /\
  exists root,
    findDTRootLoop 16 "/dt/types/foo/v2" = Some root /\
    findDTRoot "/dt/types/foo/v2" = root /\
    forall more, findDTRootLoop (16 + more) "/dt/types/foo/v2" = Some root.
Proof.
  split; [simpl; lia|].
  exact (findDTRoot_terminates "/dt/types/foo/v2" 16 (le_n _)).
Defined.

(** One round of the loop. *)
Lemma findDTRoot_unfold (p : string) :
  findDTRoot p
  = if findDTRootGoesUp p then findDTRoot (dirname p) else dirname p.
Proof.
  destruct (findDTRootGoesUp p) eqn:E.
  - pose proof (findDTRootGoesUp_shorter p E) as Hlt.
    pose proof (findDTRootLoop_enough p (String.length p) (le_n _)) as H.
    destruct (String.length p) as [|n] eqn:En; [lia|].
    simpl in H. rewrite E in H.
    rewrite (findDTRootLoop_enough (dirname p) n) in H by lia.
    now inversion H.
  - unfold findDTRoot.
    destruct (String.length p); simpl; now rewrite E.
Qed.

Lemma joinWith_snoc (sep x : string) (l : list string) (s : string) :
  joinWith sep ((x :: l) ++ [s]) = joinWith sep (x :: l) +++ sep +++ s.
Proof.
  revert x. induction l as [|y l IH]; intros x; [reflexivity|].
  change ((x :: y :: l) ++ [s]) with (x :: ((y :: l) ++ [s])).
  change (joinWith sep (x :: (y :: l) ++ [s]))
    with (x +++ sep +++ joinWith sep ((y :: l) ++ [s])).
  rewrite IH. change (joinWith sep (x :: y :: l))
    with (x +++ sep +++ joinWith sep (y :: l)).
  now rewrite !append_assoc.
Qed.

Lemma joinWith_length (sep x : string) (l : list string) :
  (String.length x <= String.length (joinWith sep (x :: l)))%nat.
Proof.
  destruct l as [|y l]; simpl; [lia|]. rewrite length_append. lia.
Qed.

Lemma joinWith_head_char (sep : string) (c : ascii) (x : string)
    (l : list string) :
  exists r, joinWith sep (String c x :: l) = String c r.
Proof. destruct l as [|y l]; simpl; eauto. Qed.

Lemma findDTRoot_at_types (root : string) (segs : list string) :
  root <> EmptyString -> root <> "/" ->
  Forall (fun s => isSegment s /\ s <> "types") segs ->
  findDTRoot (joinWith "/" ((root +++ "/types") :: segs)) = root.
Proof.
  intros Hne Hroot.
  induction segs as [|s segs IH] using rev_ind; intros Hsegs.
  - simpl joinWith. rewrite findDTRoot_unfold.
    assert (Ht : isSegment "types") by (split; [discriminate | reflexivity]).
    change (root +++ "/types") with (root +++ "/" +++ "types").
    unfold findDTRootGoesUp.
    rewrite (basename_segment root "types" Ht). simpl.
    now apply dirname_segment.
  - apply Forall_app in Hsegs. destruct Hsegs as [Hsegs Hs].
    inversion Hs as [|? ? [Hseg Hnot] _]; subst.
    change ((root +++ "/types") :: segs ++ [s])
      with (((root +++ "/types") :: segs) ++ [s]).
    rewrite joinWith_snoc, findDTRoot_unfold.
    set (q := joinWith "/" ((root +++ "/types") :: segs)).
    assert (Hq : (6 <= String.length q)%nat).
    { pose proof (joinWith_length "/" (root +++ "/types") segs) as H.
      rewrite length_append in H.
      change (String.length "/types") with 6%nat in H. unfold q. lia. }
    assert (Hd : dirname (q +++ "/" +++ s) = q).
    { apply dirname_segment; [| |exact Hseg]; intros E; rewrite E in Hq;
        simpl in Hq; lia. }
    unfold findDTRootGoesUp. rewrite Hd, (basename_segment q s Hseg).
    apply String.eqb_neq in Hnot. rewrite Hnot.
    assert (E1 : String.eqb q "." = false).
    { apply String.eqb_neq. intros E. rewrite E in Hq. simpl in Hq. lia. }
    assert (E2 : String.eqb q "/" = false).
    { apply String.eqb_neq. intros E. rewrite E in Hq. simpl in Hq. lia. }
    rewrite E1, E2. simpl. now apply IH.
Qed.

(** X2. A path that ends in a segment named types, followed by any number
    of segments none of which is named types: [findDTRoot] returns what
    stands before that last [/types], whatever it holds (other segments
    named types included), provided it is neither empty nor the root
    directory. *)
Theorem findDTRoot_below_types (root : string) (segs : list string) :
  root <> EmptyString -> root <> "/" ->
  Forall (fun s => isSegment s /\ s <> "types") segs ->
  findDTRoot (joinWith "/" ((root +++ "/types") :: segs)) = root /\
  findDTRoot (root +++ "/types") = root.
Proof.
  intros Hne Hroot Hsegs. split.
  - now apply findDTRoot_at_types.
  - exact (findDTRoot_at_types root [] Hne Hroot (Forall_nil _)).
Qed.

Lemma findDTRoot_below_types_witness :
  "/home/me/types/DefinitelyTyped" <> EmptyString /\
  "/home/me/types/DefinitelyTyped" <> "/" /\
  Forall (fun s => isSegment s /\ s <> "types") ["node"; "v18"] /\
  findDTRoot "/home/me/types/DefinitelyTyped/types/node/v18"
  = "/home/me/types/DefinitelyTyped".
Proof.
  assert (H : Forall (fun s => isSegment s /\ s <> "types") ["node"; "v18"]).
  { repeat constructor; discriminate. }
  split; [discriminate|]. split; [discriminate|]. split; [exact H|].
  exact (proj1 (findDTRoot_below_types "/home/me/types/DefinitelyTyped"
                  ["node"; "v18"] ltac:(discriminate) ltac:(discriminate) H)).
Defined.

Lemma joinWith_first_char (c : ascii) (x : string) (l : list string) :
  exists r, joinWith "/" (String c x :: l) = String c r.
Proof. destruct l as [|y l]; simpl; eauto. Qed.

(** X3. A path of segments none of which is named types: [findDTRoot]
    climbs to the top and returns [.] for a relative path and [/] for an
    absolute one. *)
Theorem findDTRoot_without_types (s0 : string) (segs : list string) :
  Forall (fun s => isSegment s /\ s <> "types") (s0 :: segs) ->
  findDTRoot (joinWith "/" (s0 :: segs)) = "." /\
  findDTRoot ("/" +++ joinWith "/" (s0 :: segs)) = "/".
Proof.
  induction segs as [|s segs IH] using rev_ind; intros Hall.
  - inversion Hall as [|? ? [Hseg Hnot] _]; subst.
    destruct (isSegment_chars s0 Hseg) as [_ Hchars].
    apply String.eqb_neq in Hnot. simpl joinWith. split.
    + rewrite findDTRoot_unfold. unfold findDTRootGoesUp.
      rewrite (dirname_single s0 Hchars). simpl.
      now rewrite andb_false_r.
    + rewrite findDTRoot_unfold. unfold findDTRootGoesUp.
      rewrite (dirname_root_single s0 Hchars). simpl.
      now rewrite andb_false_r.
  - change (s0 :: segs ++ [s]) with ((s0 :: segs) ++ [s]) in *.
    apply Forall_app in Hall. destruct Hall as [Hall Hs].
    inversion Hs as [|? ? [Hseg Hnot] _]; subst.
    destruct (IH Hall) as [IHrel IHabs].
    rewrite joinWith_snoc.
    set (q := joinWith "/" (s0 :: segs)) in *.
    assert (Hq : exists c r, q = String c r /\ isSlash c = false).
    { inversion Hall as [|? ? [[Hne0 Hch0] _] _]; subst.
      destruct s0 as [|c x]; [congruence|].
      destruct (joinWith_first_char c x segs) as [r Hr].
      exists c, r. split; [exact Hr|].
      simpl in Hch0. apply andb_prop in Hch0. destruct Hch0 as [Hc _].
      unfold notSlash in Hc. now apply negb_true_iff in Hc. }
    destruct Hq as (c & r & Hq & Hc).
    apply String.eqb_neq in Hnot. split.
    + rewrite findDTRoot_unfold. unfold findDTRootGoesUp.
      assert (Hd : dirname (q +++ "/" +++ s) = q).
      { apply dirname_segment; [| |exact Hseg]; rewrite Hq;
          [discriminate|].
        intros E. inversion E. subst. discriminate. }
      rewrite Hd, (basename_segment q s Hseg), Hnot.
      destruct (String.eqb q ".") eqn:Edot.
      * simpl. now apply String.eqb_eq in Edot.
      * assert (E2 : String.eqb q "/" = false).
        { apply String.eqb_neq. rewrite Hq. intros E. inversion E.
          subst. discriminate. }
        rewrite E2. simpl. exact IHrel.
    + rewrite <- append_assoc.
      rewrite findDTRoot_unfold. unfold findDTRootGoesUp.
      assert (Hd : dirname (("/" +++ q) +++ "/" +++ s) = "/" +++ q).
      { apply dirname_segment; [| |exact Hseg]; rewrite Hq; discriminate. }
      rewrite Hd, (basename_segment ("/" +++ q) s Hseg), Hnot.
      assert (E1 : String.eqb ("/" +++ q) "." = false)
        by (apply String.eqb_neq; discriminate).
      assert (E2 : String.eqb ("/" +++ q) "/" = false)
        by (apply String.eqb_neq; rewrite Hq; discriminate).
      rewrite E1, E2. simpl. exact IHabs.
Qed.

Lemma findDTRoot_without_types_witness :
  Forall (fun s => isSegment s /\ s <> "types") ["home"; "me"; "foo"] /\
  findDTRoot "home/me/foo" = "." /\ findDTRoot "/home/me/foo" = "/".
Proof.
  assert (H : Forall (fun s => isSegment s /\ s <> "types")
                     ["home"; "me"; "foo"]).
  { repeat constructor; discriminate. }
  split; [exact H|].
  exact (findDTRoot_without_types "home" ["me"; "foo"] H).
Defined.

(** From a path of at least two characters followed by segments none of
    which is named types, the loop of [findDTRoot] climbs back to that
    path. *)
Lemma findDTRoot_climbs (p0 : string) (segs : list string) :
  (2 <= String.length p0)%nat ->
  Forall (fun s => isSegment s /\ s <> "types") segs ->
  findDTRoot (joinWith "/" (p0 :: segs)) = findDTRoot p0.
Proof.
  intros Hp0.
  induction segs as [|s segs IH] using rev_ind; intros Hsegs; [reflexivity|].
  apply Forall_app in Hsegs. destruct Hsegs as [Hsegs Hs].
  inversion Hs as [|? ? [Hseg Hnot] _]; subst.
  change (p0 :: segs ++ [s]) with ((p0 :: segs) ++ [s]).
  rewrite joinWith_snoc, findDTRoot_unfold.
  set (q := joinWith "/" (p0 :: segs)).
  assert (Hq : (2 <= String.length q)%nat).
  { pose proof (joinWith_length "/" p0 segs) as H. unfold q. lia. }
  assert (Hd : dirname (q +++ "/" +++ s) = q).
  { apply dirname_segment; [| |exact Hseg]; intros E; rewrite E in Hq;
      simpl in Hq; lia. }
  unfold findDTRootGoesUp. rewrite Hd, (basename_segment q s Hseg).
  apply String.eqb_neq in Hnot. rewrite Hnot.
  assert (E1 : String.eqb q "." = false).
  { apply String.eqb_neq. intros E. rewrite E in Hq. simpl in Hq. lia. }
  assert (E2 : String.eqb q "/" = false).
  { apply String.eqb_neq. intros E. rewrite E in Hq. simpl in Hq. lia. }
  rewrite E1, E2. simpl. now apply IH.
Qed.

(** X4. For a package directory [root/types/<segments>], [root] being
    neither empty nor the root directory and no segment below [types] being
    named types, with [dtRoot] found by [findDTRoot]: [dtRoot] is [root],
    and the name looked up in [failingPackages] and quoted in the messages
    is the path of the directory below [types/] (the package name, with its
    version directory when there is one).  When [types] sits directly under
    the root directory ([/types/<segments>]), [dtRoot] is [/], one
    character shorter than the slice of line 180 assumes, and the name
    loses its first character. *)
Theorem allow_list_key_is_path_below_types (env : Env) (a : Args)
    (s : string) (segs : list string) (tr : Trace) :
  Forall (fun x => isSegment x /\ x <> "types") (s :: segs) ->
  dtRoot a = findDTRoot (dirPath a) ->
  (forall root,
     root <> EmptyString -> root <> "/" ->
     dirPath a = joinWith "/" ((root +++ "/types") :: s :: segs) ->
     truthy (nonNpm (packageJson a)) = false ->
     dtRoot a = root /\
     attwPhase env a tr
     = (tr ++ [RunAttw (dirPath a) (joinPaths root "attw.json")],
        reconcile
          match readFailingPackages env (joinPaths root "attw.json") with
          | Some l => JBool (arrayIncludes l (joinWith "/" (s :: segs)))
          | None => JUndefined
          end
          (joinWith "/" (s :: segs))
          (fst (runAreTheTypesWrong env (dirPath a)
                  (joinPaths root "attw.json")))
          (snd (runAreTheTypesWrong env (dirPath a)
                  (joinPaths root "attw.json"))))) /\
  (dirPath a = joinWith "/" ("/types" :: s :: segs) ->
   dtRoot a = "/" /\
   sliceFrom (String.length (dtRoot a) + String.length "/types/") (dirPath a)
   = sliceFrom 1 (joinWith "/" (s :: segs))).
Proof.
  intros Hsegs Hdt. split.
  - intros root Hne Hroot Hdir Hnpm.
    assert (Er : dtRoot a = root).
    { rewrite Hdt, Hdir. now apply findDTRoot_at_types. }
    split; [exact Er|].
    unfold attwPhase. rewrite Hnpm, Er. simpl negb. cbv iota.
    assert (Ename : sliceFrom (String.length root + String.length "/types/")
                              (dirPath a) = joinWith "/" (s :: segs)).
    { rewrite Hdir.
      change (joinWith "/" ((root +++ "/types") :: s :: segs))
        with ((root +++ "/types") +++ "/" +++ joinWith "/" (s :: segs)).
      rewrite append_assoc.
      change ("/types" +++ "/" +++ joinWith "/" (s :: segs))
        with ("/types/" +++ joinWith "/" (s :: segs)).
      rewrite <- append_assoc, <- length_append.
      apply sliceFrom_append. }
    rewrite Ename. munfold.
    destruct (runAreTheTypesWrong env (dirPath a) (joinPaths root "attw.json"))
      as [output status].
    reflexivity.
  - intros Hdir.
    assert (Er : dtRoot a = "/").
    { rewrite Hdt, Hdir. rewrite findDTRoot_climbs; [reflexivity | | exact Hsegs].
      simpl. lia. }
    split; [exact Er|]. rewrite Er, Hdir.
    change (joinWith "/" ("/types" :: s :: segs))
      with ("/types/" +++ joinWith "/" (s :: segs)).
    unfold sliceFrom. simpl. reflexivity.
Qed.

Lemma allow_list_key_is_path_below_types_witness :
  attwPhase (attwEnv (Some ["node/v18"]) "raw output" "fail")
            (mkArgs "/dt/types/node/v18" (findDTRoot "/dt/types/node/v18")
                    false false JUndefined []
                    (mkPackageJson JUndefined JUndefined)) []
  = ([RunAttw "/dt/types/node/v18" "/dt/attw.json"],
     reconcile (JBool true) "node/v18" "raw output" "fail").
Proof.
  assert (H : Forall (fun x => isSegment x /\ x <> "types") ["node"; "v18"]).
  { repeat constructor; discriminate. }
  exact (proj2 (proj1 (allow_list_key_is_path_below_types
                         (attwEnv (Some ["node/v18"]) "raw output" "fail")
                         (mkArgs "/dt/types/node/v18"
                                 (findDTRoot "/dt/types/node/v18")
                                 false false JUndefined []
                                 (mkPackageJson JUndefined JUndefined))
                         "node" ["v18"] [] H eq_refl)
                      "/dt" ltac:(discriminate) ltac:(discriminate)
                      eq_refl eq_refl)).
Defined.

(** [types] directly under the root directory: the name of the package
    [foo] is cut to [oo]. *)
Example allow_list_key_at_root :
  findDTRoot "/types/foo" = "/" /\
  sliceFrom (String.length (findDTRoot "/types/foo")
             + String.length "/types/") "/types/foo" = "oo".
Proof. split; reflexivity. Qed.

(** ** [assertPathIsNotBanned] *)

Lemma prefix_split (a s : string) :
  String.prefix a s = true ->
  s = a +++ substring (String.length a) (String.length s - String.length a) s.
Proof.
  revert s. induction a as [|c a IH]; intros s H.
  - simpl. rewrite Nat.sub_0_r.
    clear H. induction s as [|d s IHs]; simpl; [reflexivity|].
    now rewrite <- IHs.
  - destruct s as [|d s]; [discriminate|]. simpl in H.
    destruct (ascii_dec c d) as [->|]; [|discriminate].
    simpl. f_equal. now apply IH.
Qed.

Lemma prefix_append (a b : string) : String.prefix a (a +++ b) = true.
Proof.
  induction a as [|c a IH]; simpl; [now destruct b|].
  destruct (ascii_dec c c); [exact IH | congruence].
Qed.

Lemma substring_append (a b : string) :
  substring (String.length a) (String.length (a +++ b) - String.length a)
            (a +++ b) = b.
Proof. exact (sliceFrom_append a b). Qed.

Lemma boundaryBefore_cons (start : bool) (c : ascii) (pre : string) :
  boundaryBefore start (String c pre)
  <-> boundaryBefore (negb (isWordChar c)) pre.
Proof.
  unfold boundaryBefore. simpl list_ascii_of_string. simpl rev.
  destruct (rev (list_ascii_of_string pre)) as [|d r]; simpl.
  - rewrite negb_true_iff. tauto.
  - tauto.
Qed.

Lemma testDownloadFrom_spec (s : string) :
  forall start,
    testDownloadFrom start s = true <->
    exists pre post,
      s = pre +++ "download" +++ post /\
      boundaryBefore start pre /\ boundaryAfter post = true.
Proof.
  induction s as [|c r IH]; intros start.
  - simpl. split; [discriminate|].
    intros (pre & post & E & _). destruct pre; discriminate.
  - change (testDownloadFrom start (String c r))
      with ((start && String.prefix "download" (String c r)
             && boundaryAfter (substring 8 (String.length (String c r) - 8)
                                         (String c r)))
            || testDownloadFrom (negb (isWordChar c)) r)%bool.
    rewrite orb_true_iff, IH. split.
    + intros [H | (pre & post & E & Hb & Ha)].
      * apply andb_prop in H. destruct H as [H Ha].
        apply andb_prop in H. destruct H as [Hs Hp].
        exists EmptyString, (substring 8 (String.length (String c r) - 8)
                                       (String c r)).
        split; [exact (prefix_split "download" _ Hp)|].
        split; [exact Hs | exact Ha].
      * exists (String c pre), post. split; [simpl; now rewrite E|].
        split; [now apply boundaryBefore_cons | exact Ha].
    + intros (pre & post & E & Hb & Ha). destruct pre as [|d pre].
      * left. unfold boundaryBefore in Hb. simpl in Hb. rewrite Hb.
        change (EmptyString +++ "download" +++ post)
          with ("download" +++ post) in E.
        rewrite E, (prefix_append "download" post).
        pose proof (substring_append "download" post) as Hsub.
        change (String.length "download") with 8%nat in Hsub.
        rewrite Hsub. now rewrite Ha.
      * right. simpl in E. inversion E; subst.
        exists pre, post. split; [reflexivity|].
        split; [now apply boundaryBefore_cons in Hb | exact Ha].
Qed.

Lemma testDownload_spec (s : string) :
  testDownload s = true <-> hasWordDownload s.
Proof.
  unfold testDownload, hasWordDownload. rewrite testDownloadFrom_spec.
  split; intros (pre & post & E & Hb & Ha); exists pre, post;
    (split; [exact E|]); (split; [|exact Ha]);
    unfold boundaryBefore in *;
    destruct (rev (list_ascii_of_string pre)) as [|d r]; simpl in *;
    try reflexivity; try assumption.
  - now apply negb_true_iff.
  - now apply negb_true_iff in Hb.
Qed.

(** X5. [assertPathIsNotBanned] rejects exactly the names in which the
    word download occurs with no letter, digit or underscore right before
    or right after it, the names download, downloadjs and
    s3-download-stream excepted; it accepts every other name. *)
Theorem banned_names (name : string) :
  (hasWordDownload name /\ name <> "download" /\ name <> "downloadjs"
   /\ name <> "s3-download-stream" ->
   assertPathIsNotBanned name
   = Throw (JsError (name +++ ": Contains the word 'download', which is banned by npm.")))
  /\
  (~ (hasWordDownload name /\ name <> "download" /\ name <> "downloadjs"
      /\ name <> "s3-download-stream") ->
   assertPathIsNotBanned name = Ok tt).
Proof.
  unfold assertPathIsNotBanned. split.
  - intros (Hw & H1 & H2 & H3).
    apply testDownload_spec in Hw. apply String.eqb_neq in H1, H2, H3.
    now rewrite Hw, H1, H2, H3.
  - intros Hn.
    destruct (testDownload name) eqn:Et; [|reflexivity].
    destruct (String.eqb name "download") eqn:E1; [reflexivity|].
    destruct (String.eqb name "downloadjs") eqn:E2; [reflexivity|].
    destruct (String.eqb name "s3-download-stream") eqn:E3; [reflexivity|].
    exfalso. apply Hn. apply testDownload_spec in Et.
    apply String.eqb_neq in E1, E2, E3. tauto.
Qed.

(** ** The command line *)

Section CliFacts.

Variable resolve : string -> string.
Variable pathJoin : string -> string -> string.
Variables (dtslintVersion rootVersion : string).
Variable install : InstallOp -> Result unit.
Variable run : string -> bool -> bool -> JsVal -> Result JsVal.

Local Abbreviation mainArg' := (mainArg resolve pathJoin rootVersion install).
Local Abbreviation mainLoop' := (mainLoop resolve pathJoin rootVersion install).
Local Abbreviation main' :=
  (main resolve pathJoin dtslintVersion rootVersion install run).

(** The rounds of the loop after which it goes on. *)
Lemma mainArg_go (st st' : Cli) (arg : string) (ev : list MainEvent) :
  mainArg' st arg = (ev, Go st') ->
  ev = [] /\
  ((cliLookingForTsLocal st = true /\ String.prefix "--" arg = false /\
    st' = mkCli (cliDirPath st) (cliOnlyTestTsNext st) (cliExpectOnly st)
                (cliShouldListen st) false (JStr (resolve arg)))
   \/ (cliLookingForTsLocal st = false /\ arg = "--localTs" /\
       st' = mkCli (cliDirPath st) (cliOnlyTestTsNext st) (cliExpectOnly st)
                   (cliShouldListen st) true (cliTsLocal st))
   \/ (cliLookingForTsLocal st = false /\ arg = "--expectOnly" /\
       st' = mkCli (cliDirPath st) (cliOnlyTestTsNext st) true
                   (cliShouldListen st) false (cliTsLocal st))
   \/ (cliLookingForTsLocal st = false /\ arg = "--onlyTestTsNext" /\
       st' = mkCli (cliDirPath st) true (cliExpectOnly st)
                   (cliShouldListen st) false (cliTsLocal st))
   \/ (cliLookingForTsLocal st = false /\ arg = "--listen" /\
       st' = mkCli (cliDirPath st) (cliOnlyTestTsNext st) (cliExpectOnly st)
                   true false (cliTsLocal st))
   \/ (cliLookingForTsLocal st = false /\ String.prefix "--" arg = false /\
       st' = mkCli (pathJoin (cliDirPath st) (argPath arg))
                   (cliOnlyTestTsNext st) (cliExpectOnly st)
                   (cliShouldListen st) false (cliTsLocal st))).
Proof.
  unfold mainArg. destruct (cliLookingForTsLocal st) eqn:El.
  - destruct (String.prefix "--" arg) eqn:Ep; intros H; inversion H; subst.
    split; [reflexivity|]. left. auto.
  - destruct (String.eqb arg "--installAll") eqn:E1.
    { destruct (install cleanTypeScriptInstalls); intros H; inversion H. }
    destruct (String.eqb arg "--localTs") eqn:E2.
    { apply String.eqb_eq in E2. intros H; inversion H; subst.
      split; [reflexivity|]. right. left. auto. }
    destruct (String.eqb arg "--version") eqn:E3.
    { intros H; inversion H. }
    destruct (String.eqb arg "--expectOnly") eqn:E4.
    { apply String.eqb_eq in E4. intros H; inversion H; subst.
      split; [reflexivity|]. right. right. left. auto. }
    destruct (String.eqb arg "--onlyTestTsNext") eqn:E5.
    { apply String.eqb_eq in E5. intros H; inversion H; subst.
      split; [reflexivity|]. right. right. right. left. auto. }
    destruct (String.eqb arg "--listen") eqn:E6.
    { apply String.eqb_eq in E6. intros H; inversion H; subst.
      split; [reflexivity|]. right. right. right. right. left. auto. }
    destruct (String.prefix "--" arg) eqn:Ep; intros H; inversion H; subst.
    split; [reflexivity|]. right. right. right. right. right. auto.
Qed.

(** The rounds of the loop at which [main] ends install something only
    for [--installAll], and start no test run and no message handler. *)
Lemma mainArg_halt (st : Cli) (arg : string) (ev : list MainEvent)
    (how : MainEnd) :
  mainArg' st arg = (ev, Halt how) ->
  existsb isWork ev = false /\
  (existsb isInstall ev = true -> arg = "--installAll").
Proof.
  unfold mainArg. destruct (cliLookingForTsLocal st) eqn:El.
  - destruct (String.prefix "--" arg) eqn:Ep; intros H; inversion H; subst.
    split; [reflexivity | discriminate].
  - destruct (String.eqb arg "--installAll") eqn:E1.
    { apply String.eqb_eq in E1.
      destruct (install cleanTypeScriptInstalls); intros H; inversion H;
        subst; split; auto. }
    destruct (String.eqb arg "--localTs") eqn:E2; [intros H; inversion H|].
    destruct (String.eqb arg "--version") eqn:E3.
    { intros H; inversion H; subst. split; [reflexivity | discriminate]. }
    destruct (String.eqb arg "--expectOnly"); [intros H; inversion H|].
    destruct (String.eqb arg "--onlyTestTsNext"); [intros H; inversion H|].
    destruct (String.eqb arg "--listen"); [intros H; inversion H|].
    destruct (String.prefix "--" arg) eqn:Ep; intros H; inversion H; subst.
    split; [reflexivity | discriminate].
Qed.

Lemma mainLoop_app (pre rest : list string) :
  forall st,
    mainLoop' st (pre ++ rest)
    = match mainLoop' st pre with
      | (ev, Go st') =>
          let (ev', f) := mainLoop' st' rest in (ev ++ ev', f)
      | (ev, Halt how) => (ev, Halt how)
      end.
Proof.
  induction pre as [|a pre IH]; intros st; simpl.
  - destruct (mainLoop' st rest); reflexivity.
  - destruct (mainArg' st a) as [ev [st'|how]]; [|reflexivity].
    rewrite IH. destruct (mainLoop' st' pre) as [ev1 [st1|how1]];
      [|reflexivity].
    destruct (mainLoop' st1 rest) as [ev2 f2]. now rewrite app_assoc.
Qed.

(** What one round that goes on does to the flags. *)
Lemma mainArg_flags (st st' : Cli) (arg : string) (ev : list MainEvent) :
  mainArg' st arg = (ev, Go st') ->
  cliOnlyTestTsNext st'
  = (cliOnlyTestTsNext st || String.eqb "--onlyTestTsNext" arg)%bool /\
  cliExpectOnly st'
  = (cliExpectOnly st || String.eqb "--expectOnly" arg)%bool /\
  cliShouldListen st'
  = (cliShouldListen st || String.eqb "--listen" arg)%bool /\
  (String.prefix "--" arg = true ->
   In arg ["--localTs"; "--expectOnly"; "--onlyTestTsNext"; "--listen"]).
Proof.
  clear dtslintVersion run.
  intros H. destruct (mainArg_go _ _ _ _ H) as [_ Hcases].
  assert (Hplain : String.prefix "--" arg = false ->
            String.eqb "--onlyTestTsNext" arg = false /\
            String.eqb "--expectOnly" arg = false /\
            String.eqb "--listen" arg = false).
  { intros Hp. repeat split.
    - destruct (String.eqb_spec "--onlyTestTsNext" arg) as [<-|_];
        [discriminate Hp | reflexivity].
    - destruct (String.eqb_spec "--expectOnly" arg) as [<-|_];
        [discriminate Hp | reflexivity].
    - destruct (String.eqb_spec "--listen" arg) as [<-|_];
        [discriminate Hp | reflexivity]. }
  destruct Hcases as [(_ & Hp & ->) | [(_ & -> & ->) | [(_ & -> & ->)
    | [(_ & -> & ->) | [(_ & -> & ->) | (_ & Hp & ->)]]]]].
  - destruct (Hplain Hp) as (E1 & E2 & E3). rewrite E1, E2, E3, Hp.
    simpl. rewrite !orb_false_r. repeat split. discriminate.
  - simpl. rewrite !orb_false_r. repeat split. tauto.
  - simpl. rewrite !orb_false_r, orb_true_r. repeat split. tauto.
  - simpl. rewrite !orb_false_r, orb_true_r. repeat split. tauto.
  - simpl. rewrite !orb_false_r, orb_true_r. repeat split. tauto.
  - destruct (Hplain Hp) as (E1 & E2 & E3). rewrite E1, E2, E3, Hp.
    simpl. rewrite !orb_false_r. repeat split. discriminate.
Qed.

(** What holds of the arguments and of the variables when the loop has
    gone through all the arguments. *)
Lemma mainLoop_go (args : list string) :
  forall st st' ev,
    mainLoop' st args = (ev, Go st') ->
    ev = [] /\
    cliOnlyTestTsNext st'
    = (cliOnlyTestTsNext st
       || existsb (String.eqb "--onlyTestTsNext") args)%bool /\
    cliExpectOnly st'
    = (cliExpectOnly st || existsb (String.eqb "--expectOnly") args)%bool /\
    cliShouldListen st'
    = (cliShouldListen st || existsb (String.eqb "--listen") args)%bool /\
    Forall (fun a => String.prefix "--" a = true ->
                     In a ["--localTs"; "--expectOnly"; "--onlyTestTsNext";
                           "--listen"]) args.
Proof.
  clear dtslintVersion run.
  induction args as [|a args IH]; intros st st' ev H.
  - simpl in H. inversion H; subst.
    rewrite !orb_false_r. repeat split. constructor.
  - simpl in H. destruct (mainArg' st a) as [ev1 [st1|how]] eqn:Ea;
      [|discriminate].
    destruct (mainLoop' st1 args) as [ev2 f] eqn:El.
    inversion H; subst. destruct (IH _ _ _ El) as (-> & Ho & He & Hl & Hf).
    destruct (mainArg_go _ _ _ _ Ea) as [-> _].
    destruct (mainArg_flags _ _ _ _ Ea) as (Fo & Fe & Fl & Fp).
    rewrite Ho, He, Hl, Fo, Fe, Fl. simpl existsb.
    rewrite !orb_assoc. repeat split.
    constructor; assumption.
Qed.

Lemma mainLoop_events (args : list string) :
  forall st ev f,
    mainLoop' st args = (ev, f) ->
    existsb isWork ev = false /\
    (existsb isInstall ev = true -> In "--installAll" args).
Proof.
  induction args as [|a args IH]; intros st ev f H.
  - simpl in H. inversion H; subst. split; [reflexivity | discriminate].
  - simpl in H. destruct (mainArg' st a) as [ev1 [st1|how]] eqn:Ea.
    + destruct (mainLoop' st1 args) as [ev2 f2] eqn:El.
      inversion H; subst. destruct (mainArg_go _ _ _ _ Ea) as [-> _].
      destruct (IH _ _ _ El) as [Hw Hi]. simpl.
      split; [exact Hw | intros Hx; right; now apply Hi].
    + inversion H; subst. destruct (mainArg_halt _ _ _ _ Ea) as [Hw Hi].
      split; [exact Hw | intros Hx; left; now rewrite (Hi Hx)].
Qed.

Lemma existsb_eqb_In (s : string) (l : list string) :
  existsb (String.eqb s) l = true <-> In s l.
Proof.
  rewrite existsb_exists. split.
  - intros (x & Hx & E). apply String.eqb_eq in E. now subst.
  - intros H. exists s. split; [exact H | apply String.eqb_refl].
Qed.

(** X6. When [main] starts a test run, every argument was understood: no
    argument is [--version], [--installAll], [--listen] or an option
    [main] does not know, and the run is asked to test only
    typescript@next exactly when [--onlyTestTsNext] is among the
    arguments, and to check expectations only exactly when [--expectOnly]
    is. *)
Theorem main_runs_tests_as_asked (cwd : string) (args : list string)
    (dir : string) (onlyNext expOnly : bool) (local : JsVal) :
  In (RunTests dir onlyNext expOnly local) (fst (main' cwd args)) ->
  (onlyNext = true <-> In "--onlyTestTsNext" args) /\
  (expOnly = true <-> In "--expectOnly" args) /\
  ~ In "--listen" args /\
  Forall (fun a => String.prefix "--" a = true ->
                   In a ["--localTs"; "--expectOnly"; "--onlyTestTsNext"])
         args.
Proof.
  unfold main.
  destruct (mainLoop' (mkCli cwd false false false false JUndefined) args)
    as [ev [st|how]] eqn:El.
  - destruct (mainLoop_go _ _ _ _ El) as (-> & Ho & He & Hl & Hf).
    cbn [cliOnlyTestTsNext cliExpectOnly cliShouldListen orb] in Ho, He, Hl.
    assert (Hno : forall tail : list MainEvent,
              existsb isWork tail = false ->
              ~ In (RunTests dir onlyNext expOnly local) tail).
    { intros tail Ht Hin.
      assert (existsb isWork tail = true); [|congruence].
      apply existsb_exists. eexists. split; [exact Hin | reflexivity]. }
    destruct (cliLookingForTsLocal st).
    { simpl. intros [H|[]]. discriminate. }
    destruct (cliShouldListen st) eqn:Es.
    { simpl. unfold listen. intros [H|H]; [discriminate|].
      apply in_app_or in H. destruct H as [H|[H|[]]]; [|discriminate].
      unfold installTypeScriptAsNeeded in H.
      destruct (truthy (cliTsLocal st)); [contradiction|].
      destruct (cliOnlyTestTsNext st); destruct H as [H|[]]; discriminate. }
    assert (Hrun : In (RunTests dir onlyNext expOnly local)
                      [RunTests (cliDirPath st) (cliOnlyTestTsNext st)
                                (cliExpectOnly st) (cliTsLocal st)] ->
                   (onlyNext = true <-> In "--onlyTestTsNext" args) /\
                   (expOnly = true <-> In "--expectOnly" args) /\
                   ~ In "--listen" args /\
                   Forall (fun a => String.prefix "--" a = true ->
                             In a ["--localTs"; "--expectOnly";
                                   "--onlyTestTsNext"]) args).
    { intros [H|[]]. inversion H; subst.
      rewrite Ho, He, !existsb_eqb_In.
      assert (Hnl : ~ In "--listen" args).
      { intros Hin. apply existsb_eqb_In in Hin. rewrite Hin in Hl.
        congruence. }
      repeat split; try tauto.
      rewrite Forall_forall in *. intros a Ha Hp.
      destruct (Hf a Ha Hp) as [<-|[<-|[<-|[<-|[]]]]]; simpl; auto.
      all: contradiction. }
    unfold installTypeScriptAsNeeded.
    destruct (truthy (cliTsLocal st)).
    + destruct (run _ _ _ _) as [output|e]; simpl.
      * intros [H|[H|H]]; [discriminate | apply Hrun; now left |].
        destruct (truthy output); [|contradiction].
        destruct H as [H|[]]. discriminate.
      * intros [H|[H|[]]]; [discriminate | apply Hrun; now left].
    + destruct (cliOnlyTestTsNext st).
      * destruct (install installTypeScriptNext).
        -- destruct (run _ _ _ _) as [output|e]; simpl.
           ++ intros [H|[H|[H|H]]]; try discriminate;
                [apply Hrun; now left|].
              destruct (truthy output); [|contradiction].
              destruct H as [H|[]]. discriminate.
           ++ intros [H|[H|[H|[]]]]; try discriminate. apply Hrun; now left.
        -- simpl. intros [H|[H|[]]]; discriminate.
      * destruct (install installAllTypeScriptVersions).
        -- destruct (run _ _ _ _) as [output|e]; simpl.
           ++ intros [H|[H|[H|H]]]; try discriminate;
                [apply Hrun; now left|].
              destruct (truthy output); [|contradiction].
              destruct H as [H|[]]. discriminate.
           ++ intros [H|[H|[H|[]]]]; try discriminate. apply Hrun; now left.
        -- simpl. intros [H|[H|[]]]; discriminate.
  - destruct (mainLoop_events _ _ _ _ El) as [Hw _].
    simpl. intros [H|H]; [discriminate|]. exfalso.
    assert (existsb isWork ev = true); [|congruence].
    apply existsb_exists. eexists. split; [exact H | reflexivity].
Qed.

End CliFacts.

Lemma main_runs_tests_as_asked_witness :
  In (RunTests "/cwd/types/foo" true false JUndefined)
     (fst (main (resolveIn "/cwd") joinPaths "0.2.1" "0.0.1" installsFine
                runsFine "/cwd" ["--onlyTestTsNext"; "types/foo"])) /\
  (true = true <-> In "--onlyTestTsNext" ["--onlyTestTsNext"; "types/foo"]).
Proof.
  assert (H : In (RunTests "/cwd/types/foo" true false JUndefined)
                 (fst (main (resolveIn "/cwd") joinPaths "0.2.1" "0.0.1"
                            installsFine runsFine "/cwd"
                            ["--onlyTestTsNext"; "types/foo"]))).
  { right. right. left. reflexivity. }
  split; [exact H|].
  exact (proj1 (main_runs_tests_as_asked (resolveIn "/cwd") joinPaths "0.2.1"
                  "0.0.1" installsFine runsFine "/cwd"
                  ["--onlyTestTsNext"; "types/foo"] "/cwd/types/foo" true
                  false JUndefined H)).
Defined.

Section CliStops.

Variable resolve : string -> string.
Variable pathJoin : string -> string -> string.
Variables (dtslintVersion rootVersion : string).
Variable install : InstallOp -> Result unit.
Variable run : string -> bool -> bool -> JsVal -> Result JsVal.

Local Abbreviation mainArg' := (mainArg resolve pathJoin rootVersion install).
Local Abbreviation mainLoop' :=
  (mainLoop resolve pathJoin rootVersion install).
Local Abbreviation main' :=
  (main resolve pathJoin dtslintVersion rootVersion install run).

Lemma mainArg_plain (st : Cli) (a : string) :
  plainArg a = true -> cliLookingForTsLocal st = false ->
  exists st', mainArg' st a = ([], Go st') /\
              cliLookingForTsLocal st' = false.
Proof.
  unfold plainArg, mainArg. intros Hp Hl. rewrite Hl.
  destruct (String.eqb a "--installAll") eqn:E1.
  { apply String.eqb_eq in E1. subst. discriminate Hp. }
  destruct (String.eqb a "--localTs") eqn:E2.
  { apply String.eqb_eq in E2. subst. discriminate Hp. }
  destruct (String.eqb a "--version") eqn:E3.
  { apply String.eqb_eq in E3. subst. discriminate Hp. }
  destruct (String.eqb a "--expectOnly"); [eexists; split; reflexivity|].
  destruct (String.eqb a "--onlyTestTsNext"); [eexists; split; reflexivity|].
  destruct (String.eqb a "--listen"); [eexists; split; reflexivity|].
  destruct (String.prefix "--" a); [discriminate Hp|].
  eexists; split; reflexivity.
Qed.

Lemma mainLoop_plain (pre : list string) :
  forall st,
    forallb plainArg pre = true -> cliLookingForTsLocal st = false ->
    exists st', mainLoop' st pre = ([], Go st') /\
                cliLookingForTsLocal st' = false.
Proof.
  induction pre as [|a pre IH]; intros st Hall Hl.
  - exists st. split; [reflexivity | exact Hl].
  - simpl in Hall. apply andb_prop in Hall. destruct Hall as [Ha Hpre].
    destruct (mainArg_plain st a Ha Hl) as (st1 & E1 & Hl1).
    destruct (IH st1 Hpre Hl1) as (st2 & E2 & Hl2).
    exists st2. simpl. rewrite E1, E2. split; [reflexivity | exact Hl2].
Qed.

(** X7. After any paths and flags, [--localTs] wants a path: as the last
    argument it makes [main] fail with "Path for --localTs was not
    provided.", and followed by anything that starts with two dashes, a
    known option included, it makes [main] fail naming that argument;
    either way nothing is installed or run. *)
Theorem localTs_wants_a_path (cwd : string) (pre : list string) :
  forallb plainArg pre = true ->
  main' cwd (pre ++ ["--localTs"])
  = ([StdOut ("dtslint@" +++ dtslintVersion)],
     Rejected (JsError "Path for --localTs was not provided.")) /\
  (forall opt rest,
     String.prefix "--" opt = true ->
     main' cwd (pre ++ "--localTs" :: opt :: rest)
     = ([StdOut ("dtslint@" +++ dtslintVersion)],
        Rejected (JsError ("Looking for local path for TS, but got "
                           +++ opt)))).
Proof.
  intros Hpre.
  destruct (mainLoop_plain pre (mkCli cwd false false false false JUndefined)
              Hpre eq_refl) as (st & Est & Hl).
  split.
  - unfold main. rewrite mainLoop_app, Est. simpl mainLoop.
    unfold mainArg. rewrite Hl. simpl. reflexivity.
  - intros opt rest Hopt. unfold main. rewrite mainLoop_app, Est.
    simpl mainLoop. unfold mainArg at 1. rewrite Hl. simpl.
    unfold mainArg. simpl. rewrite Hopt. reflexivity.
Qed.

Lemma not_known_option (opt : string) :
  ~ In opt knownOptions ->
  String.eqb opt "--installAll" = false /\
  String.eqb opt "--localTs" = false /\
  String.eqb opt "--version" = false /\
  String.eqb opt "--expectOnly" = false /\
  String.eqb opt "--onlyTestTsNext" = false /\
  String.eqb opt "--listen" = false.
Proof.
  intros Hn. repeat split; apply String.eqb_neq; intros ->; apply Hn;
    simpl; tauto.
Qed.

(** X8. After any paths and flags, [--version] prints the version and
    ends [main], and an option [main] does not know prints the error and
    the usage and exits with code 1: the arguments after it are not looked
    at, and nothing is installed or run. *)
Theorem main_stops_at_version_and_unknown_options (cwd : string)
    (pre rest : list string) :
  forallb plainArg pre = true ->
  main' cwd (pre ++ "--version" :: rest)
  = ([StdOut ("dtslint@" +++ dtslintVersion); StdOut rootVersion],
     Returned) /\
  (forall opt,
     String.prefix "--" opt = true -> ~ In opt knownOptions ->
     main' cwd (pre ++ opt :: rest)
     = (StdOut ("dtslint@" +++ dtslintVersion)
        :: StdErr ("Unknown option '" +++ opt +++ "'") :: usage,
        Exited 1)).
Proof.
  intros Hpre.
  destruct (mainLoop_plain pre (mkCli cwd false false false false JUndefined)
              Hpre eq_refl) as (st & Est & Hl).
  split.
  - unfold main. rewrite mainLoop_app, Est. simpl mainLoop.
    unfold mainArg. rewrite Hl. simpl. reflexivity.
  - intros opt Hopt Hn.
    destruct (not_known_option opt Hn) as (E1 & E2 & E3 & E4 & E5 & E6).
    unfold main. rewrite mainLoop_app, Est. simpl mainLoop.
    unfold mainArg. rewrite Hl, E1, E2, E3, E4, E5, E6, Hopt. reflexivity.
Qed.

Hypothesis resolve_not_empty : forall s, resolve s <> EmptyString.

Lemma mainLoop_local (args : list string) :
  forall st st' ev,
    mainLoop' st args = (ev, Go st') ->
    In "--localTs" args \/ sawLocalTs st ->
    sawLocalTs st'.
Proof.
  induction args as [|a args IH]; intros st st' ev H Hsaw.
  - simpl in H. inversion H; subst. destruct Hsaw as [[]|Hs]. exact Hs.
  - simpl in H. destruct (mainArg' st a) as [ev1 [st1|how]] eqn:Ea;
      [|discriminate].
    destruct (mainLoop' st1 args) as [ev2 f] eqn:El.
    inversion H; subst. apply (IH _ _ _ El).
    destruct (mainArg_go _ _ _ _ _ _ _ _ Ea) as [_ Hcases].
    destruct Hcases as [(_ & Hp & ->) | [(_ & -> & ->) | [(Hl & -> & ->)
      | [(Hl & -> & ->) | [(Hl & -> & ->) | (Hl & Hp & ->)]]]]].
    + right. right. simpl. apply negb_true_iff, String.eqb_neq.
      apply resolve_not_empty.
    + right. left. reflexivity.
    + destruct Hsaw as [[E|Hin]|[Hs|Hs]];
        [discriminate | now left | congruence | right; right; exact Hs].
    + destruct Hsaw as [[E|Hin]|[Hs|Hs]];
        [discriminate | now left | congruence | right; right; exact Hs].
    + destruct Hsaw as [[E|Hin]|[Hs|Hs]];
        [discriminate | now left | congruence | right; right; exact Hs].
    + destruct Hsaw as [[E|Hin]|[Hs|Hs]];
        [subst; discriminate Hp | now left | congruence
         | right; right; exact Hs].
Qed.

(** X9. [path.resolve] never returning the empty string: with
    [--localTs] among the arguments and [--installAll] not among them,
    [main] installs no compiler, however it ends. *)
Theorem localTs_installs_nothing (cwd : string) (args : list string) :
  In "--localTs" args -> ~ In "--installAll" args ->
  existsb isInstall (fst (main' cwd args)) = false.
Proof.
  intros Hlocal Hnot. unfold main.
  destruct (mainLoop' (mkCli cwd false false false false JUndefined) args)
    as [ev [st|how]] eqn:El.
  - destruct (mainLoop_go _ _ _ _ _ _ _ _ El) as (-> & _).
    pose proof (mainLoop_local _ _ _ _ El (or_introl Hlocal)) as Hsaw.
    destruct (cliLookingForTsLocal st) eqn:Elook; [reflexivity|].
    destruct Hsaw as [Hs|Hs]; [congruence|].
    unfold listen, installTypeScriptAsNeeded. rewrite Hs.
    destruct (cliShouldListen st); [reflexivity|].
    destruct (run _ _ _ _) as [output|e]; simpl; [|reflexivity].
    destruct (truthy output); reflexivity.
  - destruct (mainLoop_events _ _ _ _ _ _ _ _ El) as [_ Hi].
    simpl. destruct (existsb isInstall ev) eqn:E; [|reflexivity].
    exfalso. apply Hnot. now apply Hi.
Qed.

End CliStops.

Lemma resolveIn_not_empty (cwd s : string) : resolveIn cwd s <> EmptyString.
Proof.
  unfold resolveIn. destruct (String.prefix "/" s) eqn:E.
  - intros ->. discriminate E.
  - unfold joinPaths. destruct cwd; discriminate.
Qed.

Lemma localTs_wants_a_path_witness :
  forallb plainArg ["--expectOnly"; "types/foo"] = true /\
  main (resolveIn "/cwd") joinPaths "0.2.1" "0.0.1" installsFine runsFine
       "/cwd" ["--expectOnly"; "types/foo"; "--localTs"]
  = ([StdOut "dtslint@0.2.1"],
     Rejected (JsError "Path for --localTs was not provided.")).
Proof.
  split; [reflexivity|].
  exact (proj1 (localTs_wants_a_path (resolveIn "/cwd") joinPaths "0.2.1"
                  "0.0.1" installsFine runsFine "/cwd"
                  ["--expectOnly"; "types/foo"] eq_refl)).
Defined.

Lemma main_stops_at_version_and_unknown_options_witness :
  forallb plainArg ["types/foo"] = true /\
  main (resolveIn "/cwd") joinPaths "0.2.1" "0.0.1" installsFine runsFine
       "/cwd" ["types/foo"; "--version"; "--bogus"]
  = ([StdOut "dtslint@0.2.1"; StdOut "0.0.1"], Returned).
Proof.
  split; [reflexivity|].
  exact (proj1 (main_stops_at_version_and_unknown_options (resolveIn "/cwd")
                  joinPaths "0.2.1" "0.0.1" installsFine runsFine "/cwd"
                  ["types/foo"] ["--bogus"] eq_refl)).
Defined.

Lemma localTs_installs_nothing_witness :
  In "--localTs" ["types/foo"; "--localTs"; "../ts"] /\
  ~ In "--installAll" ["types/foo"; "--localTs"; "../ts"] /\
  fst (main (resolveIn "/cwd") joinPaths "0.2.1" "0.0.1" installsFine
            runsFine "/cwd" ["types/foo"; "--localTs"; "../ts"])
  = [StdOut "dtslint@0.2.1";
     RunTests "/cwd/types/foo" false false (JStr "/cwd/../ts")] /\
  existsb isInstall
    (fst (main (resolveIn "/cwd") joinPaths "0.2.1" "0.0.1" installsFine
               runsFine "/cwd" ["types/foo"; "--localTs"; "../ts"]))
  = false.
Proof.
  assert (H1 : In "--localTs" ["types/foo"; "--localTs"; "../ts"])
    by (simpl; tauto).
  assert (H2 : ~ In "--installAll" ["types/foo"; "--localTs"; "../ts"]).
  { simpl. intros [H|[H|[H|[]]]]; discriminate. }
  split; [exact H1|]. split; [exact H2|]. split; [reflexivity|].
  exact (localTs_installs_nothing (resolveIn "/cwd") joinPaths "0.2.1" "0.0.1"
           installsFine runsFine (resolveIn_not_empty "/cwd") "/cwd"
           ["types/foo"; "--localTs"; "../ts"] H1 H2).
Defined.

(** ** Scoped module names *)

Lemma indexOfStr_prefix (pat s : string) (i : Z) :
  String.prefix pat s = true -> indexOfStr pat s i = i.
Proof. intros H. destruct s; cbn [indexOfStr]; now rewrite H. Qed.

Lemma indexOfStr_found (pat a b : string) :
  forall i, (0 <= i)%Z -> (i <= indexOfStr pat (a +++ pat +++ b) i)%Z.
Proof.
  induction a as [|c a IH]; intros i Hi.
  - simpl append. rewrite indexOfStr_prefix by apply prefix_append. lia.
  - simpl append.
    change (indexOfStr pat (String c (a +++ pat +++ b)) i)
      with (if String.prefix pat (String c (a +++ pat +++ b)) then i
            else indexOfStr pat (a +++ pat +++ b) (i + 1)%Z).
    destruct (String.prefix pat (String c (a +++ pat +++ b))); [lia|].
    specialize (IH (i + 1)%Z). lia.
Qed.

Lemma indexOfStr_range (pat s : string) :
  forall i, indexOfStr pat s i = (-1)%Z \/ (i <= indexOfStr pat s i)%Z.
Proof.
  induction s as [|c s IH]; intros i; cbn [indexOfStr].
  - destruct (String.prefix pat EmptyString); [right; lia | now left].
  - destruct (String.prefix pat (String c s)); [right; lia|].
    destruct (IH (i + 1)%Z) as [E|E]; [now left | right; lia].
Qed.

Lemma prefix_slash (c : ascii) (s : string) :
  String.prefix "/" (String c s) = isSlash c.
Proof.
  cbn [String.prefix]. unfold isSlash.
  destruct (ascii_dec "/"%char c) as [<-|Hn].
  - now destruct s.
  - symmetry. apply Ascii.eqb_neq. congruence.
Qed.

Lemma indexOfStr_no_slash (s : string) :
  forall i, forallb notSlash (list_ascii_of_string s) = true ->
            indexOfStr "/" s i = (-1)%Z.
Proof.
  induction s as [|c s IH]; intros i H; [reflexivity|].
  simpl in H. apply andb_prop in H. destruct H as [Hc Hs].
  cbn [indexOfStr]. rewrite prefix_slash.
  unfold notSlash in Hc. apply negb_true_iff in Hc. rewrite Hc.
  now apply IH.
Qed.

Lemma replaceFirst_slash (scope name : string) :
  forallb notSlash (list_ascii_of_string scope) = true ->
  replaceFirst "/" "__" (scope +++ "/" +++ name) = scope +++ "__" +++ name.
Proof.
  induction scope as [|c scope IH]; intros H.
  - change (EmptyString +++ "/" +++ name) with (String "/"%char name).
    cbn [replaceFirst]. rewrite prefix_slash.
    change (isSlash "/") with true. cbv iota.
    pose proof (sliceFrom_append "/" name) as E. unfold sliceFrom in E.
    change ("/" +++ name) with (String "/"%char name) in E.
    rewrite E. reflexivity.
  - simpl in H. apply andb_prop in H. destruct H as [Hc Hs].
    change (String c scope +++ "/" +++ name)
      with (String c (scope +++ "/" +++ name)).
    cbn [replaceFirst]. rewrite prefix_slash.
    unfold notSlash in Hc. apply negb_true_iff in Hc. rewrite Hc.
    rewrite IH by exact Hs. reflexivity.
Qed.

(** X10. A scoped module name given as an argument, [@scope/name], is
    turned into the directory name [scope__name]; an argument that does not
    start with [@], and one without a slash, are taken as they are. *)
Theorem scoped_module_argument :
  (forall scope name,
     forallb notSlash (list_ascii_of_string scope) = true ->
     argPath ("@" +++ scope +++ "/" +++ name) = scope +++ "__" +++ name) /\
  (forall arg, String.prefix "@" arg = false -> argPath arg = arg) /\
  (forall arg, forallb notSlash (list_ascii_of_string arg) = true ->
               argPath arg = arg).
Proof.
  split; [|split].
  - intros scope name Hscope. unfold argPath.
    assert (E1 : indexOfStr "@" ("@" +++ scope +++ "/" +++ name) 0 = 0%Z)
      by (apply indexOfStr_prefix, prefix_append).
    assert (E2 : (indexOfStr "/" ("@" +++ scope +++ "/" +++ name) 0
                  =? -1)%Z = false).
    { apply Z.eqb_neq.
      pose proof (indexOfStr_found "/" ("@" +++ scope) name 0%Z
                    ltac:(lia)) as H.
      rewrite append_assoc in H. lia. }
    rewrite E1, E2. simpl andb. cbv iota.
    pose proof (sliceFrom_append "@" (scope +++ "/" +++ name)) as Es.
    change (String.length "@") with 1%nat in Es. rewrite Es.
    now apply replaceFirst_slash.
  - intros arg Hp. unfold argPath.
    assert (E : (indexOfStr "@" arg 0 =? 0)%Z = false).
    { apply Z.eqb_neq. destruct arg as [|c r].
      - simpl. discriminate.
      - change (indexOfStr "@" (String c r) 0)
          with (if String.prefix "@" (String c r) then 0%Z
                else indexOfStr "@" r (0 + 1)%Z).
        rewrite Hp. destruct (indexOfStr_range "@" r (0 + 1)%Z); lia. }
    now rewrite E.
  - intros arg Hs. unfold argPath.
    rewrite (indexOfStr_no_slash arg 0%Z Hs). simpl.
    now rewrite andb_false_r.
Qed.

(** ** More about the checks of [runTests] *)

(** X11. With [onlyTestTsNext] or a local compiler, [runTests] dispatches
    exactly one check, in the package directory, for the single version
    [local] (when a local compiler is given) or the latest supported
    version, as the latest range.  When that check fails, the run ends with
    its error and the compatibility checker is not called; when it
    succeeds, the run goes on with the compatibility check of lines 177-209
    and ends as that ends.  The version directories and the declared
    minimum play no part: the run is the same whatever they are. *)
Theorem single_version_mode (supported : list JsVal) (env : Env) (a : Args) :
  onlyTestTsNext a = true \/ truthy (tsLocal a) = true ->
  let call := mkTestCall (dirPath a) (singleVersion supported a)
                         (singleVersion supported a) (expectOnly a)
                         (tsLocal a) true in
  testCalls (fst (runTests supported env a [])) = [call] /\
  (forall e,
     checkOutcome env call = Throw e ->
     runTests supported env a [] = ([TestTypesVersion call], Throw e)) /\
  (checkOutcome env call = Ok tt ->
   runTests supported env a [] = attwPhase env a [TestTypesVersion call]) /\
  (forall versionDirs minimum,
     runTests supported env
       (mkArgs (dirPath a) (dtRoot a) (onlyTestTsNext a) (expectOnly a)
               (tsLocal a) versionDirs
               (mkPackageJson minimum (nonNpm (packageJson a)))) []
     = runTests supported env a []).
Proof.
  intros Hmode call.
  assert (E : (onlyTestTsNext a || truthy (tsLocal a))%bool = true).
  { destruct Hmode as [H|H]; rewrite H; [reflexivity | apply orb_true_r]. }
  assert (Et : testPhase supported env a []
               = ([TestTypesVersion call], checkOutcome env call)).
  { unfold testPhase. rewrite E. now rewrite testTypesVersion_eq. }
  split; [|split; [|split]].
  - rewrite runTests_testCalls, Et. reflexivity.
  - intros e He. unfold runTests, bind. now rewrite Et, He.
  - intros Hc. unfold runTests, bind. now rewrite Et, Hc.
  - intros versionDirs minimum. unfold runTests, bind, testPhase, attwPhase.
    simpl. now rewrite E.
Qed.

Lemma single_version_mode_witness :
  let a := mkArgs "/dt/types/foo" "/dt" true false JUndefined
                  (versions ["2.0"]) (mkPackageJson "9.9" JUndefined) in
  onlyTestTsNext a = true /\
  runTests sup30_50 (attwEnv (Some []) "raw output" "fail") a []
  = ([TestTypesVersion (mkTestCall "/dt/types/foo" (JStr "5.0") (JStr "5.0")
                                   false JUndefined true);
      RunAttw "/dt/types/foo" "/dt/attw.json"],
     Throw (JsError ("!@arethetypeswrong/cli" +++ nl +++ "raw output"))).
Proof.
  intros a. split; [reflexivity|].
  exact (proj1 (proj2 (proj2 (single_version_mode sup30_50
                                (attwEnv (Some []) "raw output" "fail") a
                                (or_introl eq_refl))))
               eq_refl).
Defined.

Lemma forFrom_extends (body : nat -> M unit) :
  (forall i tr, exists more, fst (body i tr) = tr ++ more) ->
  forall fuel i tr, exists more, fst (forFrom fuel i body tr) = tr ++ more.
Proof.
  intros Hb. induction fuel as [|fuel IH]; intros i tr; simpl.
  - exists []. unfold ret. simpl. now rewrite app_nil_r.
  - unfold bind. destruct (Hb i tr) as [m1 Hm1].
    destruct (body i tr) as [tr1 [[]|e]]; simpl in *.
    + destruct (IH (S i) tr1) as [m2 Hm2]. exists (m1 ++ m2).
      rewrite Hm2, Hm1. now rewrite app_assoc.
    + exists m1. exact Hm1.
Qed.

Lemma rangeBody_extends (supported : list JsVal) (env : Env) (dir : string)
    (expOnly : bool) (minVersion : JsVal) (lows his : list JsVal) (i : nat)
    (tr : Trace) :
  exists more,
    fst (rangeBody supported env dir expOnly minVersion lows his i tr)
    = tr ++ more.
Proof.
  rewrite rangeBody_eq. destruct (rangeOk minVersion lows his i); simpl.
  - eauto.
  - exists []. now rewrite app_nil_r.
Qed.

(** The loop with checks that may fail dispatches a prefix of what the
    loop dispatches when every check succeeds. *)
Lemma forFrom_prefix_of_quiet (supported : list JsVal) (env : Env)
    (dir : string) (expOnly : bool) (minVersion : JsVal)
    (lows his : list JsVal) :
  forall fuel i tr,
  exists more,
    fst (forFrom fuel i
           (rangeBody supported quietEnv dir expOnly minVersion lows his) tr)
    = fst (forFrom fuel i
             (rangeBody supported env dir expOnly minVersion lows his) tr)
      ++ more.
Proof.
  induction fuel as [|fuel IH]; intros i tr; simpl.
  - exists []. now rewrite app_nil_r.
  - unfold bind. rewrite !rangeBody_eq.
    destruct (rangeOk minVersion lows his i).
    + rewrite checkOutcome_quiet.
      destruct (checkOutcome env _) as [[]|e].
      * apply IH.
      * simpl.
        apply (forFrom_extends _ (rangeBody_extends supported quietEnv dir
                                    expOnly minVersion lows his)).
    + exists []. now rewrite app_nil_r.
Qed.

(** X12. What the checks answer has no influence on which ranges are
    formed: in every run the checks dispatched are the first ones, in the
    same order and with the same arguments, of the run in which every check
    succeeds. *)
Theorem checks_do_not_change_the_ranges (supported : list JsVal) (env : Env)
    (a : Args) :
  exists later,
    testCalls (fst (testPhase supported quietEnv a []))
    = testCalls (fst (testPhase supported env a [])) ++ later.
Proof.
  assert (H : exists more,
             fst (testPhase supported quietEnv a [])
             = fst (testPhase supported env a []) ++ more).
  { unfold testPhase.
    destruct (onlyTestTsNext a || truthy (tsLocal a))%bool.
    - rewrite !testTypesVersion_eq. exists []. now rewrite app_nil_r.
    - munfold.
      destruct (mapResult (next supported) (typesVersions a)) as [lows'|e];
        [|exists []; reflexivity].
      destruct (List.length (lowest supported :: lows')
                =? List.length (typesVersions a ++ [latest supported]))%nat;
        [|exists []; reflexivity].
      apply forFrom_prefix_of_quiet. }
  destruct H as [more Hmore]. exists (testCalls more).
  now rewrite Hmore, testCalls_app.
Qed.

(** X13. In the range loop, when the check of range [k] fails (the ranges
    before it having passed their assertions and their checks), the run
    ends with the error of that check: exactly [k + 1] checks have been
    dispatched, the later ranges are not checked, and the compatibility
    checker is not called. *)
Theorem failing_check_stops_the_run (supported : list JsVal) (env : Env)
    (a : Args) (k : nat) (e : Error) :
  rangeMode a ->
  Forall (fun c => In c supported) (typesVersions a) ->
  (k <= List.length (typesVersions a))%nat ->
  let minV := effectiveMinimum supported
                (minimumTypeScriptVersion (packageJson a)) in
  let lows := planLows supported (typesVersions a) in
  let his := planHis supported (typesVersions a) in
  (forall i, (i < k)%nat ->
     rangeOk minV lows his i = true /\
     checkOutcome env (rangeAt supported (dirPath a) (expectOnly a)
                               minV lows his i) = Ok tt) ->
  rangeOk minV lows his k = true ->
  checkOutcome env (rangeAt supported (dirPath a) (expectOnly a)
                            minV lows his k) = Throw e ->
  snd (runTests supported env a []) = Throw e /\
  testCalls (fst (runTests supported env a []))
  = map (rangeAt supported (dirPath a) (expectOnly a) minV lows his)
        (seq 0 (S k)) /\
  attwCalls (fst (runTests supported env a [])) = [].
Proof.
  intros Hmode Hmem Hk minV lows his Hbefore Hok Hfail.
  subst minV lows his.
  assert (E : testPhase supported env a []
              = (flat_map (rangeEvents supported (dirPath a) (expectOnly a)
                             (effectiveMinimum supported
                                (minimumTypeScriptVersion (packageJson a)))
                             (planLows supported (typesVersions a))
                             (planHis supported (typesVersions a)))
                          (seq 0 (S k)),
                 Throw e)).
  { rewrite (testPhase_members supported env a Hmode Hmem). cbv zeta.
    rewrite (forFrom_first_throw _
               (rangeEvents supported (dirPath a) (expectOnly a)
                  (effectiveMinimum supported
                     (minimumTypeScriptVersion (packageJson a)))
                  (planLows supported (typesVersions a))
                  (planHis supported (typesVersions a)))
               (rangeEvents supported (dirPath a) (expectOnly a)
                  (effectiveMinimum supported
                     (minimumTypeScriptVersion (packageJson a)))
                  (planLows supported (typesVersions a))
                  (planHis supported (typesVersions a)) k) e k).
    - rewrite Nat.sub_0_r, seq_S, flat_map_app. simpl.
      now rewrite app_nil_r.
    - lia.
    - intros j t Hj. rewrite rangeBody_eq.
      destruct (Hbefore j) as [-> ->]; [lia|reflexivity].
    - intros t. rewrite rangeBody_eq. now rewrite Hok, Hfail. }
  pose proof (testPhase_no_attw supported env a) as Hno.
  unfold runTests, bind. rewrite E in *. cbn [fst snd] in *.
  repeat split; [apply testCalls_flat_rangeEvents | exact Hno].
Qed.

Lemma failing_check_stops_the_run_witness :
  let env := mkEnv (fun _ => Ok tt) (fun _ => [])
                   (fun dir _ _ _ _ _ =>
                      if String.eqb dir "/dt/types/foo/ts3.2"
                      then JStr "lint failed" else JUndefined)
                   (fun _ => None) (fun _ _ => (EmptyString, "pass")) in
  let a := mkArgs "/dt/types/foo" "/dt" false false JUndefined
                  (versions ["3.2"; "3.6"])
                  (mkPackageJson JUndefined JUndefined) in
  rangeMode a /\
  runTests sup30_50 env a []
  = ([ConsoleLog [JStr "testing from"; JStr "3.0"; JStr "to"; JStr "3.2";
                  JStr "in"; JStr "/dt/types/foo/ts3.2"];
      TestTypesVersion (mkTestCall "/dt/types/foo/ts3.2" (JStr "3.0")
                                   (JStr "3.2") false JUndefined false)],
     Throw (JsError "lint failed")) /\
  snd (runTests sup30_50 env a []) = Throw (JsError "lint failed").
Proof.
  intros env a.
  assert (Hmode : rangeMode a) by (split; reflexivity).
  assert (Hmem : Forall (fun c => In c sup30_50) (typesVersions a)).
  { repeat constructor; simpl; tauto. }
  split; [exact Hmode|]. split; [reflexivity|].
  refine (proj1 (failing_check_stops_the_run sup30_50 env a 0
                   (JsError "lint failed") Hmode Hmem _ _ eq_refl eq_refl)).
  - simpl. lia.
  - intros i Hi. lia.
Defined.

(** ** All the outcomes of the reconciliation *)

Section Outcomes.

Variables (r : Result JsVal) (M T : Prop).

Let shape : Prop :=
  ((exists msg, r = Ok (JStr msg)) <-> M) /\
  ((exists e, r = Throw e) <-> T) /\
  (r = Ok JUndefined \/ (exists msg, r = Ok (JStr msg))
   \/ (exists e, r = Throw e)).

Lemma outcome_quiet : r = Ok JUndefined -> ~ M -> ~ T -> shape.
Proof.
  intros E HM HT. unfold shape. rewrite E. split; [|split].
  - split; [intros [x Hx]; discriminate Hx | tauto].
  - split; [intros [x Hx]; discriminate Hx | tauto].
  - now left.
Qed.

Lemma outcome_message (m : string) : r = Ok (JStr m) -> M -> ~ T -> shape.
Proof.
  intros E HM HT. unfold shape. rewrite E. split; [|split].
  - split; [tauto | intros _; eauto].
  - split; [intros [x Hx]; discriminate Hx | tauto].
  - right. left. eauto.
Qed.

Lemma outcome_throw (e : Error) : r = Throw e -> ~ M -> T -> shape.
Proof.
  intros E HM HT. unfold shape. rewrite E. split; [|split].
  - split; [intros [x Hx]; discriminate Hx | tauto].
  - split; [tauto | intros _; eauto].
  - right. right. eauto.
Qed.

End Outcomes.

(** X14. Whatever the expectation and the status are: [runTests] returns a
    message only for a listed package whose status is fail; it throws
    exactly for a listed package whose status is neither error nor fail,
    and for an unlisted package whose status is error or fail; in every
    other case it returns undefined. *)
Theorem reconcile_outcomes (expectError : JsVal)
    (dirName output status : string) :
  ((exists msg, reconcile expectError dirName output status = Ok (JStr msg))
   <-> expectError = JBool true /\ status = "fail") /\
  ((exists e, reconcile expectError dirName output status = Throw e)
   <-> (expectError = JBool true /\ status <> "error" /\ status <> "fail")
       \/ (expectError = JBool false
           /\ (status = "error" \/ status = "fail"))) /\
  (reconcile expectError dirName output status = Ok JUndefined
   \/ (exists msg, reconcile expectError dirName output status
                   = Ok (JStr msg))
   \/ (exists e, reconcile expectError dirName output status = Throw e)).
Proof.
  destruct expectError as [| |[|]|s].
  - apply outcome_quiet; [reflexivity | |]; intros H;
      [destruct H as [H _] | destruct H as [[H _]|[H _]]]; discriminate H.
  - apply outcome_quiet; [reflexivity | |]; intros H;
      [destruct H as [H _] | destruct H as [[H _]|[H _]]]; discriminate H.
  - destruct (String.eqb_spec status "error") as [->|Hne].
    { apply outcome_quiet; [reflexivity | |]; intros H.
      - destruct H as [_ H]. discriminate H.
      - destruct H as [(_ & H & _)|(H & _)]; [congruence | discriminate H]. }
    destruct (String.eqb_spec status "fail") as [->|Hnf].
    { eapply outcome_message; [reflexivity | now split |]. intros H.
      destruct H as [(_ & _ & H)|(H & _)]; [congruence | discriminate H]. }
    assert (E : exists e, reconcile (JBool true) dirName output status
                          = Throw e).
    { unfold reconcile, caseFalse, assertNever. simpl strictEq. cbv iota.
      apply String.eqb_neq in Hne, Hnf. rewrite Hne, Hnf.
      destruct (String.eqb status "pass"); simpl; eauto. }
    destruct E as [e E].
    eapply outcome_throw; [exact E | |].
    + intros [_ H]. congruence.
    + left. auto.
  - destruct (String.eqb_spec status "error") as [->|Hne].
    { eapply outcome_throw; [reflexivity | |].
      - intros [H _]. discriminate H.
      - right. auto. }
    destruct (String.eqb_spec status "fail") as [->|Hnf].
    { eapply outcome_throw; [reflexivity | |].
      - intros [H _]. discriminate H.
      - right. auto. }
    apply outcome_quiet.
    + unfold reconcile, caseFalse. simpl strictEq. cbv iota.
      apply String.eqb_neq in Hne, Hnf. rewrite Hne, Hnf. simpl.
      destruct (String.eqb status "pass"); reflexivity.
    + intros [H _]. discriminate H.
    + intros [(H & _)|(_ & [H|H])]; [discriminate H | congruence | congruence].
  - apply outcome_quiet; [reflexivity | |]; intros H;
      [destruct H as [H _] | destruct H as [[H _]|[H _]]]; discriminate H.
Qed.

(** ** Ranges do not overlap *)

Lemma jsGe_jsGt_trans (a b c : JsNum) :
  jsGe a b = true -> jsGt b c = true -> jsGt a c = true.
Proof.
  intros H1 H2. pose proof (jsGt_jsGe _ _ H2) as G2.
  unfold jsGt. rewrite (jsGe_trans _ _ _ H1 G2). simpl.
  apply negb_true_iff. destruct (jsGe c a) eqn:E; [|reflexivity].
  pose proof (jsGe_trans _ _ _ E H1) as G3.
  rewrite (jsGt_not_jsGe _ _ H2) in G3. discriminate.
Qed.

Lemma maxVersion_above (e x c : JsVal) :
  jsGt (parseFloat x) (parseFloat c) = true ->
  jsGt (parseFloat (maxVersion e x)) (parseFloat c) = true.
Proof.
  intros H. destruct (maxVersion_cases e x) as [[G E] | [G E]]; rewrite E.
  - exact (jsGe_jsGt_trans _ _ _ G H).
  - exact H.
Qed.

(** In an ascending list the entry after [c] is numerically above [c],
    unless [c] is the last entry. *)
Lemma successor_above (l : list JsVal) (c : JsVal) :
  strictlyIncreasing l = true -> In c l -> c <> latest l ->
  jsGt (parseFloat (successor l c)) (parseFloat c) = true.
Proof.
  rewrite latest_last.
  induction l as [|a r IH]; intros Hs Hin Hne; [contradiction|].
  simpl successor. destruct (strictEq a c) eqn:E.
  - apply strictEq_true in E. subst a.
    destruct r as [|b r']; [simpl in Hne; congruence|].
    simpl in Hs. apply andb_prop in Hs. exact (proj1 Hs).
  - apply strictEq_false in E. destruct Hin as [->|Hin]; [congruence|].
    destruct r as [|b r']; [contradiction|].
    apply IH; [now apply strictlyIncreasing_tail in Hs | exact Hin
               | exact Hne].
Qed.

Lemma loopRanges_head_low (supported : list JsVal) (dir : string)
    (e low : JsVal) (cs : list JsVal) :
  exists r rest, loopRanges supported dir e low cs = r :: rest /\ tcLow r = low.
Proof. destruct cs; simpl; eauto. Qed.

Lemma loopRanges_noOverlap (supported : list JsVal) (dir : string)
    (e : JsVal) (cs : list JsVal) :
  strictlyIncreasing supported = true ->
  Forall (fun c => In c supported /\ c <> latest supported) cs ->
  forall low, noOverlap (loopRanges supported dir e low cs) = true.
Proof.
  intros Hsup. induction 1 as [|c cs [Hc Hne] _ IH]; intros low;
    [reflexivity|].
  simpl loopRanges.
  destruct (loopRanges_head_low supported dir e
              (maxVersion e (successor supported c)) cs)
    as (r & rest & Er & Hlow).
  specialize (IH (maxVersion e (successor supported c))).
  rewrite Er in *.
  change (jsGt (parseFloat (tcLow r)) (parseFloat c)
          && noOverlap (r :: rest) = true).
  rewrite Hlow, IH, andb_true_r.
  apply maxVersion_above. now apply successor_above.
Qed.

(** The cutoffs of a well-formed package are all numerically below the
    latest supported version. *)
Lemma cutoffs_below_latest (supported cutoffs : list JsVal) :
  strictlyIncreasing supported = true ->
  strictlyIncreasing cutoffs = true ->
  Forall (fun c => In c supported) cutoffs ->
  last cutoffs JUndefined <> latest supported ->
  Forall (fun c => In c supported /\ c <> latest supported) cutoffs.
Proof.
  intros Hsup Hinc Hmem Hlast. rewrite Forall_forall in *.
  intros x Hx. split; [now apply Hmem|]. intros Ex.
  assert (Hne : cutoffs <> []) by (intros ->; contradiction).
  assert (Hlast_in : In (last cutoffs JUndefined) supported).
  { apply Hmem. rewrite <- latest_last. now apply latest_member. }
  pose proof (below_latest _ _ Hsup Hlast_in Hlast) as Htop.
  destruct (JsVal_eq_dec x (last cutoffs JUndefined)) as [E|Hd];
    [congruence|].
  rewrite <- latest_last in Hd.
  pose proof (below_latest _ _ Hinc Hx Hd) as Hbelow.
  rewrite latest_last in Hbelow. rewrite Ex in Hbelow.
  pose proof (jsGt_trans _ _ _ Htop Hbelow) as Habs.
  rewrite jsGt_irrefl in Habs. discriminate.
Qed.

(** X15. In the plan of a well-formed package (the hypotheses of the
    amended C1), each range starts numerically above the end of the range
    before it: no version is checked in two directories. *)
Theorem planned_ranges_do_not_overlap (supported : list JsVal) (dir : string)
    (minimum : JsVal) (cutoffs : list JsVal) :
  strictlyIncreasing supported = true ->
  cutoffs <> [] ->
  strictlyIncreasing cutoffs = true ->
  Forall (fun c => In c supported) cutoffs ->
  last cutoffs JUndefined <> latest supported ->
  jsGe (parseFloat (hd JUndefined cutoffs))
       (parseFloat (effectiveMinimum supported minimum)) = true ->
  noOverlap (fst (planRanges supported dir minimum cutoffs)) = true.
Proof.
  intros Hsup Hne Hinc Hmem Hlast Hmin.
  destruct (increasing_cutoffs_ranges supported dir minimum cutoffs
              Hsup Hne Hinc Hmem Hlast Hmin) as [Hok Hmap].
  rewrite (planRanges_completes _ _ _ _ Hmem Hok). cbn [fst].
  rewrite Hmap. apply loopRanges_noOverlap; [exact Hsup|].
  now apply cutoffs_below_latest.
Qed.

Lemma planned_ranges_do_not_overlap_witness :
  noOverlap (fst (planRanges sup30_50 "/dt/types/foo" (JStr "3.1")
                             (versions ["3.2"; "3.6"; "4.4"]))) = true.
Proof.
  assert (Hmem : Forall (fun c => In c sup30_50)
                        (versions ["3.2"; "3.6"; "4.4"])).
  { repeat constructor; simpl; tauto. }
  exact (planned_ranges_do_not_overlap sup30_50 "/dt/types/foo" (JStr "3.1")
           (versions ["3.2"; "3.6"; "4.4"]) eq_refl
           ltac:(discriminate) eq_refl Hmem ltac:(discriminate) eq_refl).
Defined.

(** ** The start of [runTests] *)

(** X16. [runTests] dispatches a check or calls the compatibility checker
    only after the first lines have all passed: the directory [types]
    exists below the root found, the package name is not banned, the file
    of packages that are not needed was read and does not list the name,
    the version directories were read, and package.json was accepted. *)
Theorem nothing_is_checked_before_the_package_is_accepted
    (supported : list JsVal) (repo : Repo) (env : Env) (dir : string)
    (onlyNext expOnly : bool) (local : JsVal) :
  fst (runTestsFromStart supported repo env dir onlyNext expOnly local [])
  <> [] ->
  typesDirExists repo (findDTRoot dir) = true /\
  assertPathIsNotBanned (packageNameFromPath repo dir) = Ok tt /\
  (exists unneeded,
     notNeededPackages repo (findDTRoot dir) = Ok unneeded /\
     ~ In (packageNameFromPath repo dir) unneeded) /\
  (exists versionDirs pkg,
     getTypesVersions repo dir = Ok versionDirs /\
     checkPackageJson repo dir versionDirs = inr pkg /\
     runTestsFromStart supported repo env dir onlyNext expOnly local []
     = runTests supported env
         (mkArgs dir (findDTRoot dir) onlyNext expOnly local versionDirs pkg)
         []).
Proof.
  unfold runTestsFromStart, assertPathIsInDefinitelyTyped,
    assertPackageIsNotDeprecated. munfold.
  destruct (typesDirExists repo (findDTRoot dir)); simpl;
    [|intros H; now contradiction H].
  destruct (assertPathIsNotBanned (packageNameFromPath repo dir))
    as [[]|e1]; [|intros H; now contradiction H].
  destruct (notNeededPackages repo (findDTRoot dir)) as [unneeded|e2];
    [|intros H; now contradiction H].
  destruct (arrayIncludes unneeded (packageNameFromPath repo dir)) eqn:Einc;
    [intros H; now contradiction H|].
  destruct (getTypesVersions repo dir) as [versionDirs|e3];
    [|intros H; now contradiction H].
  destruct (checkPackageJson repo dir versionDirs) as [errors|pkg] eqn:Epkg;
    [intros H; now contradiction H|].
  intros _. split; [reflexivity|]. split; [reflexivity|]. split.
  - exists unneeded. split; [reflexivity|]. intros Hin.
    assert (arrayIncludes unneeded (packageNameFromPath repo dir) = true);
      [|congruence].
    unfold arrayIncludes. now apply existsb_eqb_In.
  - exists versionDirs, pkg. split; [reflexivity|]. split; [exact Epkg|].
    reflexivity.
Qed.

Lemma nothing_is_checked_before_the_package_is_accepted_witness :
  fst (runTestsFromStart sup30_50 acceptingRepo quietEnv "/dt/types/foo"
                         false false JUndefined [])
  <> [] /\
  typesDirExists acceptingRepo (findDTRoot "/dt/types/foo") = true /\
  assertPathIsNotBanned (packageNameFromPath acceptingRepo "/dt/types/foo")
  = Ok tt.
Proof.
  assert (H : fst (runTestsFromStart sup30_50 acceptingRepo quietEnv
                     "/dt/types/foo" false false JUndefined []) <> [])
    by discriminate.
  split; [exact H|].
  pose proof (nothing_is_checked_before_the_package_is_accepted sup30_50
                acceptingRepo quietEnv "/dt/types/foo" false false JUndefined
                H) as (H1 & H2 & _).
  split; [exact H1 | exact H2].
Defined.

(** ** No check below the minimum *)

Lemma maxVersion_ge_first (e x : JsVal) :
  parseFloat e <> NaN -> parseFloat (maxVersion e x) <> NaN ->
  jsGe (parseFloat (maxVersion e x)) (parseFloat e) = true.
Proof.
  intros He Hm. destruct (maxVersion_cases e x) as [[G E] | [G E]];
    rewrite E in *.
  - now apply jsGe_refl.
  - apply jsGt_jsGe. now apply jsGe_total.
Qed.

Lemma maxVersion_ge_second (m lo : JsVal) :
  parseFloat lo <> NaN ->
  jsGe (parseFloat (maxVersion m lo)) (parseFloat lo) = true.
Proof.
  intros Hlo. destruct (maxVersion_cases m lo) as [[G E] | [G E]]; rewrite E.
  - exact G.
  - now apply jsGe_refl.
Qed.

(** X17. The lowest supported version being a number: in the range loop,
    whatever the version directories, the declared minimum and the answers
    of the checks are, every check dispatched starts at a version that is
    numerically at least the effective minimum, hence at least the lowest
    supported version. *)
Theorem no_check_below_the_minimum (supported : list JsVal) (env : Env)
    (a : Args) :
  parseFloat (lowest supported) <> NaN ->
  rangeMode a ->
  Forall (fun c =>
            jsGe (parseFloat (tcLow c))
                 (parseFloat (effectiveMinimum supported
                                (minimumTypeScriptVersion (packageJson a))))
            = true /\
            jsGe (parseFloat (tcLow c)) (parseFloat (lowest supported))
            = true)
         (testCalls (fst (testPhase supported env a []))).
Proof.
  intros Hlo Hmode.
  set (minV := effectiveMinimum supported
                 (minimumTypeScriptVersion (packageJson a))).
  assert (Hmin : jsGe (parseFloat minV) (parseFloat (lowest supported))
                 = true) by (apply maxVersion_ge_second; exact Hlo).
  destruct (mapResult (next supported) (typesVersions a)) as [lows'|e] eqn:Hm.
  - rewrite (testPhase_loop _ _ _ _ _ Hmode Hm).
    apply (forFrom_invariant
             (fun tr =>
                Forall (fun c =>
                          jsGe (parseFloat (tcLow c)) (parseFloat minV) = true
                          /\ jsGe (parseFloat (tcLow c))
                                  (parseFloat (lowest supported)) = true)
                       (testCalls tr))); [|constructor].
    intros i tr Htr. rewrite rangeBody_eq.
    destruct (rangeOk _ _ _ i) eqn:Hok; simpl; [|exact Htr].
    rewrite testCalls_app, testCalls_rangeEvents.
    apply Forall_app. split; [exact Htr|].
    constructor; [|constructor]. simpl tcLow.
    assert (Hlow : jsGe (parseFloat (rangeLow minV (lowest supported :: lows')
                                              i))
                        (parseFloat minV) = true).
    { unfold rangeLow. apply maxVersion_ge_first.
      - exact (jsGe_not_NaN_l _ _ Hmin).
      - unfold rangeOk, rangeLow in Hok.
        exact (jsGe_not_NaN_r _ _ Hok). }
    split; [exact Hlow | exact (jsGe_trans _ _ _ Hlow Hmin)].
  - rewrite (testPhase_lookup_throws _ _ _ _ _ Hmode Hm). constructor.
Qed.

Lemma no_check_below_the_minimum_witness :
  parseFloat (lowest sup30_50) <> NaN /\
  rangeMode (planArgs "/dt/types/foo" (JStr "2.0") (versions ["3.6"; "3.2"]))
  /\
  Forall (fun c =>
            jsGe (parseFloat (tcLow c)) (parseFloat (lowest sup30_50)) = true)
         (testCalls
            (fst (testPhase sup30_50 quietEnv
                    (planArgs "/dt/types/foo" (JStr "2.0")
                              (versions ["3.6"; "3.2"])) []))).
Proof.
  assert (H1 : parseFloat (lowest sup30_50) <> NaN)
    by (vm_compute; discriminate).
  assert (H2 : rangeMode (planArgs "/dt/types/foo" (JStr "2.0")
                                   (versions ["3.6"; "3.2"])))
    by (split; reflexivity).
  split; [exact H1|]. split; [exact H2|].
  pose proof (no_check_below_the_minimum sup30_50 quietEnv
                (planArgs "/dt/types/foo" (JStr "2.0")
                          (versions ["3.6"; "3.2"])) H1 H2) as H.
  rewrite Forall_forall in *. intros c Hc. exact (proj2 (H c Hc)).
Defined.
